(** * AutoNMT: the token-budget batch constructor and the stage controller

    A shallow embedding of
    - [TranslationDataset.collate_fn]
      (autonmt/tasks/translation/bundle/translation_dataset.py), and
    - [_check_supported_metrics], [BaseTranslator._get_metrics_tool],
      [BaseTranslator.translate], [BaseTranslator.score] and
      [BaseTranslator.parse_metrics] (autonmt/toolkits/base.py),
    together with the properties the specification states about them, and
    further properties of these functions, of the dataset class
    ([TranslationDataset.__init__], [__len__], [__getitem__]) and of
    [BaseTranslator.__init__], [BaseTranslator._add_config] and the set-up
    of [BaseTranslator.predict]. *)

From Stdlib Require Import ZArith QArith List String Ascii Lia Bool.
From stdpp Require Import gmap strings list pretty sorting.

Local Open Scope Z_scope.
Local Open Scope nat_scope.
Local Open Scope string_scope.
Local Open Scope list_scope.

(** ** Exceptions and outcomes

    Python code either returns a value or raises.  The exception classes
    the embedded functions can raise are enumerated; the hooks supplied by a
    toolkit raise [HookError]. *)

Inductive exn : Type :=
| ValueError
| IOError
| RuntimeError
| AssertionError
| FileNotFoundError
| AttributeError
| KeyError
| HookError (msg : string).

Inductive outcome (A : Type) : Type :=
| Ok (a : A)
| Raise (e : exn).
Arguments Ok {A} a.
Arguments Raise {A} e.

Definition is_ok {A} (o : outcome A) : bool :=
  match o with Ok _ => true | Raise _ => false end.

(** * Part I: [TranslationDataset.collate_fn] *)

Module TranslationDataset.

(** A two-dimensional tensor: its shape and its cells, row by row.  The
    shape is kept apart from the cells, as torch keeps it, so that a tensor
    with a zero dimension still has both dimensions. *)
Record tensor2 : Type := Tensor2 {
  shape0 : nat;
  shape1 : nat;
  cells : list (list Z)
}.

(** [Tensor.numel()] *)
Definition numel (t : tensor2) : nat := shape0 t * shape1 t.

(** Python's [max] over the lengths of a list of sequences (0 when empty is
    never used: [pad_sequence] rejects the empty list first). *)
Definition max_len (seqs : list (list Z)) : nat :=
  fold_right Nat.max 0 (map (@List.length Z) seqs).

(** [torch.nn.utils.rnn.pad_sequence(seqs, batch_first=False, padding_value)]:
    a [(max_len, B)] tensor whose column [j] is [seqs[j]] followed by the
    padding value; torch raises a RuntimeError on an empty list. *)
Definition pad_sequence (seqs : list (list Z)) (padding_value : Z)
  : outcome tensor2 :=
  match seqs with
  | [] => Raise RuntimeError
  | _ =>
      let t := max_len seqs in
      Ok (Tensor2 t (List.length seqs)
            (map (fun r => map (fun s => nth r s padding_value) seqs)
                 (seq 0 t)))
  end.

(** [Tensor.T] on a two-dimensional tensor. *)
Definition transpose (t : tensor2) : tensor2 :=
  Tensor2 (shape1 t) (shape0 t)
    (map (fun j => map (fun r => nth j (nth r (cells t) []) 0%Z)
                       (seq 0 (shape0 t)))
         (seq 0 (shape1 t))).

(** The diagnostic printed when samples are dropped: the ratio that is
    formatted into the message, and the budget. *)
Record warning : Type := Dropping {
  drop_ratio : Q;
  warn_max_tokens : option Z
}.

(** The local variables of the loop of [collate_fn]. *)
Record loop_state : Type := LoopState {
  x_encoded : list (list Z);
  y_encoded : list (list Z);
  x_max_len : nat;
  y_max_len : nat;
  printed : list warning
}.

Definition init_state : loop_state := LoopState [] [] 0 0 [].

(** [max_tokens is None or (i+1)*(x_max_len+y_max_len) <= max_tokens] *)
Definition within_budget (max_tokens : option Z) (i xm ym : nat) : bool :=
  match max_tokens with
  | None => true
  | Some b => (Z.of_nat ((i + 1) * (xm + ym)) <=? b)%Z
  end.

(** The budget holds for what has been accepted so far. *)
Definition budget_ok (max_tokens : option Z) (st : loop_state) : Prop :=
  forall B : Z, max_tokens = Some B -> x_encoded st <> [] ->
    (Z.of_nat (List.length (x_encoded st) *
               (max_len (x_encoded st) + max_len (y_encoded st))) <= B)%Z.

Section Collate.

(** [self.src_vocab.encode(x, max_length=self.max_src_positions)] and its
    target counterpart: the vocabulary class is a collaborator, so the two
    encoders and the two padding ids are parameters. *)
Variable src_encode : string -> list Z.
Variable trg_encode : string -> list Z.
Variable src_pad_id : Z.
Variable trg_pad_id : Z.

(** The [for i, (x, y) in enumerate(batch)] loop; [n] is [len(batch)] of
    the whole batch, [i] the index of the head of [rest]. *)
Fixpoint collate_loop (n : nat) (max_tokens : option Z) (i : nat)
    (rest : list (string * string)) (st : loop_state) : loop_state :=
  match rest with
  | [] => st
  | (x, y) :: rest' =>
      let _x := src_encode x in
      let _y := trg_encode y in
      let xm := Nat.max (x_max_len st) (List.length _x) in
      let ym := Nat.max (y_max_len st) (List.length _y) in
      if within_budget max_tokens i xm ym then
        collate_loop n max_tokens (S i) rest'
          (LoopState (x_encoded st ++ [_x]) (y_encoded st ++ [_y])
                     xm ym (printed st))
      else
        (* break *)
        let ratio := (1 - (inject_Z (Z.of_nat (i + 1)) / inject_Z (Z.of_nat n)))%Q in
        LoopState (x_encoded st) (y_encoded st) xm ym
          (printed st ++
             [Dropping ratio max_tokens])
  end.

Definition run_loop (batch : list (string * string)) (max_tokens : option Z)
  : loop_state :=
  collate_loop (List.length batch) max_tokens 0 batch init_state.

(** [collate_fn]: what was printed, and the padded pair or the exception. *)
Definition collate_fn (batch : list (string * string)) (max_tokens : option Z)
  : list warning * outcome (tensor2 * tensor2) :=
  let st := run_loop batch max_tokens in
  (printed st,
   match pad_sequence (x_encoded st) src_pad_id with
   | Raise e => Raise e
   | Ok xp =>
       let x_padded := transpose xp in
       match pad_sequence (y_encoded st) trg_pad_id with
       | Raise e => Raise e
       | Ok yp =>
           let y_padded := transpose yp in
           if negb (Nat.eqb (shape0 x_padded) (shape0 y_padded)
                    && Nat.eqb (shape0 y_padded) (List.length (x_encoded st)))
           then Raise AssertionError
           else if negb (match max_tokens with
                         | None => true
                         | Some b =>
                             (Z.of_nat (numel x_padded + numel y_padded) <=? b)%Z
                         end)
           then Raise AssertionError
           else Ok (x_padded, y_padded)
       end
   end).

(** The number of samples [collate_fn] accepted. *)
Definition accepted_count (batch : list (string * string))
    (max_tokens : option Z) : nat :=
  List.length (x_encoded (run_loop batch max_tokens)).

(** The vocabulary of the specification of the batch constructor: the
    encoded lengths of the batch, the running maximum over the first [i+1]
    of them, and the acceptance test of sample [i]. *)
Definition src_lens (batch : list (string * string)) : list nat :=
  map (fun p => List.length (src_encode (fst p))) batch.

Definition trg_lens (batch : list (string * string)) : list nat :=
  map (fun p => List.length (trg_encode (snd p))) batch.

Definition running_max (m0 : nat) (lens : list nat) (i : nat) : nat :=
  fold_right Nat.max m0 (firstn (S i) lens).

Definition accepts (batch : list (string * string)) (max_tokens : option Z)
    (i : nat) : bool :=
  within_budget max_tokens i (running_max 0 (src_lens batch) i)
                (running_max 0 (trg_lens batch) i).

End Collate.

End TranslationDataset.

(** * Part II: the stage controller of autonmt/toolkits/base.py *)

Module BaseTranslator.

(** ** Python string operations used by the controller *)

(** [s.startswith(p)] *)
Definition startswith (s p : string) : bool := String.prefix p s.

(** [s[n:]] *)
Fixpoint slice_from (n : nat) (s : string) : string :=
  match n, s with
  | 0, _ => s
  | S _, EmptyString => EmptyString
  | S n', String _ s' => slice_from n' s'
  end.

(** [s.endswith("/")] *)
Fixpoint ends_with_sep (s : string) : bool :=
  match s with
  | EmptyString => false
  | String c EmptyString => Ascii.eqb c "/"
  | String _ s' => ends_with_sep s'
  end.

(** [needle in hay] on strings *)
Fixpoint contains (needle hay : string) : bool :=
  String.prefix needle hay ||
  match hay with
  | EmptyString => false
  | String _ hay' => contains needle hay'
  end.

Fixpoint has_dot (s : string) : bool :=
  match s with
  | EmptyString => false
  | String c s' => Ascii.eqb c "." || has_dot s'
  end.

(** [s.split('.')[-1]] *)
Fixpoint last_dot_field (s : string) : string :=
  match s with
  | EmptyString => EmptyString
  | String c s' =>
      if has_dot s' then last_dot_field s'
      else if Ascii.eqb c "." then s' else String c s'
  end.

(** [os.path.join(a, b)] of posixpath *)
Definition path_join (a b : string) : string :=
  if startswith b "/" then b
  else if String.eqb a "" || ends_with_sep a then a ++ b
  else a ++ "/" ++ b.

(** [str.lower()], on the ASCII letters *)
Definition lower_ascii (c : ascii) : ascii :=
  let n := nat_of_ascii c in
  if Nat.leb 65 n && Nat.leb n 90 then ascii_of_nat (n + 32) else c.

Fixpoint lower (s : string) : string :=
  match s with
  | EmptyString => EmptyString
  | String c s' => String (lower_ascii c) (lower s')
  end.

(** The characters [str.strip()] removes, among the ASCII ones. *)
Definition is_space (c : ascii) : bool :=
  let n := nat_of_ascii c in
  (Nat.leb 9 n && Nat.leb n 13) || (Nat.leb 28 n && Nat.leb n 32).

Fixpoint lstrip (s : string) : string :=
  match s with
  | EmptyString => EmptyString
  | String c s' => if is_space c then lstrip s' else s
  end.

Fixpoint rstrip (s : string) : string :=
  match s with
  | EmptyString => EmptyString
  | String c s' =>
      let r := rstrip s' in
      if is_space c && String.eqb r "" then EmptyString else String c r
  end.

(** [str.strip()] *)
Definition strip (s : string) : string := rstrip (lstrip s).

(** A name made of the letters a-z only, as the tool names are. *)
Definition is_lower_letter (c : ascii) : bool :=
  Nat.leb 97 (nat_of_ascii c) && Nat.leb (nat_of_ascii c) 122.

Fixpoint lower_letters (s : string) : bool :=
  match s with
  | EmptyString => true
  | String c s' => is_lower_letter c && lower_letters s'
  end.

(** [str(beam)] for an int *)
Definition str_int (z : Z) : string := pretty z.

(** ** The class-level tables *)

(** [TOOL_PARSERS]: tool name to score file name and extension; the parser
    function of each entry is the hook [m_parser] below. *)
Definition TOOL_PARSERS : gmap string (string * string) :=
  list_to_map
    [("sacrebleu", ("sacrebleu_scores", "json"));
     ("bertscore", ("bertscore_scores", "json"));
     ("comet", ("comet_scores", "json"));
     ("beer", ("beer_scores", "json"));
     ("huggingface", ("huggingface_scores", "json"));
     ("fairseq", ("fairseq_scores", "txt"))].

Definition TOOL2METRICS_items : list (string * list string) :=
  [("sacrebleu", ["bleu"; "chrf"; "ter"]);
   ("bertscore", ["bertscore"]);
   ("comet", ["comet"]);
   ("beer", ["beer"]);
   ("fairseq", ["fairseq"])].

Definition TOOL2METRICS : gmap string (gset string) :=
  list_to_map (map (fun '(t, ms) => (t, list_to_set ms)) TOOL2METRICS_items).

(** [{m: tool for tool, metrics in TOOL2METRICS.items() for m in metrics}] *)
Definition METRICS2TOOL : gmap string string :=
  fold_left (fun acc '(t, ms) => fold_left (fun acc m => <[m := t]> acc) ms acc)
            TOOL2METRICS_items ∅.

(** [self.TOOL2METRICS[tool]] *)
Definition tool_metrics (tool : string) : gset string :=
  default ∅ (TOOL2METRICS !! tool).

(** ** The file store, the trace and the controller's monad *)

(** A file: its lines and the time of its last write. *)
Record file : Type := File {
  lines : list string;
  mtime : nat
}.

(** The file store: the only state the controller persists.  Writing a file
    stamps it with the clock and advances the clock. *)
Record fs : Type := FS {
  files : gmap string file;
  clock : nat
}.

(** What the controller prints and which collaborators it calls, in order. *)
Inductive event : Type :=
| Print_unsupported (names : gset string)
| Print_skipped
| Print_filtering (fn_name : string)
| Print_parsing_error (m_fname : string) (e : exn)
| Print_no_metrics (m_tool : string)
| Call_preprocess_predict_file (input_file output_file lang : string)
| Call_encode_file (input_file output_file lang : string)
| Call_preprocess (output_path test_path : string)
| Call_translate (output_path : string) (beam_width : Z) (filter_idx : nat)
| Call_decode_file (input_file output_file lang : string)
| Call_compute_sacrebleu (ref_file hyp_file output_file : string)
    (metrics : gset string)
| Call_compute_bertscore (ref_file hyp_file output_file trg_lang : string)
| Call_compute_comet (src_file ref_file hyp_file output_file : string)
| Call_compute_fairseq (ref_file hyp_file output_file : string)
| Call_compute_huggingface (src_file hyp_file ref_file output_file : string)
    (metrics : gset string) (trg_lang : string).

Record world : Type := World {
  wfs : fs;
  trace : list event
}.

(** A computation of the controller: it transforms the world and returns or
    raises; the world reached is kept in both cases. *)
Definition M (A : Type) : Type := world -> world * outcome A.

#[export] Instance M_ret : MRet M := fun A a w => (w, Ok a).

#[export] Instance M_bind : MBind M := fun A B f m w =>
  match m w with
  | (w', Ok a) => f a w'
  | (w', Raise e) => (w', Raise e)
  end.

Definition raise {A} (e : exn) : M A := fun w => (w, Raise e).

(** [print(...)] *)
Definition emit (ev : event) : M unit :=
  fun w => (World (wfs w) (trace w ++ [ev]), Ok tt).

Definition gets {A} (f : fs -> A) : M A := fun w => (w, Ok (f (wfs w))).

(** A collaborator acting on the file store: the store it leaves and whether
    it returned or raised. *)
Definition effect : Type := fs -> fs * outcome unit.

(** Calling a collaborator: the call is recorded, then it acts. *)
Definition call (ev : event) (h : effect) : M unit :=
  fun w =>
    let '(fs', r) := h (wfs w) in
    (World fs' (trace w ++ [ev]), r).

(** [for a in l: body(a)] *)
Fixpoint for_each {A} (l : list A) (body : A -> M unit) : M unit :=
  match l with
  | [] => mret tt
  | a :: l' => body a ;; for_each l' body
  end.

(** A loop that threads a local variable. *)
Fixpoint for_fold {A B} (l : list A) (body : A -> B -> M B) (b : B) : M B :=
  match l with
  | [] => mret b
  | a :: l' => b' ← body a b; for_fold l' body b'
  end.

(** A computation that only reads and prints: it leaves the file store as
    it is, adds to the trace and does not raise. *)
Definition reads_only {A} (m : M A) : Prop :=
  forall w, exists evs a, m w = (World (wfs w) (trace w ++ evs), Ok a).

(** [os.path.exists(p)] *)
Definition path_exists (p : string) (s : fs) : bool :=
  bool_decide (is_Some (files s !! p)).

Definition write_file (p : string) (ls : list string) (s : fs) : fs :=
  FS (<[p := File ls (clock s)]> (files s)) (S (clock s)).

(** [shutil.copyfile(src, dst)] *)
Definition copyfile (src dst : string) : M unit :=
  fun w =>
    match files (wfs w) !! src with
    | None => (w, Raise FileNotFoundError)
    | Some f => (World (write_file dst (lines f) (wfs w)) (trace w), Ok tt)
    end.

(** [f.readlines()] of an opened file, and the helper [read_file_lines]. *)
Definition read_lines (p : string) : M (list string) :=
  fun w =>
    match files (wfs w) !! p with
    | None => (w, Raise FileNotFoundError)
    | Some f => (w, Ok (lines f))
    end.

(** Modelled from the spec: the helper [write_file_lines] of
    autonmt.bundle.utils is not among the sources; the filter-derived raw
    source and reference text is written to the unit's files. *)
Definition write_file_lines (p : string) (ls : list string) : M unit :=
  fun w => (World (write_file p ls (wfs w)) (trace w), Ok tt).

(** Modelled from the spec: the helper [count_file_lines] of
    autonmt.bundle.utils is not among the sources; it is the number of
    lines of the file, the quantity the line-count invariant compares. *)
Definition count_file_lines (p : string) : M nat :=
  ls ← read_lines p; mret (List.length ls).

(** Modelled from the spec: the helper [make_dir] of autonmt.bundle.utils is
    not among the sources; directories are created on demand and hold no
    content, so the files of the store are as before. *)
Definition make_dir (paths : list string) : M unit := mret tt.

(** ** Properties of computations and collaborators

    The vocabulary in which the idempotency of the stages is stated. *)

(** A computation relates the world it starts in to the world it ends in. *)
Definition respects (R : world -> world -> Prop) {A} (m : M A) : Prop :=
  forall w w' r, m w = (w', r) -> R w w'.

(** Every file of [s] is still there in [s']. *)
Definition grows (s s' : fs) : Prop :=
  forall p, path_exists p s = true -> path_exists p s' = true.

(** The file at [p], content and time stamp, is the same. *)
Definition same_file (p : string) (s s' : fs) : Prop :=
  files s' !! p = files s !! p.

Definition files_grow (w w' : world) : Prop := grows (wfs w) (wfs w').

Definition file_same (p : string) (w w' : world) : Prop :=
  same_file p (wfs w) (wfs w').

(** The events added from [w] to [w'] all satisfy [ok]. *)
Definition adds_only (ok : event -> bool) (w w' : world) : Prop :=
  exists evs, trace w' = trace w ++ evs /\ forallb ok evs = true.

(** A collaborator that deletes no file. *)
Definition keeps (h : effect) : Prop := forall s, grows s (fst (h s)).

(** A collaborator that, when it returns, has written [out]. *)
Definition writes (out : string) (h : effect) : Prop :=
  forall s, snd (h s) = Ok tt -> path_exists out (fst (h s)) = true.

(** A collaborator that does not touch [p]. *)
Definition leaves (p : string) (h : effect) : Prop :=
  forall s, same_file p s (fst (h s)).

Definition is_decode_call (ev : event) : bool :=
  match ev with Call_translate _ _ _ => true | _ => false end.

Definition is_score_call (ev : event) : bool :=
  match ev with
  | Call_compute_sacrebleu _ _ _ _ | Call_compute_bertscore _ _ _ _
  | Call_compute_comet _ _ _ _ | Call_compute_fairseq _ _ _
  | Call_compute_huggingface _ _ _ _ _ _ => true
  | _ => false
  end.

(** ** Datasets, artifact layout and collaborators *)

(** The attributes of a [Dataset] object the controller reads. *)
Record dataset : Type := Dataset {
  src_lang : string;
  trg_lang : string;
  dataset_lang_pair : string;
  dataset_name : string;
  subword_model : string;
  vocab_size : string;
  dataset_lines : string;
  test_name : string;
  split_names_lang : list string;
  has_preprocess_predict_fn : bool;
  data_raw_path : string;
  data_raw_preprocessed_path : string;
  data_encoded_path : string
}.

(** The paths the methods of [Dataset] derive for one (model dataset, eval
    dataset, toolkit, run) combination.  The class is a collaborator; what
    varies inside one call is the split name and the beam. *)
Record layout : Type := Layout {
  run_name : string;
  get_split_path : string -> string;
  model_eval_path : string;
  beam_path : string -> Z -> string;
  scores_path : string -> Z -> string
}.

(** A split filter: [filter_fn(src_lines, trg_lines, from_fn="translate")]. *)
Definition filter_fn : Type :=
  list string -> list string -> list string * list string.

(** The collaborators of the controller: the text pipeline, the abstract
    methods a toolkit implements and the scoring tools.  The last argument of
    the first five is [force_overwrite]. *)
Record hooks : Type := Hooks {
  preprocess_predict_file : string -> string -> string -> bool -> effect;
  encode_file : string -> string -> string -> bool -> effect;
  _preprocess : string -> string -> bool -> effect;
  _translate : string -> string -> Z -> nat -> bool -> effect;
  decode_file : string -> string -> string -> bool -> effect;
  compute_sacrebleu : string -> string -> string -> gset string -> effect;
  compute_bertscore : string -> string -> string -> string -> effect;
  compute_comet : string -> string -> string -> string -> effect;
  compute_fairseq : string -> string -> string -> effect;
  compute_huggingface :
    string -> string -> string -> string -> gset string -> string -> effect
}.

(** The contract of the collaborators the idempotency property relies on:
    none of them deletes a file, the decoder writes the tokenized
    hypothesis "hyp.tok" into its output directory, and every scoring tool
    writes its output file. *)
Record hooks_keep (H : hooks) : Prop := HooksKeep {
  keep_preprocess_predict_file :
    forall a b c fo, keeps (preprocess_predict_file H a b c fo);
  keep_encode_file : forall a b c fo, keeps (encode_file H a b c fo);
  keep_preprocess : forall a b fo, keeps (_preprocess H a b fo);
  keep_translate : forall a b c i fo, keeps (_translate H a b c i fo);
  keep_decode_file : forall a b c fo, keeps (decode_file H a b c fo);
  keep_sacrebleu : forall a b c m, keeps (compute_sacrebleu H a b c m);
  keep_bertscore : forall a b c d, keeps (compute_bertscore H a b c d);
  keep_comet : forall a b c d, keeps (compute_comet H a b c d);
  keep_fairseq : forall a b c, keeps (compute_fairseq H a b c);
  keep_huggingface :
    forall a b c d m e, keeps (compute_huggingface H a b c d m e)
}.

Record hooks_mark (H : hooks) : Prop := HooksMark {
  mark_translate :
    forall a o c i fo, writes (path_join o "hyp.tok") (_translate H a o c i fo);
  mark_sacrebleu : forall a b o m, writes o (compute_sacrebleu H a b o m);
  mark_bertscore : forall a b o d, writes o (compute_bertscore H a b o d);
  mark_comet : forall a b c o, writes o (compute_comet H a b c o);
  mark_fairseq : forall a b o, writes o (compute_fairseq H a b o);
  mark_huggingface :
    forall a b c o m e, writes o (compute_huggingface H a b c o m e)
}.

(** The attributes of the translator object ([self]). *)
Record translator : Type := Translator {
  engine : string;
  filter_ts_data_fn : list (string * option filter_fn);
  config : gmap string (gmap string string)
}.

(** ** [_check_datasets] and [_check_supported_metrics] *)

(** The model dataset and the eval dataset share their languages. *)
Definition compatible (model_ds eval_ds : dataset) : Prop :=
  src_lang model_ds = src_lang eval_ds /\
  trg_lang model_ds = trg_lang eval_ds /\
  dataset_lang_pair model_ds = dataset_lang_pair eval_ds.

(** [_check_datasets(train_ds, eval_ds)] with both arguments datasets. *)
Definition _check_datasets (train_ds eval_ds : dataset) : M unit :=
  if negb (String.eqb (src_lang train_ds) (src_lang eval_ds))
     || negb (String.eqb (trg_lang train_ds) (trg_lang eval_ds))
  then raise ValueError
  else mret tt.

(** [assert model_ds.dataset_lang_pair == eval_ds.dataset_lang_pair] *)
Definition assert_same_pair (model_ds eval_ds : dataset) : M unit :=
  if String.eqb (dataset_lang_pair model_ds) (dataset_lang_pair eval_ds)
  then mret tt
  else raise AssertionError.

Definition is_hg (x : string) : Prop := startswith x "hg_" = true.

#[export] Instance is_hg_dec (x : string) : Decision (is_hg x).
Proof. unfold is_hg. apply _. Defined.

(** The set [_check_supported_metrics] returns. *)
Definition metrics_valid_of (metrics metrics_supported : gset string)
  : gset string :=
  (metrics ∩ metrics_supported) ∪ filter is_hg metrics.

Definition _check_supported_metrics (metrics metrics_supported : gset string)
  : M (gset string) :=
  let metrics_valid := metrics_valid_of metrics metrics_supported in
  let metrics_non_valid := metrics ∖ metrics_valid in
  (if bool_decide (metrics_non_valid ≠ ∅) then
     emit (Print_unsupported metrics_non_valid) ;;
     (if bool_decide (metrics = metrics_non_valid) then emit Print_skipped
      else mret tt)
   else mret tt) ;;
  mret metrics_valid.

(** What [_check_supported_metrics] prints. *)
Definition check_prints (metrics supported : gset string) : list event :=
  let non_valid := metrics ∖ metrics_valid_of metrics supported in
  if bool_decide (non_valid ≠ ∅) then
    Print_unsupported non_valid ::
    (if bool_decide (metrics = non_valid) then [Print_skipped] else [])
  else [].

(** ** [BaseTranslator._get_metrics_tool] *)

Definition metric_tool (m : string) : option string :=
  if startswith m "hg_" then Some "huggingface" else METRICS2TOOL !! m.

Definition _get_metrics_tool (metrics : gset string) : gset string :=
  set_fold (fun m tools =>
              match metric_tool m with
              | Some m_tool => {[m_tool]} ∪ tools
              | None => tools
              end) ∅ metrics.

Section Controller.

Variable self : translator.
Variable H : hooks.
Variable L : layout.
Variable model_ds : dataset.
Variable eval_ds : dataset.

(** ** [BaseTranslator.translate] *)

(** Lines 262-316: the checks, then the test files of the eval dataset are
    copied, preprocessed and encoded under the eval directory of the run. *)
Definition translate_stage (force_overwrite : bool) : M unit :=
  _check_datasets model_ds eval_ds ;;
  assert_same_pair model_ds eval_ds ;;
  make_dir [model_eval_path L] ;;
  let dst_raw_path := path_join (model_eval_path L) (data_raw_path model_ds) in
  let dst_preprocessed_path :=
    path_join (model_eval_path L) (data_raw_preprocessed_path model_ds) in
  let dst_encoded_path :=
    path_join (model_eval_path L) (data_encoded_path model_ds) in
  make_dir [dst_raw_path; dst_preprocessed_path; dst_encoded_path] ;;
  for_each
    (List.filter (fun fname => contains (test_name eval_ds) fname)
                 (split_names_lang eval_ds))
    (fun ts_fname =>
       let lang := last_dot_field ts_fname in
       let input_file := get_split_path L ts_fname in
       let source_file := path_join dst_raw_path ts_fname in
       copyfile input_file source_file ;;
       let input_file := source_file in
       let preprocessed_file := path_join dst_preprocessed_path ts_fname in
       call (Call_preprocess_predict_file input_file preprocessed_file lang)
            (preprocess_predict_file H input_file preprocessed_file lang
               force_overwrite) ;;
       let input_file := preprocessed_file in
       let enc_file := path_join dst_encoded_path ts_fname in
       call (Call_encode_file input_file enc_file lang)
            (encode_file H input_file enc_file lang force_overwrite)) ;;
  let test_path := path_join dst_encoded_path (test_name eval_ds) in
  call (Call_preprocess (model_eval_path L) test_path)
       (_preprocess H (model_eval_path L) test_path force_overwrite).


(** Lines 332: [[os.path.exists(os.path.join(output_path, f)) for f in
    ["hyp.tok"]]]. *)
Definition tok_flag (fn_name : string) (beam : Z) (s : fs) : list bool :=
  map (fun f => path_exists (path_join (beam_path L fn_name beam) f) s)
      ["hyp.tok"].

(** Lines 382-388: the hypothesis and the reference must have the same
    number of lines. *)
Definition check_line_counts (output_path : string) : M unit :=
  num_lines_ref ← count_file_lines (path_join output_path "ref.txt");
  num_lines_hyp ← count_file_lines (path_join output_path "hyp.txt");
  if negb (Nat.eqb num_lines_ref num_lines_hyp) then raise ValueError
  else mret tt.

(** Lines 334-388: the unit is decoded, its source and reference text are
    copied or filtered, the hypothesis is detokenized and the line counts
    are compared. *)
Definition decode_unit (force_overwrite : bool) (i : nat)
    (fn_name : string) (filter : option filter_fn) (beam : Z) : M unit :=
  let dst_raw_path := path_join (model_eval_path L) (data_raw_path model_ds) in
  let output_path := beam_path L fn_name beam in
  call (Call_translate output_path beam i)
       (_translate H (model_eval_path L) output_path beam i force_overwrite) ;;
  let src_input_file :=
    path_join dst_raw_path (test_name eval_ds ++ "." ++ src_lang model_ds) in
  let src_output_file := path_join output_path "src.txt" in
  let ref_input_file :=
    path_join dst_raw_path (test_name eval_ds ++ "." ++ trg_lang model_ds) in
  let ref_output_file := path_join output_path "ref.txt" in
  match filter with
  | None =>
      copyfile src_input_file src_output_file ;;
      copyfile ref_input_file ref_output_file
  | Some f =>
      emit (Print_filtering fn_name) ;;
      src_ref_lines ← read_lines src_input_file;
      trg_ref_lines ← read_lines ref_input_file;
      let '(src_ref_lines, trg_ref_lines) := f src_ref_lines trg_ref_lines in
      write_file_lines src_output_file src_ref_lines ;;
      write_file_lines ref_output_file trg_ref_lines
  end ;;
  (if has_preprocess_predict_fn model_ds then
     call (Call_preprocess_predict_file src_output_file src_output_file
             (src_lang model_ds))
          (preprocess_predict_file H src_output_file src_output_file
             (src_lang model_ds) force_overwrite) ;;
     call (Call_preprocess_predict_file ref_output_file ref_output_file
             (trg_lang model_ds))
          (preprocess_predict_file H ref_output_file ref_output_file
             (trg_lang model_ds) force_overwrite)
   else mret tt) ;;
  for_each [("hyp", trg_lang model_ds)]
    (fun '(fname, lang) =>
       let input_file := path_join output_path (fname ++ ".tok") in
       let output_file := path_join output_path (fname ++ ".txt") in
       call (Call_decode_file input_file output_file lang)
            (decode_file H input_file output_file lang force_overwrite)) ;;
  check_line_counts output_path.

(** The completion marker of a unit of [translate] is there. *)
Definition unit_marked (fn_name : string) (beam : Z) (s : fs) : Prop :=
  path_exists (path_join (beam_path L fn_name beam) "hyp.tok") s = true.

(** The body of the beam loop (lines 324-390) for split [fn_name] at index
    [i] of [filter_ts_data_fn] and beam [beam]. *)
Definition translate_unit (force_overwrite : bool) (i : nat)
    (fn_name : string) (filter : option filter_fn) (beam : Z) : M unit :=
  make_dir [beam_path L fn_name beam] ;;
  tok_flag ← gets (tok_flag fn_name beam);
  if force_overwrite || negb (forallb id tok_flag) then
    decode_unit force_overwrite i fn_name filter beam
  else mret tt.

(** [enumerate(l)] *)
Definition enumerate {A} (l : list A) : list (nat * A) :=
  combine (seq 0 (List.length l)) l.

(** Lines 318-390: splits, then beams, in the order given. *)
Definition translate_units (beams : list Z) (force_overwrite : bool) : M unit :=
  for_each (enumerate (filter_ts_data_fn self))
    (fun '(i, (fn_name, filter)) =>
       for_each beams
         (fun beam => translate_unit force_overwrite i fn_name filter beam)).

Definition translate (beams : list Z) (force_overwrite : bool) : M unit :=
  translate_stage force_overwrite ;;
  translate_units beams force_overwrite.

(** ** [BaseTranslator.score] *)

(** [self.TOOL2METRICS[tool].intersection(metrics)], as a condition. *)
Definition tool_requested (tool : string) (metrics : gset string) : bool :=
  bool_decide (tool_metrics tool ∩ metrics ≠ ∅).

(** [{x[3:] for x in metrics if x.startswith("hg_")}] *)
Definition hg_metrics_of (metrics : gset string) : gset string :=
  set_map (slice_from 3) (filter is_hg metrics).

(** One of the five blocks of [score]: when the tool is requested, its
    sub-routine runs unless its score file exists and overwrite is off. *)
Definition compute_step (requested : bool) (output_file : string)
    (force_overwrite : bool) (ev : event) (h : effect) : M unit :=
  if requested then
    present ← gets (path_exists output_file);
    if force_overwrite || negb present then call ev h else mret tt
  else mret tt.

(** Lines 424-431: the three text files of the unit must exist. *)
Definition unit_texts_present (fn_name : string) (beam : Z) (s : fs) : bool :=
  forallb (fun p => path_exists p s)
    [path_join (beam_path L fn_name beam) "src.txt";
     path_join (beam_path L fn_name beam) "ref.txt";
     path_join (beam_path L fn_name beam) "hyp.txt"].

(** Lines 433-463: the five blocks, in the order of the source. *)
Definition score_tools (metrics : gset string) (force_overwrite : bool)
    (fn_name : string) (beam : Z) : M unit :=
  let beam_path := beam_path L fn_name beam in
  let scores_path := scores_path L fn_name beam in
  let src_file_path := path_join beam_path "src.txt" in
  let ref_file_path := path_join beam_path "ref.txt" in
  let hyp_file_path := path_join beam_path "hyp.txt" in
  (let output_file := path_join scores_path "sacrebleu_scores.json" in
   compute_step (tool_requested "sacrebleu" metrics) output_file
     force_overwrite
     (Call_compute_sacrebleu ref_file_path hyp_file_path output_file metrics)
     (compute_sacrebleu H ref_file_path hyp_file_path output_file metrics)) ;;
  (let output_file := path_join scores_path "bertscore_scores.json" in
   compute_step (tool_requested "bertscore" metrics) output_file
     force_overwrite
     (Call_compute_bertscore ref_file_path hyp_file_path output_file
        (trg_lang model_ds))
     (compute_bertscore H ref_file_path hyp_file_path output_file
        (trg_lang model_ds))) ;;
  (let output_file := path_join scores_path "comet_scores.json" in
   compute_step (tool_requested "comet" metrics) output_file
     force_overwrite
     (Call_compute_comet src_file_path ref_file_path hyp_file_path output_file)
     (compute_comet H src_file_path ref_file_path hyp_file_path output_file)) ;;
  (let output_file := path_join scores_path "fairseq_scores.txt" in
   compute_step (tool_requested "fairseq" metrics) output_file
     force_overwrite
     (Call_compute_fairseq ref_file_path hyp_file_path output_file)
     (compute_fairseq H ref_file_path hyp_file_path output_file)) ;;
  (let hg_metrics := hg_metrics_of metrics in
   let output_file := path_join scores_path "huggingface_scores.json" in
   compute_step (bool_decide (hg_metrics ≠ ∅)) output_file
     force_overwrite
     (Call_compute_huggingface src_file_path hyp_file_path ref_file_path
        output_file hg_metrics (trg_lang model_ds))
     (compute_huggingface H src_file_path hyp_file_path ref_file_path
        output_file hg_metrics (trg_lang model_ds))).

(** The unit has its three text files and the score file of every tool
    requested by [metrics]. *)
Definition unit_scored (metrics : gset string) (fn_name : string) (beam : Z)
    (s : fs) : Prop :=
  let scores_path := scores_path L fn_name beam in
  unit_texts_present fn_name beam s = true /\
  (tool_requested "sacrebleu" metrics = true ->
   path_exists (path_join scores_path "sacrebleu_scores.json") s = true) /\
  (tool_requested "bertscore" metrics = true ->
   path_exists (path_join scores_path "bertscore_scores.json") s = true) /\
  (tool_requested "comet" metrics = true ->
   path_exists (path_join scores_path "comet_scores.json") s = true) /\
  (tool_requested "fairseq" metrics = true ->
   path_exists (path_join scores_path "fairseq_scores.txt") s = true) /\
  (hg_metrics_of metrics ≠ ∅ ->
   path_exists (path_join scores_path "huggingface_scores.json") s = true).

(** The body of the beam loop of [score] (lines 415-465). *)
Definition score_unit (metrics : gset string) (force_overwrite : bool)
    (fn_name : string) (beam : Z) : M unit :=
  make_dir [scores_path L fn_name beam] ;;
  present ← gets (unit_texts_present fn_name beam);
  if negb present then raise IOError
  else score_tools metrics force_overwrite fn_name beam.

Definition score_units (beams : list Z) (metrics : gset string)
    (force_overwrite : bool) : M unit :=
  for_each (filter_ts_data_fn self)
    (fun '(fn_name, _) =>
       for_each beams
         (fun beam => score_unit metrics force_overwrite fn_name beam)).

(** The loop body of [predict] for one evaluation dataset (lines 186-193)
    is [predict_eval] below, after [parse_metrics]. *)
Definition score (beams : list Z) (metrics : gset string)
    (force_overwrite : bool) : M unit :=
  _check_datasets model_ds eval_ds ;;
  assert_same_pair model_ds eval_ds ;;
  metrics_valid ← _check_supported_metrics metrics (dom METRICS2TOOL);
  if bool_decide (metrics_valid = ∅) then mret tt
  else score_units beams metrics force_overwrite.

(** ** [BaseTranslator.parse_metrics] *)

(** The values of the score files are numbers the controller only moves. *)
Variable value : Type.

(** What a tool parser returns: [{metric_name: {sub_score: value}}] in
    iteration order; [None] stands for a value of a metric that is not a
    mapping, on which [.items()] raises. *)
Definition parsed : Type := list (string * option (list (string * value))).

(** [values["py"][0]] of [TOOL_PARSERS[m_tool]], applied to the lines read. *)
Variable m_parser : string -> list string -> outcome parsed.

(** [f"{m_tool}_{m_name}_{score_name}".lower().strip()] *)
Definition flat_key (m_tool m_name score_name : string) : string :=
  strip (lower (m_tool ++ "_" ++ m_name ++ "_" ++ score_name)).

(** The inner [for score_name, score_value in m_values.items()] loop. *)
Definition flatten_metric (m_tool m_name : string)
    (m_values : list (string * value)) (beam_scores : gmap string value)
  : gmap string value :=
  fold_left (fun acc '(score_name, score_value) =>
               <[flat_key m_tool m_name score_name := score_value]> acc)
            m_values beam_scores.

(** The [for m_name, m_values in m_scores.items()] loop: the dictionary as
    it stands when the loop ends or raises. *)
Fixpoint flatten_scores (m_tool : string) (m_scores : parsed)
    (beam_scores : gmap string value) : gmap string value * outcome unit :=
  match m_scores with
  | [] => (beam_scores, Ok tt)
  | (m_name, None) :: _ => (beam_scores, Raise AttributeError)
  | (m_name, Some m_values) :: rest =>
      flatten_scores m_tool rest
        (flatten_metric m_tool m_name m_values beam_scores)
  end.


Definition pairs_of (m_scores : parsed) : list (string * string * value) :=
  flat_map (fun mv =>
              match snd mv with
              | Some m_values =>
                  map (fun sv => (fst mv, fst sv, snd sv)) m_values
              | None => []
              end) m_scores.

Definition flat_entries (m_tool : string) (m_scores : parsed)
  : list (string * value) :=
  map (fun t => (flat_key m_tool (fst (fst t)) (snd (fst t)), snd t))
      (pairs_of m_scores).

(** [d[k] = v] for each entry, in order. *)
Definition insert_all (l : list (string * value)) (d : gmap string value)
  : gmap string value :=
  fold_left (fun acc kv => <[fst kv := snd kv]> acc) l d.

(** The [try: ... except Exception as e: print(...)] block (lines 520-528):
    the file is read, parsed and flattened into [beam_scores]; whatever is
    raised is printed and the loop over the tools goes on. *)
Definition try_parse (m_tool m_fname filename : string)
    (beam_scores : gmap string value) : M (gmap string value) :=
  fun w =>
    match read_lines filename w with
    | (w', Raise e) =>
        (emit (Print_parsing_error m_fname e) ;; mret beam_scores) w'
    | (w', Ok text) =>
        match m_parser m_tool text with
        | Raise e =>
            (emit (Print_parsing_error m_fname e) ;; mret beam_scores) w'
        | Ok m_scores =>
            match flatten_scores m_tool m_scores beam_scores with
            | (bs, Ok _) => (w', Ok bs)
            | (bs, Raise e) =>
                (emit (Print_parsing_error m_fname e) ;; mret bs) w'
            end
        end
    end.

(** The body of [for m_tool in metric_tools] (lines 512-530). *)
Definition parse_tool (scores_path m_tool : string)
    (beam_scores : gmap string value) : M (gmap string value) :=
  match (TOOL_PARSERS !! m_tool : option (string * string)) with
  | None => raise KeyError
  | Some (stem, ext) =>
      let m_fname := (stem ++ "." ++ ext)%string in
      let filename := path_join scores_path m_fname in
      present ← gets (path_exists filename);
      if present : bool then try_parse m_tool m_fname filename beam_scores
      else emit (Print_no_metrics m_tool) ;; mret beam_scores
  end.

(** An entry of the "translations" mapping: the scores of a beam, or, under
    a split name, a mapping from beam keys to scores. *)
Inductive entry : Type :=
| Beam_scores (beam_scores : gmap string value)
| Split_beams (d : gmap string (gmap string value)).

(** The record [parse_metrics] returns. *)
Record ScoreRecord : Type := MkScoreRecord {
  sr_engine : option string;
  sr_lang_pair : string;
  sr_train_dataset : string;
  sr_eval_dataset : string;
  sr_subword_model : string;
  sr_vocab_size : string;
  sr_run_name : string;
  sr_train_max_lines : string;
  translations : gmap string entry;
  sr_config : gmap string (gmap string string)
}.

(** [f"beam{str(beam)}"] *)
Definition beam_key (beam : Z) : string := "beam" ++ str_int beam.

(** Lines 506-535 for one split and one beam: the scores are read, then
    [scores["translations"].update(d)]. *)
Definition parse_unit (metric_tools : gset string) (fn_name : string)
    (beam : Z) (tr : gmap string entry) : M (gmap string entry) :=
  let scores_path := scores_path L fn_name beam in
  beam_scores ← for_fold (elements metric_tools) (parse_tool scores_path) ∅;
  if String.eqb fn_name "" then
    mret (<[beam_key beam := Beam_scores beam_scores]> tr)
  else
    mret (<[fn_name := Split_beams {[beam_key beam := beam_scores]}]> tr).

(** [d] is what the loop over the tools reads for beam [b] of the unnamed
    split from the store [s]. *)
Definition beam_scores_from (metric_tools : gset string) (s : fs) (b : Z)
    (d : gmap string value) : Prop :=
  exists wb wb',
    wfs wb = s /\
    for_fold (elements metric_tools) (parse_tool (scores_path L "" b)) ∅ wb
    = (wb', Ok d).

Definition parse_units (metric_tools : gset string) (beams : list Z)
  : M (gmap string entry) :=
  for_fold (filter_ts_data_fn self)
    (fun '(fn_name, _) tr => for_fold beams (parse_unit metric_tools fn_name) tr)
    ∅.

(** The dictionary [scores] of [parse_metrics] (lines 488-499) with its
    "translations" entry filled in. *)
Definition score_record (kw_engine : option string) (tr : gmap string entry)
  : ScoreRecord :=
  MkScoreRecord kw_engine (dataset_lang_pair model_ds)
    (dataset_name model_ds) (dataset_name eval_ds)
    (lower (subword_model model_ds)) (lower (vocab_size model_ds))
    (run_name L) (dataset_lines model_ds) tr (config self).

(** [parse_metrics]: [None] is the bare [return] taken when no requested
    metric is valid; [kw_engine] is [kwargs.get("engine")]. *)
Definition parse_metrics (beams : list Z) (metrics : gset string)
    (kw_engine : option string) : M (option ScoreRecord) :=
  _check_datasets model_ds eval_ds ;;
  assert_same_pair model_ds eval_ds ;;
  metrics_valid ← _check_supported_metrics metrics (dom METRICS2TOOL);
  if bool_decide (metrics_valid = ∅) then mret None
  else
    let metric_tools := _get_metrics_tool metrics in
    tr ← parse_units metric_tools beams;
    mret (Some (score_record kw_engine tr)).

(** [translate], [score] and [parse_metrics] in sequence, as in the loop of
    [predict]. *)
Definition predict_eval (beams : list Z) (metrics : gset string)
    (force_overwrite : bool) : M (option ScoreRecord) :=
  translate beams force_overwrite ;;
  score beams metrics force_overwrite ;;
  parse_metrics beams metrics (Some (engine self)).

End Controller.

End BaseTranslator.

(** * Concrete collaborators for the scenarios *)

Module Scenario.
Import TranslationDataset.

(** A character-level vocabulary: one id per character. *)
Definition char_encode (s : string) : list Z :=
  map (fun c => Z.of_nat (nat_of_ascii c)) (list_ascii_of_string s).

(** Three pairs of lengths (2,2), (3,1), (4,4). *)
Definition three_pairs : list (string * string) :=
  [("ab", "cd"); ("abc", "d"); ("abcd", "efgh")].

(** Collaborators over the file store. *)
Import BaseTranslator.

Definition touch (out : string) (ls : list string) : effect :=
  fun s => (write_file out ls s, Ok tt).

Definition copy_effect (src dst : string) : effect :=
  fun s =>
    match files s !! src with
    | None => (s, Raise FileNotFoundError)
    | Some f => (write_file dst (lines f) s, Ok tt)
    end.


Definition no_effect : effect := fun s => (s, Ok tt).

(** A toolkit whose decoder writes [hyp] as tokenized hypothesis, with a
    text pipeline that copies and scoring tools that write one line. *)
Definition demo_hooks (hyp : list string) : hooks := {|
  preprocess_predict_file := fun i o _ _ => copy_effect i o;
  encode_file := fun i o _ _ => copy_effect i o;
  _preprocess := fun _ _ _ => no_effect;
  _translate := fun _ o _ _ _ => touch (path_join o "hyp.tok") hyp;
  decode_file := fun i o _ _ => copy_effect i o;
  compute_sacrebleu := fun _ _ o _ => touch o ["sacrebleu"];
  compute_bertscore := fun _ _ o _ => touch o ["bertscore"];
  compute_comet := fun _ _ _ o => touch o ["comet"];
  compute_fairseq := fun _ _ o => touch o ["fairseq"];
  compute_huggingface := fun _ _ _ o _ _ => touch o ["huggingface"]
|}.


Definition demo_layout : layout := {|
  run_name := "model_word_8000";
  get_split_path := fun f => ("data/" ++ f)%string;
  model_eval_path := "eval";
  beam_path := fun split beam =>
    path_join ("eval/translations/beam" ++ str_int beam)%string split;
  scores_path := fun split beam =>
    path_join
      (path_join ("eval/translations/beam" ++ str_int beam)%string split)
      "scores"
|}.

Definition demo_ds : dataset := {|
  src_lang := "de";
  trg_lang := "en";
  dataset_lang_pair := "de-en";
  dataset_name := "europarl";
  subword_model := "Word";
  vocab_size := "8000";
  dataset_lines := "100000";
  test_name := "test";
  split_names_lang :=
    ["train.de"; "train.en"; "val.de"; "val.en"; "test.de"; "test.en"];
  has_preprocess_predict_fn := false;
  data_raw_path := "raw";
  data_raw_preprocessed_path := "preprocessed";
  data_encoded_path := "encoded"
|}.

(** The default translator: one unnamed split, [[('', None)]]. *)
Definition demo_self : translator := {|
  engine := "autonmt";
  filter_ts_data_fn := [("", None)];
  config := ∅
|}.

(** A translator with one named split that keeps every line. *)
Definition split_self : translator := {|
  engine := "autonmt";
  filter_ts_data_fn := [("short", Some (fun src trg => (src, trg)))];
  config := ∅
|}.

(** A store holding the raw test split of two sentence pairs. *)
Definition demo_world : world := {|
  wfs := {| files := {[ "data/test.de" := File ["guten tag"; "danke"] 0;
                        "data/test.en" := File ["good day"; "thanks"] 0 ]};
            clock := 1 |};
  trace := []
|}.

(** A parser that reports the first line of the score file as the score of
    the metric "bleu". *)
Definition demo_parser (m_tool : string) (text : list string)
  : outcome (parsed string) :=
  Ok [("bleu", Some [("score", hd "" text)])].

(** The result of a computation, without the world. *)
Definition result_of {A} (r : world * outcome A) : outcome A := snd r.
Definition world_of {A} (r : world * outcome A) : world := fst r.

(** A decoder output with as many lines as the reference, and the store
    after [translate] for beams 5 and 1 with it. *)
Definition good_hyp : list string := ["good day"; "thanks"].

Definition translated_world : world :=
  world_of (translate demo_self (demo_hooks good_hyp) demo_layout
              demo_ds demo_ds [5%Z; 1%Z] false demo_world).

(** A store holding the sacrebleu score files of beams 5 and 1, for the
    unnamed split and for the split "short". *)
Definition scores_world : world := {|
  wfs := {| files :=
              {[ "eval/translations/beam5/scores/sacrebleu_scores.json" :=
                   File ["34.1"] 0;
                 "eval/translations/beam1/scores/sacrebleu_scores.json" :=
                   File ["30.2"] 1;
                 "eval/translations/beam5/short/scores/sacrebleu_scores.json" :=
                   File ["33.3"] 2;
                 "eval/translations/beam1/short/scores/sacrebleu_scores.json" :=
                   File ["29.9"] 3 ]};
            clock := 4 |};
  trace := []
|}.

(** A decoder output cut short: one line for two reference lines. *)
Definition short_hyp : list string := ["good day"].

(** The store a first [predict] leaves behind with that decoder: it raised
    at the line-count check of beam 5. *)
Definition failed_world : world :=
  world_of (predict_eval demo_self (demo_hooks short_hyp) demo_layout
              demo_ds demo_ds string demo_parser [5%Z] {["bleu"]} false
              demo_world).

(** The store after the staging of [translate], before any unit. *)
Definition staged_world : world :=
  world_of (translate_stage (demo_hooks good_hyp) demo_layout demo_ds demo_ds
              false demo_world).

(** The store after [translate] and [score] for beams 5 and 1. *)
Definition scored_world : world :=
  world_of (score demo_self (demo_hooks good_hyp) demo_layout demo_ds demo_ds
              [5%Z; 1%Z] {["bleu"]} false translated_world).

(** The number of lines of a file of the store, if it is there. *)
Definition line_count (p : string) (w : world) : option nat :=
  (fun f => List.length (lines f)) <$> files (wfs w) !! p.



End Scenario.

(** * Further vocabulary of the batch constructor *)

Module BatchRows.
Import TranslationDataset.

(** A sequence followed by the fill id up to [width]. *)
Definition padded_row (pad : Z) (width : nat) (s : list Z) : list Z :=
  s ++ repeat pad (width - List.length s).

End BatchRows.

(** * The dataset class of translation_dataset.py *)

Module TranslationDatasetClass.
Import BaseTranslator.

(** The fields [__init__] stores that the accessors read. *)
Record translation_dataset : Type := TDataset {
  src_lines : list string;
  trg_lines : list string;
  td_src_lang : string;
  td_trg_lang : string
}.

(** [TranslationDataset.__init__]: the two files of the prefix are read and
    must have the same number of lines.  [read_file_lines] is the helper of
    autonmt.utils, a collaborator. *)
Definition __init__ (read_file_lines : string -> outcome (list string))
    (file_prefix src_lang trg_lang : string) : outcome translation_dataset :=
  let src_file_path := (strip file_prefix ++ "." ++ src_lang)%string in
  let trg_file_path := (strip file_prefix ++ "." ++ trg_lang)%string in
  match read_file_lines src_file_path with
  | Raise e => Raise e
  | Ok src =>
      match read_file_lines trg_file_path with
      | Raise e => Raise e
      | Ok trg =>
          if Nat.eqb (List.length src) (List.length trg)
          then Ok (TDataset src trg src_lang trg_lang)
          else Raise AssertionError
      end
  end.

(** [TranslationDataset.__len__] *)
Definition __len__ (ds : translation_dataset) : nat :=
  List.length (src_lines ds).

(** The result of indexing: an item, or Python's IndexError. *)
Inductive item (A : Type) : Type :=
| Item (a : A)
| IndexError.
Arguments Item {A} a.
Arguments IndexError {A}.

(** [l[idx]] for an int [idx]: a negative index counts from the end. *)
Definition list_getitem {A} (l : list A) (idx : Z) : item A :=
  let n := Z.of_nat (List.length l) in
  let i := if (idx <? 0)%Z then (idx + n)%Z else idx in
  if (0 <=? i)%Z && (i <? n)%Z then
    match nth_error l (Z.to_nat i) with
    | Some a => Item a
    | None => IndexError
    end
  else IndexError.

(** [TranslationDataset.__getitem__] *)
Definition __getitem__ (ds : translation_dataset) (idx : Z)
  : item (string * string) :=
  match list_getitem (src_lines ds) idx with
  | IndexError => IndexError
  | Item src_line =>
      match list_getitem (trg_lines ds) idx with
      | IndexError => IndexError
      | Item trg_line => Item (src_line, trg_line)
      end
  end.

(** A corpus of two sentence pairs on disk. *)
Definition demo_read (path : string) : outcome (list string) :=
  if String.eqb path "corpus/test.de" then Ok ["guten tag"; "danke"]
  else if String.eqb path "corpus/test.en" then Ok ["good day"; "thanks"]
  else Raise FileNotFoundError.

End TranslationDatasetClass.

(** * Further vocabulary of the stage controller *)

Module ControllerVocabulary.
Import BaseTranslator.

(** The decoder calls [translate] makes when it decodes every unit: splits
    in the order of [filter_ts_data_fn], beams in the order given. *)
Definition decode_plan (self : translator) (L : layout) (beams : list Z)
  : list event :=
  flat_map (fun '(i, (fn_name, _)) =>
              map (fun beam => Call_translate (beam_path L fn_name beam) beam i)
                  beams)
           (enumerate (filter_ts_data_fn self)).

(** The scoring calls [score] makes for a unit when it runs every block
    that is requested, in the order of the blocks. *)
Definition score_plan_unit (L : layout) (model_ds : dataset)
    (metrics : gset string) (fn_name : string) (beam : Z) : list event :=
  let beam_path := beam_path L fn_name beam in
  let scores_path := scores_path L fn_name beam in
  let src_file_path := path_join beam_path "src.txt" in
  let ref_file_path := path_join beam_path "ref.txt" in
  let hyp_file_path := path_join beam_path "hyp.txt" in
  (if tool_requested "sacrebleu" metrics
   then [Call_compute_sacrebleu ref_file_path hyp_file_path
           (path_join scores_path "sacrebleu_scores.json") metrics]
   else []) ++
  (if tool_requested "bertscore" metrics
   then [Call_compute_bertscore ref_file_path hyp_file_path
           (path_join scores_path "bertscore_scores.json") (trg_lang model_ds)]
   else []) ++
  (if tool_requested "comet" metrics
   then [Call_compute_comet src_file_path ref_file_path hyp_file_path
           (path_join scores_path "comet_scores.json")]
   else []) ++
  (if tool_requested "fairseq" metrics
   then [Call_compute_fairseq ref_file_path hyp_file_path
           (path_join scores_path "fairseq_scores.txt")]
   else []) ++
  (if bool_decide (hg_metrics_of metrics ≠ ∅)
   then [Call_compute_huggingface src_file_path hyp_file_path ref_file_path
           (path_join scores_path "huggingface_scores.json")
           (hg_metrics_of metrics) (trg_lang model_ds)]
   else []).

(** The same for every unit: splits in the order of [filter_ts_data_fn],
    beams in the order given. *)
Definition score_plan (self : translator) (L : layout) (model_ds : dataset)
    (beams : list Z) (metrics : gset string) : list event :=
  flat_map (fun '(fn_name, _) =>
              flat_map (score_plan_unit L model_ds metrics fn_name) beams)
           (filter_ts_data_fn self).

(** The events satisfying [p] among those [m] adds are a prefix of [plan],
    and all of [plan] when [m] returns. *)
Definition calls {A} (p : event -> bool) (plan : list event) (m : M A) : Prop :=
  forall w w' r, m w = (w', r) ->
  exists evs rest,
    trace w' = trace w ++ evs /\
    plan = List.filter p evs ++ rest /\
    (is_ok r = true -> rest = []).


(** The events that are messages of the controller, not calls. *)
Definition is_print (ev : event) : bool :=
  match ev with
  | Print_unsupported _ | Print_skipped | Print_filtering _
  | Print_parsing_error _ _ | Print_no_metrics _ => true
  | _ => false
  end.

Section ScoreFiles.

Variable value : Type.
Variable m_parser : string -> list string -> outcome (parsed value).

(** The metrics of a parsed score file that come before the first one whose
    value is not a mapping: those the loop of [parse_metrics] flattens
    before [.items()] raises. *)
Fixpoint known_prefix (m_scores : parsed value) : parsed value :=
  match m_scores with
  | [] => []
  | (m_name, None) :: _ => []
  | (m_name, Some m_values) :: rest =>
      (m_name, Some m_values) :: known_prefix rest
  end.

(** The flat entries the body of [for m_tool in metric_tools] writes for
    tool [m_tool] from the store [s]: none when the score file is missing or
    does not parse. *)
Definition tool_entries (scores_path m_tool : string) (s : fs)
  : list (string * value) :=
  match (TOOL_PARSERS !! m_tool : option (string * string)) with
  | None => []
  | Some (stem, ext) =>
      match files s !! path_join scores_path (stem ++ "." ++ ext)%string with
      | None => []
      | Some f =>
          match m_parser m_tool (lines f) with
          | Raise _ => []
          | Ok m_scores => flat_entries value m_tool (known_prefix m_scores)
          end
      end
  end.

(** The value of the last entry of [l] under the key [k]. *)
Definition last_entry (k : string) (l : list (string * value)) : option value :=
  snd <$> find (fun kv => String.eqb (fst kv) k) (rev l).

End ScoreFiles.

End ControllerVocabulary.

(** * The entry point [predict] and the configuration record *)

Module PredictSetup.
Import BaseTranslator.

(** Lines 153-158 of [predict]: the default [[5]], or the distinct beams of
    the request in descending order ([list(set(beams))], then
    [sort(reverse=True)]). *)
Definition predict_beams (beams : option (list Z)) : list Z :=
  match beams with
  | None => [5%Z]
  | Some beams =>
      let beams := elements (list_to_set beams : gset Z) in
      merge_sort (flip Z.le) beams
  end.

(** Lines 160-164: the default [{"bleu"}], or the request as a set. *)
Definition predict_metrics (metrics : option (gset string)) : gset string :=
  match metrics with
  | None => {["bleu"]}
  | Some metrics => metrics
  end.

(** The fields of a translator beside those the stages read: the model
    dataset it remembers. *)
Record instance : Type := Instance {
  base : translator;
  self_model_ds : option dataset
}.

(** [BaseTranslator.__init__] (lines 69-90): [self.model_ds] is assigned the
    argument and then [None]; an absent or empty [filter_ts_data_fn] becomes
    [[('', None)]].  The check of line 90 runs on a remembered dataset
    only and, with one dataset, always passes. *)
Definition __init__ (engine : string) (model_ds : option dataset)
    (filter_ts_data_fn : option (list (string * option filter_fn)))
  : instance :=
  let self_model_ds := model_ds in
  let self_config : gmap string (gmap string string) := ∅ in
  let self_model_ds : option dataset := None in
  let self_filter_ts_data_fn :=
    match filter_ts_data_fn with
    | None | Some [] => [("", None)]
    | Some fns => fns
    end in
  Instance {| engine := engine;
              filter_ts_data_fn := self_filter_ts_data_fn;
              config := self_config |}
           self_model_ds.

(** [fit] (line 129): [self.model_ds = train_ds]. *)
Definition fit_model_ds (self : instance) (train_ds : dataset) : instance :=
  Instance (base self) (Some train_ds).

(** Lines 166-173 of [predict]: the dataset of the model is the argument
    when given, else the one remembered, else ValueError; the translator as
    it stands afterwards and the dataset used. *)
Definition predict_model_ds (self : instance) (model_ds : option dataset)
  : outcome (instance * dataset) :=
  match model_ds with
  | Some ds => Ok (Instance (base self) (Some ds), ds)
  | None =>
      match self_model_ds self with
      | Some ds => Ok (self, ds)
      | None => Raise ValueError
      end
  end.

End PredictSetup.

Module ConfigRecord.
Import BaseTranslator.

Section AddConfig.

(** The Python values handed to [_add_config], seen through what the
    function asks of them: whether [isinstance(v, primitive_types) or v is
    None] holds, the elements of a list or a set in iteration order, and
    [str(v)]. *)
Variable pyval : Type.
Variable is_primitive : pyval -> bool.
Variable items : pyval -> option (list pyval).
Variable py_str : pyval -> string.

(** A stored value: a string, or the list of strings of a list or set. *)
Inductive cfg : Type :=
| CStr (s : string)
| CList (l : list string).

Definition is_valid (k : string) (v : pyval) : bool :=
  negb (startswith k "_" || String.eqb k "kwargs") && is_primitive v.

Definition parse_value (x : pyval) : cfg :=
  match items x with
  | Some xs => CList (map py_str xs)
  | None => CStr (py_str x)
  end.

(** [{k: parse_value(v) for k, v in values.items() if is_valid(k, v)}] *)
Definition valid_updates (values : list (string * pyval)) : gmap string cfg :=
  fold_left (fun acc kv =>
               if is_valid (fst kv) (snd kv)
               then <[fst kv := parse_value (snd kv)]> acc else acc)
            values ∅.

(** [BaseTranslator._add_config] (lines 105-120) on the dictionary
    [self.config]; [dict.update] lets the new entries win. *)
Definition _add_config (config : gmap string (gmap string cfg)) (key : string)
    (values : list (string * pyval)) (reset : bool)
  : gmap string (gmap string cfg) :=
  let config :=
    if reset || negb (bool_decide (key ∈ dom config))
    then <[key := ∅]> config else config in
  <[key := valid_updates values ∪ default ∅ (config !! key)]> config.

(** The entry of [key] the update starts from: empty after a reset or when
    the key is new. *)
Definition old_entry (config : gmap string (gmap string cfg))
    (key : string) (reset : bool) : gmap string cfg :=
  if reset then ∅ else default ∅ (config !! key).

(** The value of the last entry of [values] under [k] that [is_valid]
    accepts. *)
Definition last_valid (values : list (string * pyval)) (k : string)
  : option pyval :=
  snd <$> find (fun kv => String.eqb (fst kv) k && is_valid (fst kv) (snd kv))
               (rev values).

End AddConfig.

End ConfigRecord.

(** * Part III: properties of the batch constructor *)

Module TranslationDatasetFacts.
Import TranslationDataset.

Lemma fold_max_start (m0 a : nat) (l : list nat) :
  fold_right Nat.max (Nat.max m0 a) l = Nat.max a (fold_right Nat.max m0 l).
Proof. induction l as [|b l IH]; simpl; lia. Qed.

Lemma max_len_snoc (seqs : list (list Z)) (s : list Z) :
  max_len (seqs ++ [s]) = Nat.max (max_len seqs) (List.length s).
Proof.
  unfold max_len. induction seqs as [|t seqs IH]; simpl; [lia|].
  rewrite IH. lia.
Qed.

Lemma pad_sequence_shape (seqs : list (list Z)) (pad : Z) (t : tensor2) :
  pad_sequence seqs pad = Ok t ->
  seqs <> [] /\ shape0 t = max_len seqs /\ shape1 t = List.length seqs.
Proof.
  destruct seqs as [|s seqs]; simpl; [discriminate|].
  intros [= <-]. simpl. split; [discriminate|split; reflexivity].
Qed.

Lemma pad_sequence_nonempty (seqs : list (list Z)) (pad : Z) :
  seqs <> [] -> exists t, pad_sequence seqs pad = Ok t.
Proof. destruct seqs; [congruence|]. intros _. eexists. reflexivity. Qed.

Section Loop.

Variable src_encode : string -> list Z.
Variable trg_encode : string -> list Z.
Variable n : nat.
Variable max_tokens : option Z.

Local Abbreviation loop := (collate_loop src_encode trg_encode n max_tokens).

(** The loop accepts a prefix of what is left: every sample of the prefix
    passes the test at its index, the next one, if any, fails it and is the
    one the warning is printed for. *)
Lemma loop_prefix (rest : list (string * string)) :
  forall (i : nat) (st : loop_state),
  exists k : nat,
    k <= List.length rest /\
    x_encoded (loop i rest st) =
      x_encoded st ++ map (fun p => src_encode (fst p)) (firstn k rest) /\
    y_encoded (loop i rest st) =
      y_encoded st ++ map (fun p => trg_encode (snd p)) (firstn k rest) /\
    (forall j, j < k ->
       within_budget max_tokens (i + j)
         (running_max (x_max_len st) (src_lens src_encode rest) j)
         (running_max (y_max_len st) (trg_lens trg_encode rest) j) = true) /\
    (k < List.length rest ->
       within_budget max_tokens (i + k)
         (running_max (x_max_len st) (src_lens src_encode rest) k)
         (running_max (y_max_len st) (trg_lens trg_encode rest) k) = false /\
       printed (loop i rest st) =
         printed st ++
           [Dropping (1 - inject_Z (Z.of_nat (i + k + 1)) / inject_Z (Z.of_nat n))
                     max_tokens]) /\
    (k = List.length rest -> printed (loop i rest st) = printed st).
Proof.
  induction rest as [|[x y] rest IH]; intros i st.
  - exists 0. simpl. rewrite !app_nil_r. repeat split; try lia; auto.
  - simpl.
    destruct (within_budget max_tokens i
                (Nat.max (x_max_len st) (List.length (src_encode x)))
                (Nat.max (y_max_len st) (List.length (trg_encode y)))) eqn:Hb.
    + destruct (IH (S i)
                  (LoopState (x_encoded st ++ [src_encode x])
                     (y_encoded st ++ [trg_encode y])
                     (Nat.max (x_max_len st) (List.length (src_encode x)))
                     (Nat.max (y_max_len st) (List.length (trg_encode y)))
                     (printed st)))
        as (k & Hk & Hx & Hy & Hacc & Hrej & Hall).
      simpl in *.
      exists (S k). split; [lia|].
      split; [rewrite Hx, <- app_assoc; reflexivity|].
      split; [rewrite Hy, <- app_assoc; reflexivity|].
      split; [|split].
      * intros [|j] Hj.
        -- unfold running_max. simpl. rewrite Nat.add_0_r.
           replace (Nat.max (List.length (src_encode x)) (x_max_len st))
             with (Nat.max (x_max_len st) (List.length (src_encode x))) by lia.
           replace (Nat.max (List.length (trg_encode y)) (y_max_len st))
             with (Nat.max (y_max_len st) (List.length (trg_encode y))) by lia.
           exact Hb.
        -- specialize (Hacc j ltac:(lia)).
           unfold running_max in *. simpl in *.
           rewrite !fold_max_start in Hacc.
           replace (i + S j) with (S (i + j)) by lia. exact Hacc.
      * intros Hlt. destruct (Hrej ltac:(lia)) as [Hf Hp].
        unfold running_max in *. simpl in *.
        rewrite !fold_max_start in Hf.
        replace (i + S k) with (S (i + k)) by lia.
        split; [exact Hf|].
        rewrite Hp. replace (S (i + k + 1)) with (S (i + k) + 1) by lia.
        replace (S (i + k) + 1) with (S (i + k + 1)) by lia. reflexivity.
      * intros Heq. apply Hall. lia.
    + exists 0. simpl. rewrite !app_nil_r.
      split; [lia|]. split; [reflexivity|]. split; [reflexivity|].
      split; [intros j Hj; lia|]. split; [|intros Hz; lia].
      intros _. unfold running_max. simpl. rewrite !Nat.add_0_r.
      replace (Nat.max (List.length (src_encode x)) (x_max_len st))
        with (Nat.max (x_max_len st) (List.length (src_encode x))) by lia.
      replace (Nat.max (List.length (trg_encode y)) (y_max_len st))
        with (Nat.max (y_max_len st) (List.length (trg_encode y))) by lia.
      split; [exact Hb|reflexivity].
Qed.

Lemma loop_budget (rest : list (string * string)) :
  forall (i : nat) (st : loop_state),
    List.length (x_encoded st) = i ->
    List.length (y_encoded st) = i ->
    x_max_len st = max_len (x_encoded st) ->
    y_max_len st = max_len (y_encoded st) ->
    budget_ok max_tokens st ->
    List.length (x_encoded (loop i rest st)) =
      List.length (y_encoded (loop i rest st)) /\
    budget_ok max_tokens (loop i rest st).
Proof.
  induction rest as [|[x y] rest IH]; intros i st Hlx Hly Hmx Hmy Hok.
  - simpl. split; [congruence|exact Hok].
  - simpl.
    destruct (within_budget max_tokens i
                (Nat.max (x_max_len st) (List.length (src_encode x)))
                (Nat.max (y_max_len st) (List.length (trg_encode y)))) eqn:Hb.
    + apply IH; simpl.
      * rewrite length_app. simpl. lia.
      * rewrite length_app. simpl. lia.
      * rewrite max_len_snoc. congruence.
      * rewrite max_len_snoc. congruence.
      * intros B HB _. simpl.
        rewrite !max_len_snoc, length_app. simpl.
        unfold within_budget in Hb. rewrite HB in Hb.
        apply Z.leb_le in Hb.
        rewrite <- Hmx, <- Hmy, Hlx. exact Hb.
    + simpl. split; [congruence|exact Hok].
Qed.

End Loop.

Section CollateFacts.

Variable src_encode : string -> list Z.
Variable trg_encode : string -> list Z.
Variable src_pad_id : Z.
Variable trg_pad_id : Z.

Local Abbreviation run := (run_loop src_encode trg_encode).
Local Abbreviation collate := (collate_fn src_encode trg_encode src_pad_id trg_pad_id).
Local Abbreviation count := (accepted_count src_encode trg_encode).

Lemma run_loop_lengths (batch : list (string * string)) (mt : option Z) :
  List.length (x_encoded (run batch mt)) = List.length (y_encoded (run batch mt)) /\
  budget_ok mt (run batch mt).
Proof.
  unfold run_loop. apply loop_budget; try reflexivity.
  intros B _ Hne. simpl in Hne. congruence.
Qed.

(** [collate_fn] in closed form: its two assertions never fail. *)
Lemma collate_fn_closed_form (batch : list (string * string)) (mt : option Z) :
  let st := run batch mt in
  collate batch mt =
    (printed st,
     match pad_sequence (x_encoded st) src_pad_id with
     | Raise e => Raise e
     | Ok xp =>
         match pad_sequence (y_encoded st) trg_pad_id with
         | Raise e => Raise e
         | Ok yp => Ok (transpose xp, transpose yp)
         end
     end).
Proof.
  intros st. unfold collate_fn. fold st. f_equal.
  destruct (run_loop_lengths batch mt) as [Hlen Hok]. fold st in Hlen, Hok.
  destruct (pad_sequence (x_encoded st) src_pad_id) as [xp|e] eqn:Hxp;
    [|reflexivity].
  destruct (pad_sequence (y_encoded st) trg_pad_id) as [yp|e] eqn:Hyp;
    [|reflexivity].
  apply pad_sequence_shape in Hxp as (Hne & Hx0 & Hx1).
  apply pad_sequence_shape in Hyp as (_ & Hy0 & Hy1).
  unfold transpose, numel. cbn [shape0 shape1].
  rewrite Hx1, Hy1, Hx0, Hy0, <- Hlen, Nat.eqb_refl. cbn [andb negb].
  destruct mt as [b|]; [|reflexivity].
  specialize (Hok b eq_refl Hne).
  rewrite <- Nat.mul_add_distr_l.
  apply Z.leb_le in Hok. rewrite Hok. reflexivity.
Qed.

(** It raises exactly when nothing was accepted. *)
Lemma collate_fn_ok_iff (batch : list (string * string)) (mt : option Z) :
  is_ok (snd (collate batch mt)) = true <-> 1 <= count batch mt.
Proof.
  rewrite collate_fn_closed_form. cbn [snd]. unfold accepted_count.
  destruct (run_loop_lengths batch mt) as [Hlen _].
  destruct (x_encoded (run batch mt)) as [|sx xs] eqn:Hx.
  - simpl. split; [discriminate|lia].
  - destruct (y_encoded (run batch mt)) as [|sy ys]; [discriminate|].
    simpl. split; [lia|reflexivity].
Qed.

Lemma collate_fn_shapes (batch : list (string * string)) (mt : option Z)
    (xp yp : tensor2) :
  snd (collate batch mt) = Ok (xp, yp) ->
  shape0 xp = count batch mt /\ shape0 yp = count batch mt /\
  shape1 xp = max_len (x_encoded (run batch mt)) /\
  shape1 yp = max_len (y_encoded (run batch mt)) /\
  forall B, mt = Some B -> (Z.of_nat (numel xp + numel yp) <= B)%Z.
Proof.
  rewrite collate_fn_closed_form. cbn [snd]. unfold accepted_count.
  destruct (run_loop_lengths batch mt) as [Hlen Hok].
  destruct (pad_sequence (x_encoded (run batch mt)) src_pad_id) as [xq|e] eqn:Hxp;
    [|discriminate].
  destruct (pad_sequence (y_encoded (run batch mt)) trg_pad_id) as [yq|e] eqn:Hyp;
    [|discriminate].
  intros [= <- <-].
  apply pad_sequence_shape in Hxp as (Hne & Hx0 & Hx1).
  apply pad_sequence_shape in Hyp as (_ & Hy0 & Hy1).
  unfold transpose, numel. cbn [shape0 shape1].
  rewrite Hx1, Hy1, Hx0, Hy0, <- Hlen. repeat split.
  intros B HB. rewrite <- Nat.mul_add_distr_l. exact (Hok B HB Hne).
Qed.

Lemma run_loop_prefix (batch : list (string * string)) (mt : option Z) :
  let k := count batch mt in
  k <= List.length batch /\
  x_encoded (run batch mt) = map (fun p => src_encode (fst p)) (firstn k batch) /\
  y_encoded (run batch mt) = map (fun p => trg_encode (snd p)) (firstn k batch) /\
  (forall i, i < k -> accepts src_encode trg_encode batch mt i = true) /\
  (k < List.length batch ->
     accepts src_encode trg_encode batch mt k = false /\
     printed (run batch mt) =
       [Dropping (1 - inject_Z (Z.of_nat (k + 1)) /
                      inject_Z (Z.of_nat (List.length batch))) mt]) /\
  (k = List.length batch -> printed (run batch mt) = []).
Proof.
  unfold accepted_count, run_loop.
  destruct (loop_prefix src_encode trg_encode (List.length batch) mt batch 0 init_state)
    as (k & Hk & Hx & Hy & Hacc & Hrej & Hall).
  simpl in Hx, Hy, Hacc, Hrej, Hall.
  assert (Hcount : List.length
            (x_encoded (collate_loop src_encode trg_encode (List.length batch)
                          mt 0 batch init_state)) = k).
  { rewrite Hx, length_map, length_firstn. lia. }
  cbv zeta. rewrite Hcount.
  split; [exact Hk|]. split; [exact Hx|]. split; [exact Hy|].
  split; [exact Hacc|]. split; [exact Hrej|exact Hall].
Qed.

(** C5.  The batch constructor accepts exactly the samples of a prefix of
    the batch: sample [i] of the prefix passes
    [(i+1)*(running_src_max+running_trg_max) <= B], the loop stops at the
    first sample that fails it, and without a budget every sample is
    accepted.  The two arrays returned have the accepted count as leading
    dimension, their element counts sum to at most [B], and the accepted
    count is at most the length of the batch; an output is returned as soon
    as one sample is accepted. *)
Theorem collate_fn_budget (batch : list (string * string)) (mt : option Z) :
  let k := accepted_count src_encode trg_encode batch mt in
  k <= List.length batch /\
  x_encoded (run_loop src_encode trg_encode batch mt) = map (fun p => src_encode (fst p)) (firstn k batch) /\
  y_encoded (run_loop src_encode trg_encode batch mt) = map (fun p => trg_encode (snd p)) (firstn k batch) /\
  (forall i, i < k -> accepts src_encode trg_encode batch mt i = true) /\
  (k < List.length batch -> accepts src_encode trg_encode batch mt k = false) /\
  (mt = None -> k = List.length batch) /\
  (forall xp yp, snd (collate_fn src_encode trg_encode src_pad_id trg_pad_id batch mt) = Ok (xp, yp) ->
     shape0 xp = k /\ shape0 yp = k /\
     forall B, mt = Some B -> (Z.of_nat (numel xp + numel yp) <= B)%Z) /\
  (1 <= k -> is_ok (snd (collate_fn src_encode trg_encode src_pad_id trg_pad_id batch mt)) = true).
Proof.
  intros k.
  destruct (run_loop_prefix batch mt) as (Hk & Hx & Hy & Hacc & Hrej & _).
  fold k in Hk, Hx, Hy, Hacc, Hrej.
  split; [exact Hk|]. split; [exact Hx|]. split; [exact Hy|].
  split; [exact Hacc|]. split; [intros Hlt; apply Hrej, Hlt|].
  split.
  - intros ->.
    destruct (Nat.eq_dec k (List.length batch)) as [Heq|Hne]; [exact Heq|].
    destruct (Hrej ltac:(lia)) as [Hf _]. unfold accepts in Hf.
    simpl in Hf. discriminate.
  - split.
    + intros xp yp Hr.
      destruct (collate_fn_shapes batch mt xp yp Hr) as (H0 & H1 & _ & _ & HB).
      auto.
    + intros Hk1. apply collate_fn_ok_iff. exact Hk1.
Qed.

(** C9.  When the first sample of a batch already exceeds the budget,
    nothing is accepted, [pad_sequence] is reached with no sequence and
    [collate_fn] raises instead of returning an empty pair of arrays; a
    call that returns has accepted at least one sample. *)
Theorem collate_fn_first_sample_over_budget
    (x y : string) (rest : list (string * string)) (B : Z) :
  (B < Z.of_nat (1 * (List.length (src_encode x) + List.length (trg_encode y))))%Z ->
  accepted_count src_encode trg_encode ((x, y) :: rest) (Some B) = 0 /\
  pad_sequence (x_encoded (run_loop src_encode trg_encode ((x, y) :: rest) (Some B))) src_pad_id
    = Raise RuntimeError /\
  snd (collate_fn src_encode trg_encode src_pad_id trg_pad_id ((x, y) :: rest) (Some B)) = Raise RuntimeError /\
  (forall batch mt, is_ok (snd (collate_fn src_encode trg_encode src_pad_id trg_pad_id batch mt)) = true -> 1 <= accepted_count src_encode trg_encode batch mt).
Proof.
  intros Hover.
  assert (Hrun : x_encoded (run_loop src_encode trg_encode ((x, y) :: rest) (Some B)) = []).
  { unfold run_loop. simpl.
    destruct (Z.of_nat (List.length (src_encode x) +
                        List.length (trg_encode y) + 0) <=? B)%Z eqn:Hle;
      [|reflexivity].
    apply Z.leb_le in Hle. lia. }
  split; [unfold accepted_count; rewrite Hrun; reflexivity|].
  split; [rewrite Hrun; reflexivity|].
  split.
  - rewrite collate_fn_closed_form. cbn [snd]. rewrite Hrun. reflexivity.
  - intros batch mt. apply collate_fn_ok_iff.
Qed.

(** C6.  When the budget makes the batch constructor drop samples, the
    ratio it prints is [1 - (accepted+1)/n]: the rejected sample is
    counted as kept, so the ratio differs from the dropped fraction
    [1 - accepted/n] by [1/n]. *)
Theorem collate_fn_drop_ratio (batch : list (string * string)) (mt : option Z) :
  accepted_count src_encode trg_encode batch mt < List.length batch ->
  exists r : Q,
    fst (collate_fn src_encode trg_encode src_pad_id trg_pad_id batch mt) = [Dropping r mt] /\
    (r == 1 - inject_Z (Z.of_nat (accepted_count src_encode trg_encode batch mt + 1)) /
              inject_Z (Z.of_nat (List.length batch)))%Q /\
    ~ (r == 1 - inject_Z (Z.of_nat (accepted_count src_encode trg_encode batch mt)) /
                inject_Z (Z.of_nat (List.length batch)))%Q.
Proof.
  intros Hlt.
  destruct (run_loop_prefix batch mt) as (_ & _ & _ & _ & Hrej & _).
  destruct (Hrej Hlt) as [_ Hp].
  eexists. split; [unfold collate_fn; cbn [fst]; exact Hp|].
  split; [reflexivity|].
  set (k := accepted_count src_encode trg_encode batch mt) in *.
  destruct (List.length batch) as [|n]; [lia|].
  unfold Qeq, Qminus, Qplus, Qopp, Qdiv, Qmult, Qinv, inject_Z.
  cbn [Qnum Qden]. rewrite Nat2Z.inj_succ.
  destruct (Z.succ (Z.of_nat n)) as [|q|q] eqn:Hq; try lia.
  cbn [Qnum Qden]. rewrite !Nat2Z.inj_add. simpl Z.of_nat.
  rewrite !Pos2Z.inj_mul. nia.
Qed.

End CollateFacts.

(** C5 at the three pairs with budget 14: two samples are accepted
    (2*(3+2) = 10 <= 14 and 3*(4+4) = 24 > 14) and the arrays hold
    2*3 + 2*2 = 10 cells. *)
Lemma collate_fn_budget_witness :
  accepted_count Scenario.char_encode Scenario.char_encode
    Scenario.three_pairs (Some 14%Z) = 2 /\
  accepts Scenario.char_encode Scenario.char_encode
    Scenario.three_pairs (Some 14%Z) 2 = false.
Proof.
  split; [reflexivity|].
  apply (collate_fn_budget Scenario.char_encode Scenario.char_encode 0%Z 0%Z
           Scenario.three_pairs (Some 14%Z)).
  vm_compute. lia.
Defined.

Lemma collate_fn_first_sample_over_budget_witness :
  (3 < Z.of_nat (1 * (List.length (Scenario.char_encode "ab") +
                      List.length (Scenario.char_encode "cd"))))%Z /\
  snd (collate_fn Scenario.char_encode Scenario.char_encode 0%Z 0%Z
         Scenario.three_pairs (Some 3%Z)) = Raise RuntimeError.
Proof.
  assert (Hover : (3 < Z.of_nat (1 * (List.length (Scenario.char_encode "ab") +
                                     List.length (Scenario.char_encode "cd"))))%Z)
    by (vm_compute; reflexivity).
  split; [exact Hover|].
  apply (collate_fn_first_sample_over_budget
           Scenario.char_encode Scenario.char_encode 0%Z 0%Z
           "ab" "cd" [("abc", "d"); ("abcd", "efgh")] 3%Z Hover).
Defined.

(** C6 at the three pairs with budget 14: two of three are accepted, one
    third of the batch is dropped, and the ratio printed is 0. *)
Lemma collate_fn_drop_ratio_witness :
  accepted_count Scenario.char_encode Scenario.char_encode
    Scenario.three_pairs (Some 14%Z) < List.length Scenario.three_pairs /\
  exists r : Q,
    fst (collate_fn Scenario.char_encode Scenario.char_encode 0%Z 0%Z
           Scenario.three_pairs (Some 14%Z)) = [Dropping r (Some 14%Z)] /\
    (r == 1 - inject_Z (Z.of_nat (accepted_count Scenario.char_encode
                                    Scenario.char_encode Scenario.three_pairs
                                    (Some 14%Z) + 1)) /
              inject_Z (Z.of_nat (List.length Scenario.three_pairs)))%Q /\
    ~ (r == 1 - inject_Z (Z.of_nat (accepted_count Scenario.char_encode
                                      Scenario.char_encode Scenario.three_pairs
                                      (Some 14%Z))) /
                inject_Z (Z.of_nat (List.length Scenario.three_pairs)))%Q.
Proof.
  assert (Hlt : accepted_count Scenario.char_encode Scenario.char_encode
                  Scenario.three_pairs (Some 14%Z)
                < List.length Scenario.three_pairs) by (vm_compute; lia).
  split; [exact Hlt|].
  apply (collate_fn_drop_ratio Scenario.char_encode Scenario.char_encode 0%Z 0%Z
           Scenario.three_pairs (Some 14%Z) Hlt).
Defined.

(** The scenario of the specification, evaluated: three pairs, budget 14,
    two accepted; the ratio printed is [1 - 3/3 = 0], not [1 - 2/3]. *)
Example collate_fn_three_pairs_prints_zero :
  exists r : Q,
    fst (collate_fn Scenario.char_encode Scenario.char_encode 0%Z 0%Z
           Scenario.three_pairs (Some 14%Z)) = [Dropping r (Some 14%Z)] /\
    (r == 0)%Q /\ ~ (r == 1 - 2 / 3)%Q.
Proof.
  eexists. split; [reflexivity|]. split; [reflexivity|].
  intros Hc. vm_compute in Hc. discriminate.
Qed.

End TranslationDatasetFacts.

(** * Part IV: properties of the stage controller *)

Module BaseTranslatorFacts.
Import BaseTranslator.

(** ** The monad *)

Lemma bind_ok {A B} (m : M A) (f : A -> M B) (w w' : world) (a : A) :
  m w = (w', Ok a) -> (m ≫= f) w = f a w'.
Proof. intros Hm. unfold mbind, M_bind. rewrite Hm. reflexivity. Qed.

Lemma bind_raise {A B} (m : M A) (f : A -> M B) (w w' : world) (e : exn) :
  m w = (w', Raise e) -> (m ≫= f) w = (w', Raise e).
Proof. intros Hm. unfold mbind, M_bind. rewrite Hm. reflexivity. Qed.

Lemma bind_inv_ok {A B} (m : M A) (f : A -> M B) (w w' : world) (b : B) :
  (m ≫= f) w = (w', Ok b) ->
  exists w1 a, m w = (w1, Ok a) /\ f a w1 = (w', Ok b).
Proof.
  unfold mbind, M_bind. destruct (m w) as [w1 [a|e]]; [eauto|discriminate].
Qed.

Lemma bind_inv {A B} (m : M A) (f : A -> M B) (w w' : world) (r : outcome B) :
  (m ≫= f) w = (w', r) ->
  (exists w1 a, m w = (w1, Ok a) /\ f a w1 = (w', r)) \/
  (exists e, m w = (w', Raise e) /\ r = Raise e).
Proof.
  unfold mbind, M_bind. destruct (m w) as [w1 [a|e]].
  - left. eauto.
  - intros [= <- <-]. right. eauto.
Qed.

(** ** C7 and C10: the metric check and the tool routing *)

Lemma tool_metrics_supported (tool : string) :
  tool_metrics tool ⊆ dom METRICS2TOOL.
Proof.
  unfold tool_metrics.
  assert (Hall : map_Forall (fun _ s => s ⊆ dom METRICS2TOOL) TOOL2METRICS).
  { apply (bool_decide_unpack _). vm_compute. exact I. }
  destruct (TOOL2METRICS !! tool) as [s|] eqn:Hs; simpl.
  - exact (Hall _ _ Hs).
  - set_solver.
Qed.

Lemma elem_of_metrics_valid (metrics supported : gset string) (m : string) :
  m ∈ metrics_valid_of metrics supported <->
  m ∈ metrics /\ (m ∈ supported \/ is_hg m).
Proof.
  unfold metrics_valid_of. rewrite elem_of_union, elem_of_intersection,
    elem_of_filter. tauto.
Qed.

Lemma filter_hg_valid (metrics supported : gset string) :
  filter is_hg (metrics_valid_of metrics supported) = filter is_hg metrics.
Proof.
  apply set_eq. intros m.
  rewrite !elem_of_filter, elem_of_metrics_valid. tauto.
Qed.

Lemma check_supported_metrics_run (metrics supported : gset string) (w : world) :
  _check_supported_metrics metrics supported w =
    (World (wfs w) (trace w ++ check_prints metrics supported),
     Ok (metrics_valid_of metrics supported)).
Proof.
  unfold _check_supported_metrics, check_prints. cbv zeta.
  destruct (bool_decide (metrics ∖ metrics_valid_of metrics supported ≠ ∅)).
  - destruct (bool_decide
                (metrics = metrics ∖ metrics_valid_of metrics supported)).
    + unfold mbind, M_bind, emit, mret, M_ret. simpl.
      rewrite <- app_assoc. reflexivity.
    + unfold mbind, M_bind, emit, mret, M_ret. simpl. reflexivity.
  - unfold mbind, M_bind, mret, M_ret. simpl. rewrite app_nil_r.
    destruct w; reflexivity.
Qed.

Lemma elem_of_get_metrics_tool (metrics : gset string) (t : string) :
  t ∈ _get_metrics_tool metrics <->
  exists m, m ∈ metrics /\ metric_tool m = Some t.
Proof.
  unfold _get_metrics_tool.
  apply (set_fold_ind_L
           (fun tools X => t ∈ tools <-> exists m, m ∈ X /\ metric_tool m = Some t)).
  - split; [set_solver|]. intros (m & Hm & _). set_solver.
  - intros x X tools Hx IH.
    destruct (metric_tool x) as [tx|] eqn:Htx.
    + rewrite elem_of_union, elem_of_singleton, IH. split.
      * intros [->|(m & Hm & Hmt)].
        -- exists x. split; [apply elem_of_union_l, elem_of_singleton|];
             congruence.
        -- exists m. split; [apply elem_of_union_r|]; assumption.
      * intros (m & Hm & Hmt). apply elem_of_union in Hm as [Hm|Hm].
        -- apply elem_of_singleton in Hm. subst m. left. congruence.
        -- right. eauto.
    + rewrite IH. split.
      * intros (m & Hm & Hmt). exists m.
        split; [apply elem_of_union_r|]; assumption.
      * intros (m & Hm & Hmt). apply elem_of_union in Hm as [Hm|Hm].
        -- apply elem_of_singleton in Hm. subst m. congruence.
        -- eauto.
Qed.


Lemma tool_requested_valid (tool : string) (metrics : gset string) :
  tool_requested tool (metrics_valid_of metrics (dom METRICS2TOOL)) =
  tool_requested tool metrics.
Proof.
  unfold tool_requested.
  replace (tool_metrics tool ∩ metrics_valid_of metrics (dom METRICS2TOOL))
    with (tool_metrics tool ∩ metrics); [reflexivity|].
  pose proof (tool_metrics_supported tool) as Hsub.
  apply set_eq. intros m.
  rewrite !elem_of_intersection, elem_of_metrics_valid.
  split; [|tauto]. intros [Ht Hm]. split; [exact Ht|]. split; [exact Hm|].
  left. apply Hsub, Ht.
Qed.

Lemma hg_metrics_valid (metrics supported : gset string) :
  hg_metrics_of (metrics_valid_of metrics supported) = hg_metrics_of metrics.
Proof. unfold hg_metrics_of. rewrite filter_hg_valid. reflexivity. Qed.

Lemma elem_of_hg_metrics (metrics : gset string) (r : string) :
  r ∈ hg_metrics_of metrics <->
  exists x, x ∈ metrics /\ startswith x "hg_" = true /\ r = slice_from 3 x.
Proof.
  unfold hg_metrics_of. rewrite elem_of_map. split.
  - intros (x & -> & Hx). apply elem_of_filter in Hx as [Hhg Hx]. eauto.
  - intros (x & Hx & Hhg & ->). exists x. split; [reflexivity|].
    apply elem_of_filter. split; assumption.
Qed.

Lemma prefix_cons (a b : ascii) (p s : string) :
  String.prefix (String a p) (String b s) =
  if ascii_dec a b then String.prefix p s else false.
Proof. reflexivity. Qed.

Lemma prefix_cons_inv (a b : ascii) (p s : string) :
  String.prefix (String a p) (String b s) = true ->
  a = b /\ String.prefix p s = true.
Proof.
  rewrite prefix_cons. destruct (ascii_dec a b); [auto|discriminate].
Qed.

Lemma startswith_hg_split (m : string) :
  startswith m "hg_" = true -> m = ("hg_" ++ slice_from 3 m)%string.
Proof.
  unfold startswith. intros Hp.
  destruct m as [|a m]; [discriminate Hp|].
  apply prefix_cons_inv in Hp as [<- Hp].
  destruct m as [|b m]; [discriminate Hp|].
  apply prefix_cons_inv in Hp as [<- Hp].
  destruct m as [|c m]; [discriminate Hp|].
  apply prefix_cons_inv in Hp as [<- Hp].
  reflexivity.
Qed.

(** ** Traces and the blocks of [score] *)

Lemma compute_step_run (requested : bool) (out : string) (fo : bool)
    (ev : event) (h : effect) (w : world) :
  compute_step requested out fo ev h w =
    if requested && (fo || negb (path_exists out (wfs w)))
    then call ev h w else (w, Ok tt).
Proof.
  unfold compute_step. destruct requested; [|reflexivity].
  unfold mbind, M_bind, gets. simpl.
  destruct (fo || negb (path_exists out (wfs w))); reflexivity.
Qed.

Lemma compute_step_trace (requested : bool) (out : string) (fo : bool)
    (ev : event) (h : effect) (w w' : world) (r : outcome unit) :
  compute_step requested out fo ev h w = (w', r) ->
  exists evs, trace w' = trace w ++ evs.
Proof.
  rewrite compute_step_run.
  destruct (requested && (fo || negb (path_exists out (wfs w)))).
  - unfold call. destruct (h (wfs w)) as [s' r']. intros [= <- _].
    exists [ev]. reflexivity.
  - intros [= <- _]. exists []. rewrite app_nil_r. reflexivity.
Qed.

Section ControllerFacts.

Variable self : translator.
Variable H : hooks.
Variable L : layout.
Variable model_ds : dataset.
Variable eval_ds : dataset.

Local Abbreviation score_unit' := (score_unit H L model_ds).
Local Abbreviation score_tools' := (score_tools H L model_ds).
Local Abbreviation present' := (unit_texts_present L).
Local Abbreviation score_units' := (score_units self H L model_ds).
Local Abbreviation score' := (score self H L model_ds eval_ds).

Variable value : Type.
Variable m_parser : string -> list string -> outcome (parsed value).

Local Abbreviation parse_metrics' :=
  (parse_metrics self L model_ds eval_ds value m_parser).
Local Abbreviation parse_units' := (parse_units self L value m_parser).

Lemma checks_pass {A} (k : M A) (w : world) :
  compatible model_ds eval_ds ->
  (_check_datasets model_ds eval_ds ;; assert_same_pair model_ds eval_ds ;; k) w
  = k w.
Proof.
  intros (Hs & Ht & Hp).
  unfold _check_datasets, assert_same_pair. rewrite Hs, Ht, Hp, !String.eqb_refl.
  reflexivity.
Qed.

Lemma score_run (beams : list Z) (metrics : gset string) (fo : bool) (w : world) :
  compatible model_ds eval_ds ->
  let valid := metrics_valid_of metrics (dom METRICS2TOOL) in
  let w0 := World (wfs w) (trace w ++ check_prints metrics (dom METRICS2TOOL)) in
  score' beams metrics fo w =
    if bool_decide (valid = ∅) then (w0, Ok tt)
    else score_units' beams metrics fo w0.
Proof.
  intros Hc valid w0. unfold score. rewrite (checks_pass _ _ Hc).
  erewrite bind_ok; [|apply check_supported_metrics_run].
  fold valid w0. destruct (bool_decide (valid = ∅)); reflexivity.
Qed.

Lemma parse_metrics_run (beams : list Z) (metrics : gset string)
    (kw : option string) (w : world) :
  compatible model_ds eval_ds ->
  let valid := metrics_valid_of metrics (dom METRICS2TOOL) in
  let w0 := World (wfs w) (trace w ++ check_prints metrics (dom METRICS2TOOL)) in
  parse_metrics' beams metrics kw w =
    if bool_decide (valid = ∅) then (w0, Ok None)
    else (tr ← parse_units' (_get_metrics_tool metrics) beams;
          mret (Some (score_record self L model_ds eval_ds value kw tr))) w0.
Proof.
  intros Hc valid w0. unfold parse_metrics. rewrite (checks_pass _ _ Hc).
  erewrite bind_ok; [|apply check_supported_metrics_run].
  fold valid w0. destruct (bool_decide (valid = ∅)); reflexivity.
Qed.


Lemma score_unit_missing (metrics : gset string) (fo : bool)
    (fn_name : string) (beam : Z) (w : world) :
  present' fn_name beam (wfs w) = false ->
  score_unit' metrics fo fn_name beam w = (w, Raise IOError).
Proof.
  intros Hp. unfold score_unit, make_dir, mbind, M_bind, mret, M_ret, gets.
  rewrite Hp. reflexivity.
Qed.

Lemma score_unit_present (metrics : gset string) (fo : bool)
    (fn_name : string) (beam : Z) (w : world) :
  present' fn_name beam (wfs w) = true ->
  score_unit' metrics fo fn_name beam w = score_tools' metrics fo fn_name beam w.
Proof.
  intros Hp. unfold score_unit, make_dir.
  unfold mbind at 1, M_bind at 1, mret at 1, M_ret at 1.
  unfold mbind at 1, M_bind at 1, gets at 1.
  rewrite Hp. reflexivity.
Qed.

Lemma score_unit_ok_inv (metrics : gset string) (fo : bool)
    (fn_name : string) (beam : Z) (w w' : world) :
  score_unit' metrics fo fn_name beam w = (w', Ok tt) ->
  present' fn_name beam (wfs w) = true /\
  score_tools' metrics fo fn_name beam w = (w', Ok tt).
Proof.
  intros Hr. destruct (present' fn_name beam (wfs w)) eqn:Hp.
  - rewrite (score_unit_present _ _ _ _ _ Hp) in Hr. auto.
  - rewrite (score_unit_missing _ _ _ _ _ Hp) in Hr. discriminate.
Qed.

(** The huggingface block is the last of the five: when the unit is scored
    without an exception, either its sub-routine was the last call made, or
    overwrite is off and its score file is there. *)
Lemma score_tools_huggingface (metrics : gset string) (fo : bool)
    (fn_name : string) (beam : Z) (w w' : world) :
  hg_metrics_of metrics ≠ ∅ ->
  score_tools' metrics fo fn_name beam w = (w', Ok tt) ->
  let bp := beam_path L fn_name beam in
  let out := path_join (scores_path L fn_name beam) "huggingface_scores.json" in
  (exists evs,
     trace w' = trace w ++ evs ++
       [Call_compute_huggingface (path_join bp "src.txt") (path_join bp "hyp.txt")
          (path_join bp "ref.txt") out (hg_metrics_of metrics) (trg_lang model_ds)])
  \/ (fo = false /\ path_exists out (wfs w') = true).
Proof.
  intros Hne Hr bp out. unfold score_tools in Hr. cbv zeta in Hr.
  apply bind_inv_ok in Hr as (w1 & [] & H1 & Hr).
  apply bind_inv_ok in Hr as (w2 & [] & H2 & Hr).
  apply bind_inv_ok in Hr as (w3 & [] & H3 & Hr).
  apply bind_inv_ok in Hr as (w4 & [] & H4 & Hr).
  apply compute_step_trace in H1 as [e1 H1].
  apply compute_step_trace in H2 as [e2 H2].
  apply compute_step_trace in H3 as [e3 H3].
  apply compute_step_trace in H4 as [e4 H4].
  rewrite compute_step_run in Hr.
  rewrite bool_decide_eq_true_2 in Hr by exact Hne. cbn [andb] in Hr.
  fold bp out in Hr.
  destruct fo; cbn [orb] in Hr.
  - left. unfold call in Hr.
    destruct (compute_huggingface H _ _ _ _ _ _ (wfs w4)) as [s' r'].
    injection Hr as <- _. cbn [trace].
    exists (e1 ++ e2 ++ e3 ++ e4).
    rewrite H4, H3, H2, H1, <- !app_assoc. reflexivity.
  - destruct (path_exists out (wfs w4)) eqn:Hex; cbn [negb] in Hr.
    + right. injection Hr as <-. auto.
    + left. unfold call in Hr.
      destruct (compute_huggingface H _ _ _ _ _ _ (wfs w4)) as [s' r'].
      injection Hr as <- _. cbn [trace].
      exists (e1 ++ e2 ++ e3 ++ e4).
      rewrite H4, H3, H2, H1, <- !app_assoc. reflexivity.
Qed.

(** C10.  A metric name that starts with "hg_" passes the metric check
    whatever the table of supported metrics is, is routed to the tool
    "huggingface", and makes [score] run the huggingface block of every
    unit it scores with the names stripped of the prefix: the sub-routine
    is called with [{x[3:]}], unless overwrite is off and its score file
    already exists. *)
Theorem hg_metrics_routed (metrics supported : gset string) (m : string) :
  m ∈ metrics ->
  startswith m "hg_" = true ->
  m ∈ metrics_valid_of metrics supported /\
  (forall w, exists w',
     _check_supported_metrics metrics supported w =
       (w', Ok (metrics_valid_of metrics supported))) /\
  metric_tool m = Some "huggingface" /\
  "huggingface" ∈ _get_metrics_tool metrics /\
  m = ("hg_" ++ slice_from 3 m)%string /\
  slice_from 3 m ∈ hg_metrics_of metrics /\
  (forall r, r ∈ hg_metrics_of metrics <->
     exists x, x ∈ metrics /\ startswith x "hg_" = true /\ r = slice_from 3 x) /\
  (forall fo fn_name beam w w',
     score_unit H L model_ds metrics fo fn_name beam w = (w', Ok tt) ->
     let bp := beam_path L fn_name beam in
     let out := path_join (scores_path L fn_name beam) "huggingface_scores.json" in
     (exists evs,
        trace w' = trace w ++ evs ++
          [Call_compute_huggingface (path_join bp "src.txt")
             (path_join bp "hyp.txt") (path_join bp "ref.txt") out
             (hg_metrics_of metrics) (trg_lang model_ds)])
     \/ (fo = false /\ path_exists out (wfs w') = true)).
Proof.
  intros Hm Hhg.
  assert (Hin : slice_from 3 m ∈ hg_metrics_of metrics).
  { apply elem_of_hg_metrics. eauto. }
  split; [apply elem_of_metrics_valid; split; [exact Hm|right; exact Hhg]|].
  split; [intros w; eexists; apply check_supported_metrics_run|].
  assert (Hmt : metric_tool m = Some "huggingface").
  { unfold metric_tool. rewrite Hhg. reflexivity. }
  split; [exact Hmt|].
  split; [apply elem_of_get_metrics_tool; eauto|].
  split; [apply startswith_hg_split, Hhg|].
  split; [exact Hin|].
  split; [apply elem_of_hg_metrics|].
  intros fo fn_name beam w w' Hr.
  apply score_unit_ok_inv in Hr as [_ Hr].
  apply score_tools_huggingface; [|exact Hr].
  intros He. rewrite He in Hin. apply not_elem_of_empty in Hin. exact Hin.
Qed.

(** ** C4: a sub-routine that raises *)


Lemma tool_requested_nonempty_valid (tool : string) (metrics : gset string) :
  tool_requested tool metrics = true ->
  metrics_valid_of metrics (dom METRICS2TOOL) ≠ ∅.
Proof.
  rewrite <- tool_requested_valid. unfold tool_requested.
  intros Hr He. apply bool_decide_eq_true_1 in Hr. apply Hr.
  rewrite He. apply set_eq. intros x.
  rewrite elem_of_intersection. split; [intros [_ Hx]; exact Hx|].
  intros Hx. apply not_elem_of_empty in Hx. contradiction.
Qed.




End ControllerFacts.

(** ** C8: flattening the score files *)

Section Strings.



Lemma letter_lower (c : ascii) : is_lower_letter c = true -> lower_ascii c = c.
Proof. destruct c as [[] [] [] [] [] [] [] []]; (reflexivity || discriminate). Qed.

Lemma letter_not_space (c : ascii) : is_lower_letter c = true -> is_space c = false.
Proof. destruct c as [[] [] [] [] [] [] [] []]; (reflexivity || discriminate). Qed.


Lemma lower_app (a b : string) : lower (a ++ b) = (lower a ++ lower b)%string.
Proof. induction a as [|c a IH]; simpl; [|rewrite IH]; reflexivity. Qed.





Lemma lower_letters_lower (t : string) : lower_letters t = true -> lower t = t.
Proof.
  induction t as [|c t IH]; simpl; [reflexivity|].
  intros [Hc Ht]%andb_prop. rewrite (letter_lower _ Hc), (IH Ht). reflexivity.
Qed.

Lemma rstrip_nonspace (c : ascii) (s : string) :
  is_space c = false -> rstrip (String c s) = String c (rstrip s).
Proof. intros Hc. simpl. rewrite Hc. reflexivity. Qed.

Lemma rstrip_name (t r : string) :
  lower_letters t = true ->
  rstrip (t ++ String "_" r) = (t ++ String "_" (rstrip r))%string.
Proof.
  induction t as [|c t IH].
  - intros _. apply rstrip_nonspace. reflexivity.
  - intros [Hc Ht]%andb_prop.
    change (String c t ++ String "_" r)%string
      with (String c (t ++ String "_" r)).
    rewrite (rstrip_nonspace _ _ (letter_not_space _ Hc)), (IH Ht). reflexivity.
Qed.

Lemma lstrip_name (t r : string) :
  lower_letters t = true -> t <> "" -> lstrip (t ++ r) = (t ++ r)%string.
Proof.
  destruct t as [|c t]; [congruence|]. simpl.
  intros [Hc _]%andb_prop _. rewrite (letter_not_space _ Hc). reflexivity.
Qed.

(** The flat key of a tool whose name is made of lower-case letters starts
    with the name and an underscore. *)
Lemma flat_key_shape (t m sc : string) :
  lower_letters t = true -> t <> "" ->
  flat_key t m sc = (t ++ String "_" (rstrip (lower (m ++ "_" ++ sc))))%string.
Proof.
  intros Ht Hne. unfold flat_key, strip.
  change (t ++ "_" ++ m ++ "_" ++ sc)%string
    with (t ++ String "_" (m ++ "_" ++ sc))%string.
  rewrite lower_app. simpl lower at 2.
  rewrite (lower_letters_lower _ Ht).
  change (lower_ascii "_") with "_"%char.
  rewrite (lstrip_name _ _ Ht Hne). apply rstrip_name, Ht.
Qed.

Lemma name_prefix_inj (t1 t2 r1 r2 : string) :
  lower_letters t1 = true -> lower_letters t2 = true ->
  (t1 ++ String "_" r1)%string = (t2 ++ String "_" r2)%string -> t1 = t2.
Proof.
  revert t2. induction t1 as [|c t1 IH]; intros [|d t2]; simpl.
  - reflexivity.
  - intros _ [Hd _]%andb_prop [= <- _]. discriminate Hd.
  - intros [Hc _]%andb_prop _ [= -> _]. discriminate Hc.
  - intros [_ H1]%andb_prop [_ H2]%andb_prop [= -> Heq].
    f_equal. exact (IH _ H1 H2 Heq).
Qed.

Lemma tool_names_plain (t : string) :
  t ∈ dom TOOL_PARSERS -> lower_letters t = true /\ t <> "".
Proof.
  assert (Hall : map_Forall
                   (fun t _ => lower_letters t = true /\ t <> "") TOOL_PARSERS).
  { apply (bool_decide_unpack _). vm_compute. exact I. }
  intros [x Hx]%elem_of_dom. exact (Hall _ _ Hx).
Qed.

(** Keys of different tools never collide. *)
Lemma flat_key_tool_inj (t1 t2 m1 s1 m2 s2 : string) :
  t1 ∈ dom TOOL_PARSERS -> t2 ∈ dom TOOL_PARSERS ->
  flat_key t1 m1 s1 = flat_key t2 m2 s2 -> t1 = t2.
Proof.
  intros [H1 N1]%tool_names_plain [H2 N2]%tool_names_plain.
  rewrite (flat_key_shape _ _ _ H1 N1), (flat_key_shape _ _ _ H2 N2).
  apply name_prefix_inj; assumption.
Qed.


End Strings.

Lemma path_exists_true (p : string) (s : fs) :
  path_exists p s = true <-> exists f, files s !! p = Some f.
Proof.
  unfold path_exists. rewrite bool_decide_eq_true. reflexivity.
Qed.

Lemma path_exists_false (p : string) (s : fs) :
  path_exists p s = false <-> files s !! p = None.
Proof.
  unfold path_exists. rewrite bool_decide_eq_false, eq_None_not_Some.
  reflexivity.
Qed.

Section ParseFacts.

Variable self : translator.
Variable L : layout.
Variable model_ds : dataset.
Variable eval_ds : dataset.
Variable value : Type.
Variable m_parser : string -> list string -> outcome (parsed value).

Implicit Types (d : gmap string value) (l : list (string * value)).

Lemma insert_all_app l1 l2 d :
  insert_all value (l1 ++ l2) d = insert_all value l2 (insert_all value l1 d).
Proof. unfold insert_all. apply fold_left_app. Qed.




Lemma flatten_metric_entries (t m : string) (vals : list (string * value)) d :
  flatten_metric value t m vals d =
  insert_all value (map (fun sv => (flat_key t m (fst sv), snd sv)) vals) d.
Proof.
  unfold flatten_metric, insert_all. revert d.
  induction vals as [|[sc v] vals IH]; intros d; [reflexivity|].
  simpl. apply IH.
Qed.



(** The three ways through the body of the loop over the tools. *)
Lemma parse_tool_missing (sp t stem ext : string) d (w : world) :
  TOOL_PARSERS !! t = Some (stem, ext) ->
  files (wfs w) !! path_join sp (stem ++ "." ++ ext) = None ->
  parse_tool value m_parser sp t d w =
    (World (wfs w) (trace w ++ [Print_no_metrics t]), Ok d).
Proof.
  intros Ht Hf. unfold parse_tool. rewrite Ht.
  unfold mbind at 1, M_bind at 1, gets at 1.
  apply path_exists_false in Hf. rewrite Hf. reflexivity.
Qed.

Lemma parse_tool_present (sp t stem ext : string) d (w : world) (f : file) :
  TOOL_PARSERS !! t = Some (stem, ext) ->
  files (wfs w) !! path_join sp (stem ++ "." ++ ext) = Some f ->
  parse_tool value m_parser sp t d w =
    match m_parser t (lines f) with
    | Raise e =>
        (World (wfs w)
           (trace w ++ [Print_parsing_error (stem ++ "." ++ ext) e]), Ok d)
    | Ok ms =>
        match flatten_scores value t ms d with
        | (d', Ok _) => (w, Ok d')
        | (d', Raise e) =>
            (World (wfs w)
               (trace w ++ [Print_parsing_error (stem ++ "." ++ ext) e]), Ok d')
        end
    end.
Proof.
  intros Ht Hf. unfold parse_tool. rewrite Ht.
  unfold mbind at 1, M_bind at 1, gets at 1.
  assert (Hex : path_exists (path_join sp (stem ++ "." ++ ext)) (wfs w) = true)
    by (apply path_exists_true; eauto).
  rewrite Hex. unfold try_parse, read_lines. rewrite Hf.
  destruct (m_parser t (lines f)) as [ms|e]; [|reflexivity].
  destruct (flatten_scores value t ms d) as [d' [[]|e]]; reflexivity.
Qed.

Lemma reads_only_ret {A} (a : A) : reads_only (mret a).
Proof.
  intros w. exists [], a. rewrite app_nil_r. destruct w; reflexivity.
Qed.

Lemma reads_only_bind {A B} (m : M A) (f : A -> M B) :
  reads_only m -> (forall a, reads_only (f a)) -> reads_only (m ≫= f).
Proof.
  intros Hm Hf w. destruct (Hm w) as (e1 & a & H1).
  destruct (Hf a (World (wfs w) (trace w ++ e1))) as (e2 & b & H2).
  exists (e1 ++ e2), b. rewrite (bind_ok _ _ _ _ _ H1), H2. simpl.
  rewrite app_assoc. reflexivity.
Qed.

Lemma reads_only_for_fold {A B} (l : list A) (body : A -> B -> M B) (b : B) :
  (forall a b', a ∈ l -> reads_only (body a b')) ->
  reads_only (for_fold l body b).
Proof.
  revert b. induction l as [|a l IH]; intros b Hb; simpl.
  - apply reads_only_ret.
  - apply reads_only_bind.
    + apply Hb, list_elem_of_here.
    + intros b'. apply IH. intros a' b'' Ha'. apply Hb.
      apply list_elem_of_further, Ha'.
Qed.

Lemma reads_only_parse_tool (sp t : string) d :
  t ∈ dom TOOL_PARSERS -> reads_only (parse_tool value m_parser sp t d).
Proof.
  intros [[stem ext] Ht]%elem_of_dom w.
  destruct (files (wfs w) !! path_join sp (stem ++ "." ++ ext)) as [f|] eqn:Hf.
  - rewrite (parse_tool_present _ _ _ _ _ _ _ Ht Hf).
    destruct (m_parser t (lines f)) as [ms|e]; [|eauto].
    destruct (flatten_scores value t ms d) as [d' [[]|e]]; [|eauto].
    exists [], d'. rewrite app_nil_r. destruct w; reflexivity.
  - rewrite (parse_tool_missing _ _ _ _ _ _ Ht Hf). eauto.
Qed.

Lemma reads_only_parse_units (tools : gset string) (beams : list Z) :
  tools ⊆ dom TOOL_PARSERS ->
  reads_only (parse_units self L value m_parser tools beams).
Proof.
  intros Hsub. unfold parse_units.
  apply reads_only_for_fold. intros [fn f] tr _.
  apply reads_only_for_fold. intros beam tr' _.
  unfold parse_unit. apply reads_only_bind.
  - apply reads_only_for_fold. intros t d Ht.
    apply reads_only_parse_tool, Hsub, elem_of_elements, Ht.
  - intros d. destruct (String.eqb fn ""); apply reads_only_ret.
Qed.


Lemma metric_tool_in_table (m t : string) :
  metric_tool m = Some t -> t ∈ dom TOOL_PARSERS.
Proof.
  unfold metric_tool. destruct (startswith m "hg_").
  - intros [= <-]. apply (bool_decide_unpack _). vm_compute. exact I.
  - assert (Hall : map_Forall (fun _ t => t ∈ dom TOOL_PARSERS) METRICS2TOOL).
    { apply (bool_decide_unpack _). vm_compute. exact I. }
    intros Hm. exact (Hall _ _ Hm).
Qed.

Lemma get_metrics_tool_in_table (metrics : gset string) :
  _get_metrics_tool metrics ⊆ dom TOOL_PARSERS.
Proof.
  intros t (m & _ & Hm)%elem_of_get_metrics_tool.
  exact (metric_tool_in_table _ _ Hm).
Qed.


(** ** C1: the beams of the record *)

Lemma reads_only_wfs {A} (m : M A) (w w' : world) (r : outcome A) :
  reads_only m -> m w = (w', r) -> wfs w' = wfs w.
Proof.
  intros Hm Hr. destruct (Hm w) as (evs & a & Ha).
  rewrite Ha in Hr. injection Hr as <- _. reflexivity.
Qed.

Lemma for_fold_cons_inv {A B} (a : A) (l : list A) (body : A -> B -> M B)
    (b r : B) (w w' : world) :
  for_fold (a :: l) body b w = (w', Ok r) ->
  exists w1 b1, body a b w = (w1, Ok b1) /\ for_fold l body b1 w1 = (w', Ok r).
Proof. simpl. apply bind_inv_ok. Qed.

Lemma beam_key_inj (a b : Z) : beam_key a = beam_key b -> a = b.
Proof.
  unfold beam_key, str_int. intros Heq. simpl in Heq.
  injection Heq as Heq. exact (inj pretty _ _ Heq).
Qed.

Lemma reads_only_beam_scores (tools : gset string) (sp : string) :
  tools ⊆ dom TOOL_PARSERS ->
  reads_only (for_fold (elements tools) (parse_tool value m_parser sp) ∅).
Proof.
  intros Hsub. apply reads_only_for_fold. intros t d Ht.
  apply reads_only_parse_tool, Hsub, elem_of_elements, Ht.
Qed.

Lemma parse_unit_top_level (tools : gset string) (beam : Z)
    (tr tr' : gmap string (entry value)) (w w' : world) :
  parse_unit L value m_parser tools "" beam tr w = (w', Ok tr') ->
  exists d,
    for_fold (elements tools) (parse_tool value m_parser (scores_path L "" beam))
      ∅ w = (w', Ok d) /\
    tr' = <[beam_key beam := Beam_scores value d]> tr.
Proof.
  unfold parse_unit. intros (w1 & d & Hd & Hr)%bind_inv_ok.
  simpl in Hr. injection Hr as <- <-. eauto.
Qed.

Lemma parse_unit_named (tools : gset string) (fn : string) (beam : Z)
    (tr tr' : gmap string (entry value)) (w w' : world) :
  fn <> "" ->
  parse_unit L value m_parser tools fn beam tr w = (w', Ok tr') ->
  exists d,
    for_fold (elements tools) (parse_tool value m_parser (scores_path L fn beam))
      ∅ w = (w', Ok d) /\
    tr' = <[fn := Split_beams value {[beam_key beam := d]}]> tr.
Proof.
  intros Hne. unfold parse_unit. intros (w1 & d & Hd & Hr)%bind_inv_ok.
  apply String.eqb_neq in Hne. rewrite Hne in Hr.
  injection Hr as <- <-. eauto.
Qed.

Lemma top_level_beams_fold (tools : gset string) (beams : list Z) :
  tools ⊆ dom TOOL_PARSERS ->
  forall (tr0 tr : gmap string (entry value)) (w0 w' : world),
    for_fold beams (parse_unit L value m_parser tools "") tr0 w0 = (w', Ok tr) ->
    wfs w' = wfs w0 /\
    (forall b, b ∈ beams ->
       exists d, beam_scores_from L value m_parser tools (wfs w0) b d /\
                 tr !! beam_key b = Some (Beam_scores value d)) /\
    (forall k, (forall b, b ∈ beams -> k <> beam_key b) -> tr !! k = tr0 !! k).
Proof.
  intros Hsub. induction beams as [|b beams IH]; intros tr0 tr w0 w' Hr.
  - simpl in Hr. injection Hr as <- <-. split; [reflexivity|].
    split; [intros b Hb; apply elem_of_nil in Hb; contradiction|reflexivity].
  - apply for_fold_cons_inv in Hr as (w1 & tr1 & Hb & Hr).
    apply parse_unit_top_level in Hb as (d & Hd & ->).
    pose proof (reads_only_wfs _ _ _ _
                  (reads_only_beam_scores tools _ Hsub) Hd) as Hw1.
    destruct (IH _ _ _ _ Hr) as (Hw' & Hin & Hout).
    split; [congruence|]. split.
    + intros b' Hb'. destruct (decide (b' ∈ beams)) as [Hmem|Hnot].
      * destruct (Hin b' Hmem) as (d' & Hfrom & Hl).
        exists d'. split; [rewrite <- Hw1; exact Hfrom|exact Hl].
      * apply elem_of_cons in Hb' as [->|Hb']; [|contradiction].
        exists d. split; [exists w0, w1; auto|].
        rewrite Hout; [apply lookup_insert_eq|].
        intros b' Hb' Heq. apply beam_key_inj in Heq. subst b'. contradiction.
    + intros k Hk. rewrite Hout.
      * apply lookup_insert_ne. intros Heq. apply (Hk b); [|congruence].
        apply list_elem_of_here.
      * intros b' Hb'. apply Hk, list_elem_of_further, Hb'.
Qed.

(** With the unnamed split alone, as by default, the record has one key
    ["beam<k>"] per requested beam at the top level of "translations",
    bound to the scores read from that beam's own score directory, and no
    other key. *)
Lemma parse_units_top_level (tools : gset string) (beams : list Z)
    (f : option filter_fn) (tr : gmap string (entry value)) (w w' : world) :
  filter_ts_data_fn self = [("", f)] ->
  tools ⊆ dom TOOL_PARSERS ->
  parse_units self L value m_parser tools beams w = (w', Ok tr) ->
  (forall b, b ∈ beams ->
     exists d, beam_scores_from L value m_parser tools (wfs w) b d /\
               tr !! beam_key b = Some (Beam_scores value d)) /\
  (forall k, (forall b, b ∈ beams -> k <> beam_key b) -> tr !! k = None).
Proof.
  intros Hsplit Hsub. unfold parse_units. rewrite Hsplit.
  intros (w1 & tr1 & Hr & Hlast)%for_fold_cons_inv.
  simpl in Hlast. injection Hlast as <- <-.
  destruct (top_level_beams_fold tools beams Hsub _ _ _ _ Hr) as (_ & Hin & Hout).
  split; [exact Hin|]. intros k Hk. rewrite (Hout k Hk). apply lookup_empty.
Qed.

(** Under a named split, each beam replaces the entry of the split: when
    the loop over the beams ends, the split holds its last beam only. *)
Lemma named_split_fold (tools : gset string) (fn : string) (beams : list Z) :
  fn <> "" ->
  forall (tr0 tr : gmap string (entry value)) (w0 w' : world),
    for_fold beams (parse_unit L value m_parser tools fn) tr0 w0 = (w', Ok tr) ->
    (tr0 = ∅ \/ exists e, tr0 = {[fn := e]}) ->
    match last beams with
    | None => tr = tr0
    | Some b =>
        exists d, tr = {[fn := Split_beams value {[beam_key b := d]}]}
    end.
Proof.
  intros Hne. induction beams as [|b beams IH]; intros tr0 tr w0 w' Hr H0.
  - simpl in Hr. injection Hr as <- <-. reflexivity.
  - apply for_fold_cons_inv in Hr as (w1 & tr1 & Hb & Hr).
    apply (parse_unit_named _ _ _ _ _ _ _ Hne) in Hb as (d & _ & ->).
    assert (H1 : <[fn := Split_beams value {[beam_key b := d]}]> tr0 =
                 {[fn := Split_beams value {[beam_key b := d]}]}).
    { destruct H0 as [->|[e ->]]; [reflexivity|]. apply insert_singleton_eq. }
    rewrite H1 in Hr.
    specialize (IH _ _ _ _ Hr (or_intror (ex_intro _ _ eq_refl))).
    destruct beams as [|b2 beams].
    + simpl in IH. subst tr. simpl. eauto.
    + rewrite last_cons_cons.
      destruct (last (b2 :: beams)) as [b'|] eqn:Hl; [exact IH|].
      apply last_None in Hl. discriminate Hl.
Qed.

Lemma parse_units_named_split (tools : gset string) (fn : string)
    (f : option filter_fn) (beams : list Z) (b : Z)
    (tr : gmap string (entry value)) (w w' : world) :
  filter_ts_data_fn self = [(fn, f)] ->
  fn <> "" ->
  parse_units self L value m_parser tools (beams ++ [b]) w = (w', Ok tr) ->
  exists d, tr = {[fn := Split_beams value {[beam_key b := d]}]}.
Proof.
  intros Hsplit Hne. unfold parse_units. rewrite Hsplit.
  intros (w1 & tr1 & Hr & Hlast)%for_fold_cons_inv.
  simpl in Hlast. injection Hlast as <- <-.
  pose proof (named_split_fold tools fn (beams ++ [b]) Hne _ _ _ _ Hr
                (or_introl eq_refl)) as Hl.
  rewrite last_snoc in Hl. exact Hl.
Qed.

End ParseFacts.

(** ** Computations and the relations they respect *)

Section Respects.

Variable R : world -> world -> Prop.
Hypothesis R_refl : forall w, R w w.
Hypothesis R_trans : forall w1 w2 w3, R w1 w2 -> R w2 w3 -> R w1 w3.

Lemma respects_ret {A} (a : A) : respects R (mret a).
Proof. intros w w' r [= <- _]. apply R_refl. Qed.

Lemma respects_raise {A} (e : exn) : respects R (@raise A e).
Proof. intros w w' r [= <- _]. apply R_refl. Qed.

Lemma respects_gets {A} (f : fs -> A) : respects R (gets f).
Proof. intros w w' r [= <- _]. apply R_refl. Qed.

Lemma respects_read_lines (p : string) : respects R (read_lines p).
Proof.
  intros w w' r. unfold read_lines.
  destruct (files (wfs w) !! p); intros [= <- _]; apply R_refl.
Qed.

Lemma respects_bind {A B} (m : M A) (f : A -> M B) :
  respects R m -> (forall a, respects R (f a)) -> respects R (m ≫= f).
Proof.
  intros Hm Hf w w' r Hr.
  apply bind_inv in Hr as [(w1 & a & Ha & Hr)|(e & He & _)].
  - eapply R_trans; [exact (Hm _ _ _ Ha)|exact (Hf _ _ _ _ Hr)].
  - exact (Hm _ _ _ He).
Qed.

Lemma respects_for_each {A} (l : list A) (body : A -> M unit) :
  (forall a, a ∈ l -> respects R (body a)) -> respects R (for_each l body).
Proof.
  induction l as [|a l IH]; intros Hb; simpl.
  - apply respects_ret.
  - apply respects_bind.
    + apply Hb, list_elem_of_here.
    + intros _. apply IH. intros a' Ha'. apply Hb, list_elem_of_further, Ha'.
Qed.

Lemma respects_count_file_lines (p : string) : respects R (count_file_lines p).
Proof.
  unfold count_file_lines. apply respects_bind; [apply respects_read_lines|].
  intros ls. apply respects_ret.
Qed.

Lemma respects_make_dir (paths : list string) : respects R (make_dir paths).
Proof. apply respects_ret. Qed.

Lemma respects_compute_step (requested : bool) (out : string) (fo : bool)
    (ev : event) (h : effect) :
  respects R (call ev h) -> respects R (compute_step requested out fo ev h).
Proof.
  intros Hc. unfold compute_step. destruct requested; [|apply respects_ret].
  apply respects_bind; [apply respects_gets|].
  intros present. destruct (fo || negb present); [exact Hc|apply respects_ret].
Qed.

End Respects.

(** *** The three relations *)

Lemma files_grow_refl (w : world) : files_grow w w.
Proof. intros p Hp. exact Hp. Qed.

Lemma files_grow_trans (w1 w2 w3 : world) :
  files_grow w1 w2 -> files_grow w2 w3 -> files_grow w1 w3.
Proof. intros H1 H2 p Hp. apply H2, H1, Hp. Qed.

Lemma file_same_refl (p : string) (w : world) : file_same p w w.
Proof. reflexivity. Qed.

Lemma file_same_trans (p : string) (w1 w2 w3 : world) :
  file_same p w1 w2 -> file_same p w2 w3 -> file_same p w1 w3.
Proof. unfold file_same, same_file. congruence. Qed.

Lemma adds_only_refl (ok : event -> bool) (w : world) : adds_only ok w w.
Proof. exists []. rewrite app_nil_r. auto. Qed.

Lemma adds_only_trans (ok : event -> bool) (w1 w2 w3 : world) :
  adds_only ok w1 w2 -> adds_only ok w2 w3 -> adds_only ok w1 w3.
Proof.
  intros (e1 & H1 & O1) (e2 & H2 & O2). exists (e1 ++ e2).
  rewrite H2, H1, <- app_assoc, forallb_app, O1, O2. auto.
Qed.

Lemma write_file_grows (p : string) (ls : list string) (s : fs) :
  grows s (write_file p ls s).
Proof.
  intros q [f Hq]%path_exists_true. apply path_exists_true.
  unfold write_file. simpl. destruct (decide (p = q)) as [->|Hne].
  - rewrite lookup_insert_eq. eauto.
  - rewrite lookup_insert_ne by exact Hne. eauto.
Qed.

Lemma write_file_exists (p : string) (ls : list string) (s : fs) :
  path_exists p (write_file p ls s) = true.
Proof.
  apply path_exists_true. unfold write_file. simpl.
  rewrite lookup_insert_eq. eauto.
Qed.

Lemma write_file_same (p q : string) (ls : list string) (s : fs) :
  p <> q -> same_file q s (write_file p ls s).
Proof.
  intros Hne. unfold same_file, write_file. simpl.
  apply lookup_insert_ne, Hne.
Qed.

(** *** Files are never deleted *)

Lemma grow_emit (ev : event) : respects files_grow (emit ev).
Proof. intros w w' r [= <- _] p Hp. exact Hp. Qed.

Lemma grow_call (ev : event) (h : effect) :
  keeps h -> respects files_grow (call ev h).
Proof.
  intros Hk w w' r. unfold call. specialize (Hk (wfs w)).
  destruct (h (wfs w)) as [s' r']. intros [= <- _]. exact Hk.
Qed.

Lemma grow_copyfile (src dst : string) : respects files_grow (copyfile src dst).
Proof.
  intros w w' r. unfold copyfile.
  destruct (files (wfs w) !! src); intros [= <- _].
  - apply write_file_grows.
  - apply files_grow_refl.
Qed.

Lemma grow_write_file_lines (p : string) (ls : list string) :
  respects files_grow (write_file_lines p ls).
Proof. intros w w' r [= <- _]. apply write_file_grows. Qed.

(** *** A file that is not written *)

Lemma same_emit (p : string) (ev : event) : respects (file_same p) (emit ev).
Proof. intros w w' r [= <- _]. reflexivity. Qed.

Lemma same_call (p : string) (ev : event) (h : effect) :
  leaves p h -> respects (file_same p) (call ev h).
Proof.
  intros Hl w w' r. unfold call. specialize (Hl (wfs w)).
  destruct (h (wfs w)) as [s' r']. intros [= <- _]. exact Hl.
Qed.

Lemma same_copyfile (p src dst : string) :
  dst <> p -> respects (file_same p) (copyfile src dst).
Proof.
  intros Hne w w' r. unfold copyfile.
  destruct (files (wfs w) !! src); intros [= <- _].
  - apply write_file_same, Hne.
  - reflexivity.
Qed.

(** *** The events added *)

Lemma adds_emit (ok : event -> bool) (ev : event) :
  ok ev = true -> respects (adds_only ok) (emit ev).
Proof.
  intros Hok w w' r [= <- _]. exists [ev]. simpl. rewrite Hok. auto.
Qed.

Lemma adds_call (ok : event -> bool) (ev : event) (h : effect) :
  ok ev = true -> respects (adds_only ok) (call ev h).
Proof.
  intros Hok w w' r. unfold call. destruct (h (wfs w)) as [s' r'].
  intros [= <- _]. exists [ev]. simpl. rewrite Hok. auto.
Qed.

Lemma adds_copyfile (ok : event -> bool) (src dst : string) :
  respects (adds_only ok) (copyfile src dst).
Proof.
  intros w w' r. unfold copyfile.
  destruct (files (wfs w) !! src); intros [= <- _];
    exists []; simpl; rewrite app_nil_r; auto.
Qed.

Lemma adds_write_file_lines (ok : event -> bool) (p : string)
    (ls : list string) :
  respects (adds_only ok) (write_file_lines p ls).
Proof.
  intros w w' r [= <- _]. exists []. simpl. rewrite app_nil_r. auto.
Qed.

Ltac respects_step :=
  match goal with
  | |- forall w, ?R w w =>
      first [exact files_grow_refl | exact (file_same_refl _)
            | exact (adds_only_refl _)]
  | |- forall w1 w2 w3, ?R w1 w2 -> _ =>
      first [exact files_grow_trans | exact (file_same_trans _)
            | exact (adds_only_trans _)]
  | |- forall _, _ => intro
  | |- respects _ (mret _) => apply respects_ret
  | |- respects _ (raise _) => apply respects_raise
  | |- respects _ (gets _) => apply respects_gets
  | |- respects _ (make_dir _) => apply respects_make_dir
  | |- respects _ (read_lines _) => apply respects_read_lines
  | |- respects _ (count_file_lines _) => apply respects_count_file_lines
  | |- respects _ (check_line_counts _) => unfold check_line_counts
  | |- respects _ (emit _) =>
      first [apply grow_emit | apply same_emit | apply adds_emit]
  | |- respects _ (copyfile _ _) =>
      first [apply grow_copyfile | apply same_copyfile | apply adds_copyfile]
  | |- respects _ (write_file_lines _ _) =>
      first [apply grow_write_file_lines | apply adds_write_file_lines]
  | |- respects _ (call _ _) =>
      first [apply grow_call | apply same_call | apply adds_call]
  | |- respects _ (compute_step _ _ _ _ _) => apply respects_compute_step
  | |- respects _ (for_each _ _) => apply respects_for_each
  | |- respects _ (_ ≫= _) => apply respects_bind
  | |- respects _ (if ?b then _ else _) => destruct b
  | |- respects _ (match ?x with _ => _ end) => destruct x
  | |- respects _ (let '(_, _) := ?x in _) => destruct x
  end.

Section GrowFacts.

Variable self : translator.
Variable H : hooks.
Variable L : layout.
Variable model_ds : dataset.
Variable eval_ds : dataset.
Hypothesis Hkeep : hooks_keep H.

Lemma grow_translate_stage (fo : bool) :
  respects files_grow (translate_stage H L model_ds eval_ds fo).
Proof.
  unfold translate_stage, _check_datasets, assert_same_pair.
  repeat respects_step; apply Hkeep.
Qed.

Lemma grow_decode_unit (fo : bool) (i : nat) (fn : string)
    (filter : option filter_fn) (beam : Z) :
  respects files_grow (decode_unit H L model_ds eval_ds fo i fn filter beam).
Proof. unfold decode_unit. repeat respects_step; apply Hkeep. Qed.

Lemma grow_translate_unit (fo : bool) (i : nat) (fn : string)
    (filter : option filter_fn) (beam : Z) :
  respects files_grow (translate_unit H L model_ds eval_ds fo i fn filter beam).
Proof.
  unfold translate_unit. repeat respects_step. apply grow_decode_unit.
Qed.

Lemma grow_score_tools (metrics : gset string) (fo : bool) (fn : string)
    (beam : Z) :
  respects files_grow (score_tools H L model_ds metrics fo fn beam).
Proof. unfold score_tools. repeat respects_step; apply Hkeep. Qed.

Lemma grow_score_unit (metrics : gset string) (fo : bool) (fn : string)
    (beam : Z) :
  respects files_grow (score_unit H L model_ds metrics fo fn beam).
Proof. unfold score_unit. repeat respects_step. apply grow_score_tools. Qed.

Lemma grow_translate_units (beams : list Z) (fo : bool) :
  respects files_grow (translate_units self H L model_ds eval_ds beams fo).
Proof.
  unfold translate_units. apply respects_for_each;
    [exact files_grow_refl|exact files_grow_trans|].
  intros [i [fn f]] _. apply respects_for_each;
    [exact files_grow_refl|exact files_grow_trans|].
  intros beam _. apply grow_translate_unit.
Qed.

Lemma grow_score_units (beams : list Z) (metrics : gset string) (fo : bool) :
  respects files_grow (score_units self H L model_ds beams metrics fo).
Proof.
  unfold score_units. apply respects_for_each;
    [exact files_grow_refl|exact files_grow_trans|].
  intros [fn f] _. apply respects_for_each;
    [exact files_grow_refl|exact files_grow_trans|].
  intros beam _. apply grow_score_unit.
Qed.

End GrowFacts.

(** What every pass of a loop establishes, and later passes keep, holds
    for every element when the loop ends. *)
Lemma for_each_post {A} (l : list A) (body : A -> M unit) (Q : A -> fs -> Prop) :
  (forall a, respects files_grow (body a)) ->
  (forall a s s', grows s s' -> Q a s -> Q a s') ->
  (forall a w w', a ∈ l -> body a w = (w', Ok tt) -> Q a (wfs w')) ->
  forall w w', for_each l body w = (w', Ok tt) ->
  forall a, a ∈ l -> Q a (wfs w').
Proof.
  intros Hg Hstable. induction l as [|a l IH]; intros Hest w w' Hr a' Ha'.
  - apply elem_of_nil in Ha'. contradiction.
  - simpl in Hr. apply bind_inv_ok in Hr as (w1 & [] & Hb & Hr).
    apply elem_of_cons in Ha' as [->|Ha'].
    + apply (Hstable a (wfs w1)).
      * apply (respects_for_each files_grow files_grow_refl files_grow_trans
                 l body (fun x _ => Hg x) _ _ _ Hr).
      * apply (Hest a w w1); [apply list_elem_of_here|exact Hb].
    + apply (IH (fun x u u' Hx => Hest x u u' (list_elem_of_further _ _ _ Hx))
                w1 w' Hr a' Ha').
Qed.


Lemma call_ok_inv (ev : event) (h : effect) (w w' : world) :
  call ev h w = (w', Ok tt) ->
  snd (h (wfs w)) = Ok tt /\ wfs w' = fst (h (wfs w)).
Proof.
  unfold call. destruct (h (wfs w)) as [s' r]. intros [= <- ->]. auto.
Qed.

Section TranslateFacts.

Variable self : translator.
Variable H : hooks.
Variable L : layout.
Variable model_ds : dataset.
Variable eval_ds : dataset.
Hypothesis Hkeep : hooks_keep H.
Hypothesis Hmark : hooks_mark H.

Lemma decode_unit_marks (fo : bool) (i : nat) (fn : string)
    (filter : option filter_fn) (beam : Z) (w w' : world) :
  decode_unit H L model_ds eval_ds fo i fn filter beam w = (w', Ok tt) ->
  unit_marked L fn beam (wfs w').
Proof.
  unfold decode_unit. cbv zeta. intros Hr.
  apply bind_inv_ok in Hr as (w1 & [] & Hcall & Hrest).
  apply call_ok_inv in Hcall as [Hok Hw1].
  assert (Hm : path_exists (path_join (beam_path L fn beam) "hyp.tok") (wfs w1)
               = true).
  { rewrite Hw1. apply (mark_translate H Hmark), Hok. }
  match type of Hrest with
  | ?m w1 = _ =>
      assert (Hg : respects files_grow m) by (repeat respects_step; apply Hkeep)
  end.
  apply (Hg _ _ _ Hrest), Hm.
Qed.

Lemma translate_unit_run (fo : bool) (i : nat) (fn : string)
    (filter : option filter_fn) (beam : Z) (w : world) :
  translate_unit H L model_ds eval_ds fo i fn filter beam w =
    if fo || negb (path_exists (path_join (beam_path L fn beam) "hyp.tok") (wfs w))
    then decode_unit H L model_ds eval_ds fo i fn filter beam w
    else (w, Ok tt).
Proof.
  unfold translate_unit, make_dir, tok_flag.
  unfold mbind at 1, M_bind at 1, mret at 1, M_ret at 1.
  unfold mbind at 1, M_bind at 1, gets at 1. cbn [map forallb id].
  rewrite andb_true_r.
  destruct (fo || negb _); reflexivity.
Qed.

Lemma translate_unit_marks (fo : bool) (i : nat) (fn : string)
    (filter : option filter_fn) (beam : Z) (w w' : world) :
  translate_unit H L model_ds eval_ds fo i fn filter beam w = (w', Ok tt) ->
  unit_marked L fn beam (wfs w').
Proof.
  rewrite translate_unit_run.
  destruct (path_exists (path_join (beam_path L fn beam) "hyp.tok") (wfs w))
    eqn:Hex.
  - destruct fo; cbn [orb negb].
    + apply decode_unit_marks.
    + intros [= <-]. exact Hex.
  - rewrite orb_true_r. apply decode_unit_marks.
Qed.


(** After [translate] has gone through its units, every unit is marked. *)
Lemma translate_units_mark (beams : list Z) (fo : bool) (w w' : world) :
  translate_units self H L model_ds eval_ds beams fo w = (w', Ok tt) ->
  forall fn f beam,
    (fn, f) ∈ filter_ts_data_fn self -> beam ∈ beams ->
    unit_marked L fn beam (wfs w').
Proof.
  intros Hr fn f beam Hfn Hbeam.
  unfold enumerate in Hr.
  assert (Hex : exists i, (i, (fn, f)) ∈ enumerate (filter_ts_data_fn self)).
  { apply list_elem_of_lookup in Hfn as [i Hi]. exists i.
    unfold enumerate. apply list_elem_of_lookup. exists i.
    apply lookup_zip_with_Some. exists i, (fn, f).
    split; [reflexivity|]. split; [|exact Hi].
    apply lookup_seq. split; [reflexivity|].
    apply lookup_lt_Some in Hi. exact Hi. }
  destruct Hex as [i Hi].
  pose proof (for_each_post (enumerate (filter_ts_data_fn self))
                (fun '(i, (fn_name, filter)) =>
                   for_each beams
                     (fun beam =>
                        translate_unit H L model_ds eval_ds fo i fn_name filter beam))
                (fun a s => forall b, b ∈ beams -> unit_marked L (fst (snd a)) b s))
    as Hpost.
  refine (Hpost _ _ _ w w' Hr (i, (fn, f)) Hi beam Hbeam).
  - intros [j [g h]]. apply respects_for_each;
      [exact files_grow_refl|exact files_grow_trans|].
    intros b _. apply grow_translate_unit, Hkeep.
  - intros a s s' Hg Hq b Hb. apply Hg, Hq, Hb.
  - intros [j [g h]] u u' _ Hu. simpl.
    refine (for_each_post beams _ (fun b s => unit_marked L g b s) _ _ _ u u' Hu).
    + intros b. apply grow_translate_unit, Hkeep.
    + intros b s s' Hg Hq. apply Hg, Hq.
    + intros b v v' _ Hv. apply (translate_unit_marks _ _ _ _ _ _ _ Hv).
Qed.


(** The staging of [translate] makes no decoder call. *)
Lemma translate_stage_no_decode (fo : bool) :
  respects (adds_only (fun ev => negb (is_decode_call ev)))
           (translate_stage H L model_ds eval_ds fo).
Proof.
  unfold translate_stage, _check_datasets, assert_same_pair.
  repeat respects_step; reflexivity.
Qed.


End TranslateFacts.

Section ScoreFacts.

Variable self : translator.
Variable H : hooks.
Variable L : layout.
Variable model_ds : dataset.
Variable eval_ds : dataset.
Hypothesis Hkeep : hooks_keep H.
Hypothesis Hmark : hooks_mark H.

Lemma compute_step_marks (requested : bool) (out : string) (fo : bool)
    (ev : event) (h : effect) (w w' : world) :
  writes out h ->
  compute_step requested out fo ev h w = (w', Ok tt) ->
  requested = true -> path_exists out (wfs w') = true.
Proof.
  intros Hw Hr ->. rewrite compute_step_run in Hr. cbn [andb] in Hr.
  destruct (fo || negb (path_exists out (wfs w))) eqn:Hc.
  - apply call_ok_inv in Hr as [Hok ->]. apply Hw, Hok.
  - injection Hr as <-. apply orb_false_elim in Hc as [_ Hc].
    apply negb_false_iff in Hc. exact Hc.
Qed.

Lemma grow_compute_step (requested : bool) (out : string) (fo : bool)
    (ev : event) (h : effect) (w w' : world) (r : outcome unit) :
  keeps h -> compute_step requested out fo ev h w = (w', r) -> files_grow w w'.
Proof.
  intros Hk Hr.
  exact (respects_compute_step files_grow files_grow_refl files_grow_trans
           _ _ _ _ _ (grow_call _ _ Hk) _ _ _ Hr).
Qed.


Lemma unit_texts_present_grows (fn : string) (beam : Z) (s s' : fs) :
  grows s s' ->
  unit_texts_present L fn beam s = true ->
  unit_texts_present L fn beam s' = true.
Proof.
  intros Hg. unfold unit_texts_present. cbn [forallb].
  rewrite !andb_true_iff. intros (H1 & H2 & H3 & _).
  repeat split; apply Hg; assumption.
Qed.

Lemma unit_scored_grows (metrics : gset string) (fn : string) (beam : Z)
    (s s' : fs) :
  grows s s' ->
  unit_scored L metrics fn beam s -> unit_scored L metrics fn beam s'.
Proof.
  intros Hg (Hp & H1 & H2 & H3 & H4 & H5).
  split; [exact (unit_texts_present_grows _ _ _ _ Hg Hp)|].
  repeat split; intros Hreq; apply Hg; auto.
Qed.

Lemma score_tools_scored (metrics : gset string) (fo : bool) (fn : string)
    (beam : Z) (w w' : world) :
  unit_texts_present L fn beam (wfs w) = true ->
  score_tools H L model_ds metrics fo fn beam w = (w', Ok tt) ->
  unit_scored L metrics fn beam (wfs w').
Proof.
  intros Hp Hr. unfold score_tools in Hr. cbv zeta in Hr.
  apply bind_inv_ok in Hr as (w1 & [] & H1 & Hr).
  apply bind_inv_ok in Hr as (w2 & [] & H2 & Hr).
  apply bind_inv_ok in Hr as (w3 & [] & H3 & Hr).
  apply bind_inv_ok in Hr as (w4 & [] & H4 & H5).
  assert (G1 : files_grow w w1)
    by (eapply grow_compute_step; [|exact H1]; apply Hkeep).
  assert (G2 : files_grow w1 w2)
    by (eapply grow_compute_step; [|exact H2]; apply Hkeep).
  assert (G3 : files_grow w2 w3)
    by (eapply grow_compute_step; [|exact H3]; apply Hkeep).
  assert (G4 : files_grow w3 w4)
    by (eapply grow_compute_step; [|exact H4]; apply Hkeep).
  assert (G5 : files_grow w4 w')
    by (eapply grow_compute_step; [|exact H5]; apply Hkeep).
  split.
  { apply (unit_texts_present_grows _ _ (wfs w)); [|exact Hp].
    intros p Hx. apply G5, G4, G3, G2, G1, Hx. }
  split.
  { intros Hreq. apply G5, G4, G3, G2.
    apply (compute_step_marks _ _ _ _ _ _ _ (mark_sacrebleu H Hmark _ _ _ _) H1 Hreq). }
  split.
  { intros Hreq. apply G5, G4, G3.
    apply (compute_step_marks _ _ _ _ _ _ _ (mark_bertscore H Hmark _ _ _ _) H2 Hreq). }
  split.
  { intros Hreq. apply G5, G4.
    apply (compute_step_marks _ _ _ _ _ _ _ (mark_comet H Hmark _ _ _ _) H3 Hreq). }
  split.
  { intros Hreq. apply G5.
    apply (compute_step_marks _ _ _ _ _ _ _ (mark_fairseq H Hmark _ _ _) H4 Hreq). }
  intros Hne.
  apply (compute_step_marks _ _ _ _ _ _ _
           (mark_huggingface H Hmark _ _ _ _ _ _) H5).
  apply bool_decide_eq_true_2, Hne.
Qed.

Lemma score_unit_scored (metrics : gset string) (fo : bool) (fn : string)
    (beam : Z) (w w' : world) :
  score_unit H L model_ds metrics fo fn beam w = (w', Ok tt) ->
  unit_scored L metrics fn beam (wfs w').
Proof.
  intros [Hp Hr]%score_unit_ok_inv. exact (score_tools_scored _ _ _ _ _ _ Hp Hr).
Qed.


Lemma score_units_scored (beams : list Z) (metrics : gset string) (fo : bool)
    (w w' : world) :
  score_units self H L model_ds beams metrics fo w = (w', Ok tt) ->
  forall fn f beam,
    (fn, f) ∈ filter_ts_data_fn self -> beam ∈ beams ->
    unit_scored L metrics fn beam (wfs w').
Proof.
  intros Hr fn f beam Hfn Hbeam.
  refine (for_each_post (filter_ts_data_fn self) _
            (fun a s => forall b, b ∈ beams -> unit_scored L metrics (fst a) b s)
            _ _ _ w w' Hr (fn, f) Hfn beam Hbeam).
  - intros [g h]. apply respects_for_each;
      [exact files_grow_refl|exact files_grow_trans|].
    intros b _. apply grow_score_unit, Hkeep.
  - intros a s s' Hg Hq b Hb. apply (unit_scored_grows _ _ _ _ _ Hg), Hq, Hb.
  - intros [g h] u u' _ Hu. simpl.
    refine (for_each_post beams _ (fun b s => unit_scored L metrics g b s)
              _ _ _ u u' Hu).
    + intros b. apply grow_score_unit, Hkeep.
    + intros b s s' Hg. apply unit_scored_grows, Hg.
    + intros b v v' _ Hv. apply (score_unit_scored _ _ _ _ _ _ Hv).
Qed.


End ScoreFacts.

(** ** C3: the line-count check *)

Lemma count_file_lines_run (p : string) (w : world) :
  count_file_lines p w =
    match files (wfs w) !! p with
    | Some f => (w, Ok (List.length (lines f)))
    | None => (w, Raise FileNotFoundError)
    end.
Proof.
  unfold count_file_lines, mbind, M_bind, read_lines.
  destruct (files (wfs w) !! p); reflexivity.
Qed.

Lemma check_line_counts_run (out : string) (w : world) (ref hyp : file) :
  files (wfs w) !! path_join out "ref.txt" = Some ref ->
  files (wfs w) !! path_join out "hyp.txt" = Some hyp ->
  check_line_counts out w =
    (w, if Nat.eqb (List.length (lines ref)) (List.length (lines hyp))
        then Ok tt else Raise ValueError).
Proof.
  intros Hr Hh. unfold check_line_counts.
  erewrite bind_ok; [|rewrite count_file_lines_run, Hr; reflexivity].
  erewrite bind_ok; [|rewrite count_file_lines_run, Hh; reflexivity].
  destruct (Nat.eqb _ _); reflexivity.
Qed.

Lemma check_line_counts_ok_inv (out : string) (w w' : world) :
  check_line_counts out w = (w', Ok tt) ->
  w' = w /\
  exists ref hyp,
    files (wfs w) !! path_join out "ref.txt" = Some ref /\
    files (wfs w) !! path_join out "hyp.txt" = Some hyp /\
    List.length (lines ref) = List.length (lines hyp).
Proof.
  unfold check_line_counts. intros Hr.
  apply bind_inv_ok in Hr as (w1 & n1 & H1 & Hr).
  apply bind_inv_ok in Hr as (w2 & n2 & H2 & Hr).
  rewrite count_file_lines_run in H1.
  destruct (files (wfs w) !! path_join out "ref.txt") as [ref|] eqn:Href;
    [|discriminate].
  injection H1 as <- <-.
  rewrite count_file_lines_run in H2.
  destruct (files (wfs w) !! path_join out "hyp.txt") as [hyp|] eqn:Hhyp;
    [|discriminate].
  injection H2 as <- <-.
  destruct (Nat.eqb (List.length (lines ref)) (List.length (lines hyp))) eqn:Heq;
    [|discriminate].
  injection Hr as <-. split; [reflexivity|].
  exists ref, hyp. apply Nat.eqb_eq in Heq. auto.
Qed.

Section Idempotency.

Variable self : translator.
Variable H : hooks.
Variable L : layout.
Variable model_ds : dataset.
Variable eval_ds : dataset.
Variable value : Type.
Variable m_parser : string -> list string -> outcome (parsed value).

(** C3, as the code has it.  A unit that [translate] decodes in this call
    (overwrite forced or "hyp.tok" missing) ends with the line-count check:
    when the unit completes, "ref.txt" and "hyp.txt" exist and have the same
    number of lines, and a difference raises ValueError; [predict] does not
    reach [score] when [translate] raises.  A unit skipped because its
    "hyp.tok" exists is not checked, and [score] checks existence only. *)
Theorem decoded_unit_line_counts (fo : bool) (i : nat) (fn : string)
    (filter : option filter_fn) (beam : Z) (w w' : world) :
  fo = true \/
  path_exists (path_join (beam_path L fn beam) "hyp.tok") (wfs w) = false ->
  translate_unit H L model_ds eval_ds fo i fn filter beam w = (w', Ok tt) ->
  (exists ref hyp,
     files (wfs w') !! path_join (beam_path L fn beam) "ref.txt" = Some ref /\
     files (wfs w') !! path_join (beam_path L fn beam) "hyp.txt" = Some hyp /\
     List.length (lines ref) = List.length (lines hyp)) /\
  (forall u ref hyp,
     files (wfs u) !! path_join (beam_path L fn beam) "ref.txt" = Some ref ->
     files (wfs u) !! path_join (beam_path L fn beam) "hyp.txt" = Some hyp ->
     List.length (lines ref) <> List.length (lines hyp) ->
     check_line_counts (beam_path L fn beam) u = (u, Raise ValueError)) /\
  (forall beams metrics u u' e,
     translate self H L model_ds eval_ds beams fo u = (u', Raise e) ->
     predict_eval self H L model_ds eval_ds value m_parser beams metrics fo u
     = (u', Raise e)).
Proof.
  intros Hdec Hr. split; [|split].
  - rewrite translate_unit_run in Hr.
    replace (fo || negb (path_exists (path_join (beam_path L fn beam) "hyp.tok")
                           (wfs w))) with true in Hr
      by (destruct Hdec as [-> | ->]; [reflexivity|symmetry; apply orb_true_r]).
    unfold decode_unit in Hr. cbv zeta in Hr.
    apply bind_inv_ok in Hr as (w1 & [] & Hs1 & Hr).
    apply bind_inv_ok in Hr as (w2 & [] & Hs2 & Hr).
    apply bind_inv_ok in Hr as (w3 & [] & Hs3 & Hr).
    apply bind_inv_ok in Hr as (w4 & [] & Hs4 & Hr).
    apply check_line_counts_ok_inv in Hr as [-> Hr]. exact Hr.
  - intros u ref hyp Href Hhyp Hne.
    rewrite (check_line_counts_run _ _ _ _ Href Hhyp).
    apply Nat.eqb_neq in Hne. rewrite Hne. reflexivity.
  - intros beams metrics u u' e Ht. unfold predict_eval.
    apply bind_raise, Ht.
Qed.


End Idempotency.

(** ** The scenarios *)

Section Scenarios.
Import Scenario.



(** The scenario of the specification: the warning names "unknown_metric",
    only the sacrebleu sub-routine runs, once per beam, and nothing is
    raised. *)
Example score_bleu_and_unknown_metric :
  score demo_self (demo_hooks good_hyp) demo_layout demo_ds demo_ds
    [5%Z; 1%Z] {["bleu"; "unknown_metric"]} false
    (World (wfs translated_world) []) =
  (World (wfs (world_of
            (score demo_self (demo_hooks good_hyp) demo_layout demo_ds demo_ds
               [5%Z; 1%Z] {["bleu"]} false (World (wfs translated_world) []))))
     [Print_unsupported {["unknown_metric"]};
      Call_compute_sacrebleu "eval/translations/beam5/ref.txt"
        "eval/translations/beam5/hyp.txt"
        "eval/translations/beam5/scores/sacrebleu_scores.json"
        {["bleu"; "unknown_metric"]};
      Call_compute_sacrebleu "eval/translations/beam1/ref.txt"
        "eval/translations/beam1/hyp.txt"
        "eval/translations/beam1/scores/sacrebleu_scores.json"
        {["bleu"; "unknown_metric"]}],
   Ok tt).
Proof. vm_compute. reflexivity. Qed.

(** C10 at the metric set [{"hg_bleurt", "bleu"}]. *)
Lemma hg_metrics_routed_witness :
  "hg_bleurt" ∈ ({["hg_bleurt"; "bleu"]} : gset string) /\
  startswith "hg_bleurt" "hg_" = true /\
  "hg_bleurt" ∈ metrics_valid_of {["hg_bleurt"; "bleu"]} ∅ /\
  "huggingface" ∈ _get_metrics_tool {["hg_bleurt"; "bleu"]} /\
  "bleurt" ∈ hg_metrics_of {["hg_bleurt"; "bleu"]}.
Proof.
  assert (Hm : "hg_bleurt" ∈ ({["hg_bleurt"; "bleu"]} : gset string))
    by (apply elem_of_union_l, elem_of_singleton; reflexivity).
  assert (Hhg : startswith "hg_bleurt" "hg_" = true) by reflexivity.
  pose proof (hg_metrics_routed (demo_hooks good_hyp) demo_layout demo_ds
                {["hg_bleurt"; "bleu"]} ∅ "hg_bleurt" Hm Hhg)
    as (Hv & _ & _ & Ht & _ & Hs & _).
  split; [exact Hm|]. split; [exact Hhg|]. split; [exact Hv|].
  split; [exact Ht|exact Hs].
Defined.




(** Inside one tool two pairs can share a key: the underscore that joins
    metric and sub-score may also occur in either. *)
Example flat_key_same_tool_collision :
  flat_key "huggingface" "a_b" "c" = flat_key "huggingface" "a" "b_c".
Proof. vm_compute. reflexivity. Qed.

Example flat_key_sacrebleu_bleu_score :
  flat_key "sacrebleu" "BLEU" "Score " = "sacrebleu_bleu_score".
Proof. vm_compute. reflexivity. Qed.

(** C1 at the default translator (one unnamed split) and beams [5, 1]: the
    record has the keys "beam5" and "beam1" at the top level, each with the
    score of its own file. *)
Example parse_metrics_default_split_beams :
  result_of (parse_metrics demo_self demo_layout demo_ds demo_ds string
               demo_parser [5%Z; 1%Z] {["bleu"]} (Some "autonmt") scores_world)
  = Ok (Some (score_record demo_self demo_layout demo_ds demo_ds string
                (Some "autonmt")
                {[ "beam5" := Beam_scores string
                                {[ "sacrebleu_bleu_score" := "34.1" ]};
                   "beam1" := Beam_scores string
                                {[ "sacrebleu_bleu_score" := "30.2" ]} ]})).
Proof. vm_compute. reflexivity. Qed.

(** C1 at a translator with the named split "short" and beams [5, 1]:
    [scores["translations"].update({fn_name: {beam<k>: ...}})] replaces the
    entry of the split at every beam, so the record returned holds "beam1"
    only and the scores of beam 5 are lost. *)
Theorem parse_metrics_named_split_loses_beams :
  result_of (parse_metrics split_self demo_layout demo_ds demo_ds string
               demo_parser [5%Z; 1%Z] {["bleu"]} (Some "autonmt") scores_world)
  = Ok (Some (score_record split_self demo_layout demo_ds demo_ds string
                (Some "autonmt")
                {[ "short" := Split_beams string
                     {[ "beam1" := {[ "sacrebleu_bleu_score" := "29.9" ]} ]} ]})).
Proof. vm_compute. reflexivity. Qed.

(** The collaborators of the scenarios meet the contract. *)
Lemma keeps_touch (out : string) (ls : list string) : keeps (touch out ls).
Proof. intros s. apply write_file_grows. Qed.

Lemma keeps_copy_effect (src dst : string) : keeps (copy_effect src dst).
Proof.
  intros s. unfold copy_effect. destruct (files s !! src); simpl.
  - apply write_file_grows.
  - intros p Hp. exact Hp.
Qed.

Lemma keeps_no_effect : keeps no_effect.
Proof. intros s p Hp. exact Hp. Qed.

Lemma writes_touch (out : string) (ls : list string) : writes out (touch out ls).
Proof. intros s _. apply write_file_exists. Qed.

Lemma demo_hooks_keep (hyp : list string) : hooks_keep (demo_hooks hyp).
Proof.
  constructor; intros; simpl;
    first [apply keeps_touch | apply keeps_copy_effect | apply keeps_no_effect].
Qed.

Lemma demo_hooks_mark (hyp : list string) : hooks_mark (demo_hooks hyp).
Proof. constructor; intros; simpl; apply writes_touch. Qed.




(** The second [translate] and the second [score], evaluated: no decoder
    call and no scoring call is made, and the artifacts of the units keep
    their content and time stamp. *)
Example second_translate_and_score :
  let w2 := world_of (translate demo_self (demo_hooks good_hyp) demo_layout
                        demo_ds demo_ds [5%Z; 1%Z] false translated_world) in
  let w3 := world_of (score demo_self (demo_hooks good_hyp) demo_layout
                        demo_ds demo_ds [5%Z; 1%Z] {["bleu"]} false
                        scored_world) in
  existsb is_decode_call (trace translated_world) = true /\
  existsb is_decode_call (drop (List.length (trace translated_world)) (trace w2))
    = false /\
  Forall (fun p => files (wfs w2) !! p = files (wfs translated_world) !! p)
    ["eval/translations/beam5/hyp.tok"; "eval/translations/beam5/hyp.txt";
     "eval/translations/beam5/src.txt"; "eval/translations/beam5/ref.txt";
     "eval/translations/beam1/hyp.tok"; "eval/translations/beam1/hyp.txt";
     "eval/translations/beam1/src.txt"; "eval/translations/beam1/ref.txt"] /\
  result_of (translate demo_self (demo_hooks good_hyp) demo_layout demo_ds
               demo_ds [5%Z; 1%Z] false translated_world) = Ok tt /\
  existsb is_score_call (trace scored_world) = true /\
  w3 = scored_world /\
  result_of (score demo_self (demo_hooks good_hyp) demo_layout demo_ds demo_ds
               [5%Z; 1%Z] {["bleu"]} false scored_world) = Ok tt.
Proof.
  vm_compute. repeat split; repeat constructor.
Qed.

(** C3 at beam 5 of the demo toolkit, decoded from the staged store. *)
Lemma decoded_unit_line_counts_witness :
  path_exists (path_join (beam_path demo_layout "" 5) "hyp.tok")
    (wfs staged_world) = false /\
  exists ref hyp,
    files (wfs (world_of
                  (translate_unit (demo_hooks good_hyp) demo_layout demo_ds
                     demo_ds false 0 "" None 5 staged_world)))
      !! path_join (beam_path demo_layout "" 5) "ref.txt" = Some ref /\
    files (wfs (world_of
                  (translate_unit (demo_hooks good_hyp) demo_layout demo_ds
                     demo_ds false 0 "" None 5 staged_world)))
      !! path_join (beam_path demo_layout "" 5) "hyp.txt" = Some hyp /\
    List.length (lines ref) = List.length (lines hyp).
Proof.
  assert (Hno : path_exists (path_join (beam_path demo_layout "" 5) "hyp.tok")
                  (wfs staged_world) = false) by (vm_compute; reflexivity).
  split; [exact Hno|].
  apply (decoded_unit_line_counts demo_self (demo_hooks good_hyp) demo_layout
           demo_ds demo_ds string demo_parser false 0 "" None 5%Z staged_world
           _ (or_intror Hno)).
  vm_compute. reflexivity.
Defined.

(** C3, the claim as stated, fails.  The decoder writes one line for two
    reference lines: the first [predict] raises ValueError at the check and
    leaves "hyp.tok" and "hyp.txt" behind; in the store it leaves, the same
    [translate] returns without raising, the unit still has 1 hypothesis
    line for 2 reference lines, and [score] runs the sacrebleu sub-routine
    on it and returns. *)
Lemma rerun_scores_unit_with_line_mismatch :
  let w2 := world_of (translate demo_self (demo_hooks short_hyp) demo_layout
                        demo_ds demo_ds [5%Z] false failed_world) in
  let r3 := score demo_self (demo_hooks short_hyp) demo_layout demo_ds demo_ds
              [5%Z] {["bleu"]} false w2 in
  result_of (predict_eval demo_self (demo_hooks short_hyp) demo_layout demo_ds
               demo_ds string demo_parser [5%Z] {["bleu"]} false demo_world)
    = Raise ValueError /\
  result_of (translate demo_self (demo_hooks short_hyp) demo_layout demo_ds
               demo_ds [5%Z] false failed_world) = Ok tt /\
  line_count "eval/translations/beam5/hyp.txt" w2 = Some 1 /\
  line_count "eval/translations/beam5/ref.txt" w2 = Some 2 /\
  result_of r3 = Ok tt /\
  trace (world_of r3) =
    trace w2 ++
    [Call_compute_sacrebleu "eval/translations/beam5/ref.txt"
       "eval/translations/beam5/hyp.txt"
       "eval/translations/beam5/scores/sacrebleu_scores.json" {["bleu"]}].
Proof. vm_compute. repeat split. Qed.

End Scenarios.

End BaseTranslatorFacts.

(** * Part V: further properties of the batch constructor *)

Module BatchExtras.
Import TranslationDataset TranslationDatasetFacts BatchRows.

Lemma nth_row_padded (pad : Z) (s : list Z) (m : nat) :
  List.length s <= m ->
  map (fun r => nth r s pad) (seq 0 m) = padded_row pad m s.
Proof.
  unfold padded_row. revert m. induction s as [|a s IH]; intros m Hm.
  - simpl. rewrite Nat.sub_0_r. clear Hm.
    generalize 0 at 1. induction m as [|m IHm]; intros k; simpl;
      [reflexivity|].
    rewrite IHm. destruct k; reflexivity.
  - destruct m as [|m]; [simpl in Hm; lia|].
    simpl. f_equal. rewrite <- seq_shift, map_map. simpl.
    apply IH. simpl in Hm. lia.
Qed.

Lemma length_le_max_len (seqs : list (list Z)) (s : list Z) :
  In s seqs -> List.length s <= max_len seqs.
Proof.
  unfold max_len. induction seqs as [|t seqs IH]; simpl; [tauto|].
  intros [->|Hin]; [lia|]. specialize (IH Hin). lia.
Qed.

Lemma map_nth_seq {A} (l : list A) (d : A) :
  map (fun j => nth j l d) (seq 0 (List.length l)) = l.
Proof.
  induction l as [|a l IH]; [reflexivity|].
  simpl. f_equal. rewrite <- seq_shift, map_map. exact IH.
Qed.

Lemma nth_map_in {A B} (f : A -> B) (l : list A) (n : nat) (d : B) (d' : A) :
  n < List.length l -> nth n (map f l) d = f (nth n l d').
Proof.
  intros Hn. rewrite (nth_indep _ d (f d')) by (rewrite length_map; lia).
  apply map_nth.
Qed.

Lemma pad_sequence_some (seqs : list (list Z)) (pad : Z) :
  seqs <> [] ->
  pad_sequence seqs pad =
    Ok (Tensor2 (max_len seqs) (List.length seqs)
          (map (fun r => map (fun s => nth r s pad) seqs) (seq 0 (max_len seqs)))).
Proof. destruct seqs; [congruence|reflexivity]. Qed.

(** The cells of the transposed [pad_sequence]: one padded row per
    sequence. *)
Lemma transpose_pad_sequence_cells (seqs : list (list Z)) (pad : Z) (t : tensor2) :
  pad_sequence seqs pad = Ok t ->
  cells (transpose t) = map (padded_row pad (max_len seqs)) seqs.
Proof.
  intros Hp. pose proof (pad_sequence_shape _ _ _ Hp) as (Hne & _ & _).
  rewrite (pad_sequence_some _ _ Hne) in Hp. injection Hp as <-.
  unfold transpose. cbn [shape0 shape1 cells].
  transitivity (map (padded_row pad (max_len seqs))
                    (map (fun j => nth j seqs []) (seq 0 (List.length seqs))));
    [|rewrite map_nth_seq; reflexivity].
  rewrite map_map.
  apply map_ext_in. intros j Hj. apply in_seq in Hj.
  rewrite <- nth_row_padded.
  2: { apply length_le_max_len, nth_In. lia. }
  apply map_ext_in. intros r Hr. apply in_seq in Hr.
  rewrite (nth_map_in _ _ _ [] 0) by (rewrite length_seq; lia).
  rewrite seq_nth by lia. rewrite Nat.add_0_l.
  apply (nth_map_in (fun s => nth r s pad)). lia.
Qed.

Lemma running_max_mono (m0 : nat) (lens : list nat) (i j : nat) :
  i <= j -> running_max m0 lens i <= running_max m0 lens j.
Proof.
  unfold running_max. intros Hij.
  revert i j Hij. induction lens as [|a lens IH]; intros i j Hij.
  - simpl. lia.
  - simpl. destruct i as [|i], j as [|j]; simpl; try lia.
    + specialize (IH 0 j ltac:(lia)). destruct lens; simpl in *; lia.
    + specialize (IH i j ltac:(lia)). simpl in IH. lia.
Qed.

Lemma within_budget_mono_budget (B B' : Z) (i a b : nat) :
  (B <= B')%Z ->
  within_budget (Some B) i a b = true -> within_budget (Some B') i a b = true.
Proof.
  unfold within_budget. rewrite !Z.leb_le. lia.
Qed.

Section BatchFacts.

Variable src_encode : string -> list Z.
Variable trg_encode : string -> list Z.
Variable src_pad_id : Z.
Variable trg_pad_id : Z.

Lemma max_len_prefix_src (batch : list (string * string)) (k : nat) :
  max_len (map (fun p => src_encode (fst p)) (firstn k batch)) =
  fold_right Nat.max 0 (firstn k (src_lens src_encode batch)).
Proof.
  unfold max_len, src_lens. rewrite map_map, firstn_map. reflexivity.
Qed.

Lemma max_len_prefix_trg (batch : list (string * string)) (k : nat) :
  max_len (map (fun p => trg_encode (snd p)) (firstn k batch)) =
  fold_right Nat.max 0 (firstn k (trg_lens trg_encode batch)).
Proof.
  unfold max_len, trg_lens. rewrite map_map, firstn_map. reflexivity.
Qed.

Lemma collate_fn_cells (batch : list (string * string)) (mt : option Z)
    (xp yp : tensor2) :
  snd (collate_fn src_encode trg_encode src_pad_id trg_pad_id batch mt)
    = Ok (xp, yp) ->
  let k := accepted_count src_encode trg_encode batch mt in
  cells xp =
    map (fun p => padded_row src_pad_id (shape1 xp) (src_encode (fst p)))
        (firstn k batch) /\
  cells yp =
    map (fun p => padded_row trg_pad_id (shape1 yp) (trg_encode (snd p)))
        (firstn k batch) /\
  shape1 xp = fold_right Nat.max 0 (firstn k (src_lens src_encode batch)) /\
  shape1 yp = fold_right Nat.max 0 (firstn k (trg_lens trg_encode batch)) /\
  Forall (fun row => List.length row = shape1 xp) (cells xp) /\
  Forall (fun row => List.length row = shape1 yp) (cells yp).
Proof.
  intros Hr k.
  destruct (collate_fn_shapes _ _ _ _ _ _ _ _ Hr) as (_ & _ & Hsx & Hsy & _).
  destruct (run_loop_prefix src_encode trg_encode batch mt)
    as (_ & Hx & Hy & _). fold k in Hx, Hy.
  rewrite collate_fn_closed_form in Hr. cbn [snd] in Hr.
  destruct (pad_sequence (x_encoded (run_loop src_encode trg_encode batch mt))
              src_pad_id) as [xq|e] eqn:Hxq; [|discriminate].
  destruct (pad_sequence (y_encoded (run_loop src_encode trg_encode batch mt))
              trg_pad_id) as [yq|e] eqn:Hyq; [|discriminate].
  injection Hr as <- <-.
  apply transpose_pad_sequence_cells in Hxq, Hyq.
  assert (Hcx : cells (transpose xq) =
                map (fun p => padded_row src_pad_id (shape1 (transpose xq))
                                (src_encode (fst p))) (firstn k batch)).
  { rewrite Hxq, Hsx, Hx, map_map. reflexivity. }
  assert (Hcy : cells (transpose yq) =
                map (fun p => padded_row trg_pad_id (shape1 (transpose yq))
                                (trg_encode (snd p))) (firstn k batch)).
  { rewrite Hyq, Hsy, Hy, map_map. reflexivity. }
  assert (Hwx : shape1 (transpose xq) =
                fold_right Nat.max 0 (firstn k (src_lens src_encode batch))).
  { rewrite Hsx, Hx. apply max_len_prefix_src. }
  assert (Hwy : shape1 (transpose yq) =
                fold_right Nat.max 0 (firstn k (trg_lens trg_encode batch))).
  { rewrite Hsy, Hy. apply max_len_prefix_trg. }
  split; [exact Hcx|]. split; [exact Hcy|].
  split; [exact Hwx|]. split; [exact Hwy|].
  split.
  - rewrite Hcx. apply List.Forall_forall. intros row Hrow.
    apply in_map_iff in Hrow as (p & <- & Hp).
    unfold padded_row. rewrite length_app, repeat_length.
    assert (List.length (src_encode (fst p)) <= shape1 (transpose xq)); [|lia].
    rewrite Hsx, Hx. apply length_le_max_len.
    apply in_map_iff. exists p. auto.
  - rewrite Hcy. apply List.Forall_forall. intros row Hrow.
    apply in_map_iff in Hrow as (p & <- & Hp).
    unfold padded_row. rewrite length_app, repeat_length.
    assert (List.length (trg_encode (snd p)) <= shape1 (transpose yq)); [|lia].
    rewrite Hsy, Hy. apply length_le_max_len.
    apply in_map_iff. exists p. auto.
Qed.

(** X1.  Every row of the two arrays [collate_fn] returns is the encoded
    sequence of its sample, in batch order, followed by the fill id of its
    side up to the width of the array; the width is the longest accepted
    sequence of that side. *)
Theorem collate_fn_rows (batch : list (string * string)) (mt : option Z)
    (xp yp : tensor2) :
  snd (collate_fn src_encode trg_encode src_pad_id trg_pad_id batch mt)
    = Ok (xp, yp) ->
  let k := accepted_count src_encode trg_encode batch mt in
  cells xp =
    map (fun p => padded_row src_pad_id (shape1 xp) (src_encode (fst p)))
        (firstn k batch) /\
  cells yp =
    map (fun p => padded_row trg_pad_id (shape1 yp) (trg_encode (snd p)))
        (firstn k batch) /\
  shape1 xp = fold_right Nat.max 0 (firstn k (src_lens src_encode batch)) /\
  shape1 yp = fold_right Nat.max 0 (firstn k (trg_lens trg_encode batch)) /\
  Forall (fun row => List.length row = shape1 xp) (cells xp) /\
  Forall (fun row => List.length row = shape1 yp) (cells yp).
Proof. apply collate_fn_cells. Qed.

(** X2.  The number of cells returned is exactly the estimate the loop
    tested at the last accepted sample: accepted count times the sum of the
    two running maxima there. *)
Theorem collate_fn_numel_is_last_estimate (batch : list (string * string))
    (mt : option Z) (xp yp : tensor2) :
  snd (collate_fn src_encode trg_encode src_pad_id trg_pad_id batch mt)
    = Ok (xp, yp) ->
  let k := accepted_count src_encode trg_encode batch mt in
  1 <= k /\
  numel xp + numel yp =
    (Nat.pred k + 1) *
    (running_max 0 (src_lens src_encode batch) (Nat.pred k) +
     running_max 0 (trg_lens trg_encode batch) (Nat.pred k)).
Proof.
  intros Hr k.
  assert (Hk : 1 <= k).
  { apply collate_fn_ok_iff with (src_pad_id := src_pad_id)
                                 (trg_pad_id := trg_pad_id).
    rewrite Hr. reflexivity. }
  split; [exact Hk|].
  destruct (collate_fn_shapes _ _ _ _ _ _ _ _ Hr) as (H0x & H0y & Hsx & Hsy & _).
  destruct (run_loop_prefix src_encode trg_encode batch mt)
    as (_ & Hx & Hy & _). fold k in Hx, Hy, H0x, H0y.
  unfold numel, running_max. rewrite H0x, H0y, Hsx, Hsy, Hx, Hy.
  rewrite max_len_prefix_src, max_len_prefix_trg.
  replace (S (Nat.pred k)) with k by lia.
  replace (Nat.pred k + 1) with k by lia. lia.
Qed.

(** X3.  The acceptance test never recovers: once a sample fails it, every
    later index fails it too, so the samples dropped after the first
    rejection would all have been rejected. *)
Theorem accepts_antitone (batch : list (string * string)) (mt : option Z)
    (i j : nat) :
  accepts src_encode trg_encode batch mt i = false ->
  i <= j ->
  accepts src_encode trg_encode batch mt j = false.
Proof.
  unfold accepts, within_budget. destruct mt as [B|]; [|discriminate].
  rewrite !Z.leb_gt. intros Hi Hij.
  pose proof (running_max_mono 0 (src_lens src_encode batch) i j Hij).
  pose proof (running_max_mono 0 (trg_lens trg_encode batch) i j Hij).
  nia.
Qed.

(** X4.  A larger budget never accepts fewer samples, and no budget accepts
    the most. *)
Theorem accepted_count_monotone (batch : list (string * string)) (B B' : Z) :
  (B <= B')%Z ->
  accepted_count src_encode trg_encode batch (Some B)
    <= accepted_count src_encode trg_encode batch (Some B') /\
  accepted_count src_encode trg_encode batch (Some B')
    <= accepted_count src_encode trg_encode batch None.
Proof.
  intros HB.
  destruct (run_loop_prefix src_encode trg_encode batch (Some B))
    as (Hk & _ & _ & Hacc & _).
  destruct (run_loop_prefix src_encode trg_encode batch (Some B'))
    as (Hk' & _ & _ & _ & Hrej' & _).
  destruct (run_loop_prefix src_encode trg_encode batch None)
    as (_ & _ & _ & _ & HrejN & _).
  set (k := accepted_count src_encode trg_encode batch (Some B)) in *.
  set (k' := accepted_count src_encode trg_encode batch (Some B')) in *.
  set (n := accepted_count src_encode trg_encode batch None) in *.
  split.
  - destruct (Nat.le_gt_cases k k') as [Hle|Hlt]; [exact Hle|].
    destruct (Hrej' ltac:(lia)) as [Hf _].
    specialize (Hacc k' Hlt). unfold accepts in Hacc, Hf.
    rewrite (within_budget_mono_budget _ _ _ _ _ HB Hacc) in Hf. discriminate.
  - destruct (Nat.le_gt_cases (List.length batch) n) as [Hle|Hlt]; [lia|].
    destruct (HrejN Hlt) as [Hf _]. discriminate Hf.
Qed.

(** X5.  [collate_fn] prints at most one warning, and prints it exactly
    when it drops samples. *)
Theorem collate_fn_warns_iff_dropped (batch : list (string * string))
    (mt : option Z) :
  let printed :=
    fst (collate_fn src_encode trg_encode src_pad_id trg_pad_id batch mt) in
  let k := accepted_count src_encode trg_encode batch mt in
  List.length printed <= 1 /\
  (printed = [] <-> k = List.length batch) /\
  (forall wn, In wn printed -> warn_max_tokens wn = mt /\ k < List.length batch).
Proof.
  intros printed0 k.
  destruct (run_loop_prefix src_encode trg_encode batch mt)
    as (Hk & _ & _ & _ & Hrej & Hall). fold k in Hk, Hrej, Hall.
  assert (Hp : printed0 = TranslationDataset.printed
                            (run_loop src_encode trg_encode batch mt))
    by reflexivity.
  destruct (Nat.eq_dec k (List.length batch)) as [Heq|Hne].
  - rewrite Hp, (Hall Heq). simpl. split; [lia|]. split; [tauto|].
    intros wn [].
  - destruct (Hrej ltac:(lia)) as [_ Hpr]. rewrite Hp, Hpr. simpl.
    split; [lia|]. split.
    + split; [discriminate|]. intros Hc. contradiction.
    + intros wn [<-|[]]. simpl. split; [reflexivity|lia].
Qed.


End BatchFacts.

(** The three pairs with budget 14: two rows, source width 3, target
    width 2. *)
Lemma collate_fn_rows_witness :
  snd (collate_fn Scenario.char_encode Scenario.char_encode 0%Z 1%Z
         Scenario.three_pairs (Some 14%Z))
  = Ok (Tensor2 2 3 [[97; 98; 0]; [97; 98; 99]]%Z,
        Tensor2 2 2 [[99; 100]; [100; 1]]%Z) /\
  cells (Tensor2 2 3 [[97; 98; 0]; [97; 98; 99]]%Z) =
    map (fun p => padded_row 0%Z 3 (Scenario.char_encode (fst p)))
        (firstn 2 Scenario.three_pairs).
Proof.
  assert (Hr : snd (collate_fn Scenario.char_encode Scenario.char_encode 0%Z 1%Z
                      Scenario.three_pairs (Some 14%Z))
               = Ok (Tensor2 2 3 [[97; 98; 0]; [97; 98; 99]]%Z,
                     Tensor2 2 2 [[99; 100]; [100; 1]]%Z))
    by (vm_compute; reflexivity).
  split; [exact Hr|].
  exact (proj1 (collate_fn_rows Scenario.char_encode Scenario.char_encode
                  0%Z 1%Z Scenario.three_pairs (Some 14%Z) _ _ Hr)).
Defined.

Lemma collate_fn_numel_is_last_estimate_witness :
  snd (collate_fn Scenario.char_encode Scenario.char_encode 0%Z 1%Z
         Scenario.three_pairs (Some 14%Z))
  = Ok (Tensor2 2 3 [[97; 98; 0]; [97; 98; 99]]%Z,
        Tensor2 2 2 [[99; 100]; [100; 1]]%Z) /\
  1 <= accepted_count Scenario.char_encode Scenario.char_encode
         Scenario.three_pairs (Some 14%Z).
Proof.
  assert (Hr : snd (collate_fn Scenario.char_encode Scenario.char_encode 0%Z 1%Z
                      Scenario.three_pairs (Some 14%Z))
               = Ok (Tensor2 2 3 [[97; 98; 0]; [97; 98; 99]]%Z,
                     Tensor2 2 2 [[99; 100]; [100; 1]]%Z))
    by (vm_compute; reflexivity).
  split; [exact Hr|].
  exact (proj1 (collate_fn_numel_is_last_estimate Scenario.char_encode
                  Scenario.char_encode 0%Z 1%Z Scenario.three_pairs
                  (Some 14%Z) _ _ Hr)).
Defined.

Lemma accepts_antitone_witness :
  accepts Scenario.char_encode Scenario.char_encode Scenario.three_pairs
    (Some 9%Z) 1 = false /\
  1 <= 2 /\
  accepts Scenario.char_encode Scenario.char_encode Scenario.three_pairs
    (Some 9%Z) 2 = false.
Proof.
  assert (Hf : accepts Scenario.char_encode Scenario.char_encode
                 Scenario.three_pairs (Some 9%Z) 1 = false)
    by (vm_compute; reflexivity).
  assert (Hle : 1 <= 2) by lia.
  split; [exact Hf|]. split; [exact Hle|].
  exact (accepts_antitone Scenario.char_encode Scenario.char_encode
           Scenario.three_pairs (Some 9%Z) 1 2 Hf Hle).
Defined.

Lemma accepted_count_monotone_witness :
  (9 <= 14)%Z /\
  accepted_count Scenario.char_encode Scenario.char_encode
    Scenario.three_pairs (Some 9%Z)
  <= accepted_count Scenario.char_encode Scenario.char_encode
       Scenario.three_pairs (Some 14%Z).
Proof.
  assert (HB : (9 <= 14)%Z) by lia.
  split; [exact HB|].
  exact (proj1 (accepted_count_monotone Scenario.char_encode
                  Scenario.char_encode Scenario.three_pairs 9%Z 14%Z HB)).
Defined.

End BatchExtras.

(** * Part VI: properties of the dataset class *)

Module DatasetExtras.
Import TranslationDatasetClass.

Lemma list_getitem_in_range {A} (l : list A) (idx : Z) :
  (- Z.of_nat (List.length l) <= idx < Z.of_nat (List.length l))%Z ->
  exists a,
    list_getitem l idx = Item a /\
    nth_error l (Z.to_nat (idx mod Z.of_nat (List.length l))) = Some a.
Proof.
  intros Hr. unfold list_getitem.
  set (n := Z.of_nat (List.length l)) in *.
  assert (Hi : (if (idx <? 0)%Z then (idx + n)%Z else idx) = (idx mod n)%Z).
  { destruct (idx <? 0)%Z eqn:Hneg.
    - apply Z.ltb_lt in Hneg.
      apply (Z.mod_unique_pos idx n (-1)); lia.
    - apply Z.ltb_ge in Hneg. symmetry. apply Z.mod_small. lia. }
  rewrite Hi.
  assert (Hm : (0 <= idx mod n < n)%Z) by (apply Z.mod_pos_bound; lia).
  replace ((0 <=? idx mod n)%Z && (idx mod n <? n)%Z) with true
    by (symmetry; apply andb_true_intro; split;
        [apply Z.leb_le|apply Z.ltb_lt]; lia).
  destruct (nth_error l (Z.to_nat (idx mod n))) as [a|] eqn:Hn; [eauto|].
  apply nth_error_None in Hn. unfold n in *. lia.
Qed.

Lemma list_getitem_out_of_range {A} (l : list A) (idx : Z) :
  (idx < - Z.of_nat (List.length l) \/ Z.of_nat (List.length l) <= idx)%Z ->
  list_getitem l idx = IndexError.
Proof.
  intros Hr. unfold list_getitem.
  set (n := Z.of_nat (List.length l)) in *.
  destruct (idx <? 0)%Z eqn:Hneg.
  - apply Z.ltb_lt in Hneg.
    replace (0 <=? idx + n)%Z with false; [reflexivity|].
    symmetry. apply Z.leb_gt. unfold n in *. lia.
  - apply Z.ltb_ge in Hneg.
    replace (idx <? n)%Z with false; [rewrite andb_false_r; reflexivity|].
    symmetry. apply Z.ltb_ge. lia.
Qed.

(** X7.  A dataset that [__init__] returns has as many source as target
    lines; [__getitem__] then returns the aligned pair for every index from
    [-len] to [len - 1], a negative index counting from the end, and raises
    IndexError for every other index; its lines are the lines read from
    the two files of the stripped prefix. *)
Theorem dataset_items_aligned
    (read_file_lines : string -> outcome (list string))
    (file_prefix src_lang trg_lang : string) (ds : translation_dataset) :
  __init__ read_file_lines file_prefix src_lang trg_lang = Ok ds ->
  let n := Z.of_nat (__len__ ds) in
  List.length (src_lines ds) = List.length (trg_lines ds) /\
  (forall idx, (- n <= idx < n)%Z ->
     exists s t,
       __getitem__ ds idx = Item (s, t) /\
       nth_error (src_lines ds) (Z.to_nat (idx mod n)) = Some s /\
       nth_error (trg_lines ds) (Z.to_nat (idx mod n)) = Some t) /\
  (forall idx, (idx < - n \/ n <= idx)%Z -> __getitem__ ds idx = IndexError) /\
  (forall src trg,
     read_file_lines (BaseTranslator.strip file_prefix ++ "." ++ src_lang)%string
       = Ok src ->
     read_file_lines (BaseTranslator.strip file_prefix ++ "." ++ trg_lang)%string
       = Ok trg ->
     src_lines ds = src /\ trg_lines ds = trg).
Proof.
  unfold __init__. cbv zeta.
  destruct (read_file_lines _) as [src|e] eqn:Hs; [|discriminate].
  destruct (read_file_lines (BaseTranslator.strip file_prefix ++ "." ++ trg_lang)%string)
    as [trg|e] eqn:Ht; [|discriminate].
  destruct (Nat.eqb (List.length src) (List.length trg)) eqn:Hlen; [|discriminate].
  intros [= <-]. apply Nat.eqb_eq in Hlen. unfold __len__, __getitem__.
  cbn [src_lines trg_lines].
  split; [exact Hlen|]. split; [|split].
  - intros idx Hr.
    destruct (list_getitem_in_range src idx Hr) as (s & Hgs & Hns).
    assert (Hr' : (- Z.of_nat (List.length trg) <= idx
                   < Z.of_nat (List.length trg))%Z) by lia.
    destruct (list_getitem_in_range trg idx Hr') as (t & Hgt & Hnt).
    exists s, t. rewrite Hgs, Hgt. rewrite <- Hlen in Hnt. auto.
  - intros idx Hr. rewrite (list_getitem_out_of_range src idx Hr). reflexivity.
  - intros src' trg' [= <-] [= <-]. auto.
Qed.

Lemma dataset_items_aligned_witness :
  __init__ demo_read " corpus/test " "de" "en"
    = Ok (TDataset ["guten tag"; "danke"] ["good day"; "thanks"] "de" "en") /\
  __getitem__ (TDataset ["guten tag"; "danke"] ["good day"; "thanks"] "de" "en")
    (-1) = Item ("danke", "thanks").
Proof.
  assert (Hi : __init__ demo_read " corpus/test " "de" "en"
               = Ok (TDataset ["guten tag"; "danke"] ["good day"; "thanks"]
                       "de" "en")) by (vm_compute; reflexivity).
  split; [exact Hi|].
  destruct (dataset_items_aligned demo_read " corpus/test " "de" "en" _ Hi)
    as (_ & Hin & _).
  destruct (Hin (-1)%Z ltac:(vm_compute; split; [discriminate|reflexivity]))
    as (s & t & Hg & Hs & Ht).
  vm_compute in Hs, Ht. injection Hs as <-. injection Ht as <-. exact Hg.
Defined.

End DatasetExtras.

(** * Part VII: further properties of the stage controller *)

Module ControllerExtras.
Import BaseTranslator BaseTranslatorFacts ControllerVocabulary.

Section StageErrors.

Variable self : translator.
Variable H : hooks.
Variable L : layout.
Variable model_ds : dataset.
Variable eval_ds : dataset.
Variable value : Type.
Variable m_parser : string -> list string -> outcome (parsed value).




End StageErrors.


(** ** The metric check and the tool tables *)

(** X9.  The set [_check_supported_metrics] returns is a subset of the
    request, is all of it when every name is supported, and is a fixed
    point: checking the returned set again returns it unchanged and prints
    nothing. *)
Theorem check_supported_metrics_fixed_point (metrics supported : gset string)
    (w : world) :
  let valid := metrics_valid_of metrics supported in
  valid ⊆ metrics /\
  (metrics ⊆ supported -> valid = metrics) /\
  _check_supported_metrics valid supported w = (w, Ok valid).
Proof.
  intros valid.
  assert (Hsub : valid ⊆ metrics).
  { intros m Hm. apply elem_of_metrics_valid in Hm. tauto. }
  assert (Hfix : metrics_valid_of valid supported = valid).
  { apply set_eq. intros m. unfold valid.
    rewrite !elem_of_metrics_valid. tauto. }
  split; [exact Hsub|]. split.
  - intros Hall. apply set_eq. intros m. unfold valid.
    rewrite elem_of_metrics_valid. split; [tauto|].
    intros Hm. split; [exact Hm|left; apply Hall, Hm].
  - rewrite check_supported_metrics_run. unfold check_prints. rewrite Hfix.
    rewrite bool_decide_eq_false_2.
    + rewrite app_nil_r. destruct w; reflexivity.
    + intros Hne. apply Hne. apply set_eq. intros m.
      rewrite elem_of_difference. split; [tauto|].
      intros Hm. apply not_elem_of_empty in Hm. contradiction.
Qed.

Lemma metric_tool_some_iff_valid (m : string) :
  is_Some (metric_tool m) <-> m ∈ dom METRICS2TOOL \/ is_hg m.
Proof.
  unfold metric_tool, is_hg. destruct (startswith m "hg_").
  - split; [auto|eauto].
  - rewrite elem_of_dom. split; [auto|]. intros [Hm|Hm]; [exact Hm|discriminate].
Qed.

(** X10.  The tools [_get_metrics_tool] returns: it distributes over the
    union of requests, every tool it returns has an entry in [TOOL_PARSERS]
    (so the lookup of [parse_metrics] never fails), and it returns no tool
    exactly when the metric check leaves no valid metric. *)
Theorem get_metrics_tool_union (A B : gset string) :
  _get_metrics_tool (A ∪ B) = _get_metrics_tool A ∪ _get_metrics_tool B /\
  _get_metrics_tool A ⊆ dom TOOL_PARSERS /\
  (_get_metrics_tool A = ∅ <-> metrics_valid_of A (dom METRICS2TOOL) = ∅).
Proof.
  split; [|split].
  - apply set_eq. intros t.
    rewrite elem_of_union, !elem_of_get_metrics_tool. split.
    + intros (m & Hm & Ht). apply elem_of_union in Hm as [Hm|Hm]; eauto.
    + intros [(m & Hm & Ht)|(m & Hm & Ht)]; exists m;
        (split; [apply elem_of_union; auto|exact Ht]).
  - apply get_metrics_tool_in_table.
  - split.
    + intros He. apply set_eq. intros m. split.
      * intros Hm. apply elem_of_metrics_valid in Hm as [Hm Hv].
        apply metric_tool_some_iff_valid in Hv as [t Ht].
        assert (Hin : t ∈ _get_metrics_tool A)
          by (apply elem_of_get_metrics_tool; eauto).
        rewrite He in Hin. apply not_elem_of_empty in Hin. contradiction.
      * intros Hm. apply not_elem_of_empty in Hm. contradiction.
    + intros He. apply set_eq. intros t. split.
      * intros (m & Hm & Ht)%elem_of_get_metrics_tool.
        assert (Hin : m ∈ metrics_valid_of A (dom METRICS2TOOL)).
        { apply elem_of_metrics_valid. split; [exact Hm|].
          apply metric_tool_some_iff_valid. eauto. }
        rewrite He in Hin. apply not_elem_of_empty in Hin. contradiction.
      * intros Ht. apply not_elem_of_empty in Ht. contradiction.
Qed.

Lemma METRICS2TOOL_spec (m t : string) :
  METRICS2TOOL !! m = Some t <-> m ∈ tool_metrics t.
Proof.
  split.
  - revert m t.
    change (map_Forall (fun m t => m ∈ tool_metrics t) METRICS2TOOL).
    apply (bool_decide_unpack _). vm_compute. exact I.
  - unfold tool_metrics. destruct (TOOL2METRICS !! t) as [S|] eqn:Ht; simpl.
    + revert m.
      change (set_Forall (fun m => METRICS2TOOL !! m = Some t) S).
      revert t S Ht.
      change (map_Forall
                (fun t S => set_Forall (fun m => METRICS2TOOL !! m = Some t) S)
                TOOL2METRICS).
      apply (bool_decide_unpack _). vm_compute. exact I.
    + intros Hm. apply not_elem_of_empty in Hm. contradiction.
Qed.

Lemma supported_not_hg (m : string) :
  m ∈ dom METRICS2TOOL -> startswith m "hg_" = false.
Proof.
  revert m.
  change (set_Forall (fun m => startswith m "hg_" = false) (dom METRICS2TOOL)).
  apply (bool_decide_unpack _). vm_compute. exact I.
Qed.

Lemma tool_requested_true (t : string) (metrics : gset string) :
  tool_requested t metrics = true <->
  exists m, m ∈ metrics /\ METRICS2TOOL !! m = Some t.
Proof.
  unfold tool_requested. rewrite bool_decide_eq_true. split.
  - intros Hne. apply set_choose_L in Hne as [m Hm].
    apply elem_of_intersection in Hm as [Ht Hm].
    exists m. split; [exact Hm|]. apply METRICS2TOOL_spec, Ht.
  - intros (m & Hm & Ht) He.
    assert (Hin : m ∈ tool_metrics t ∩ metrics).
    { apply elem_of_intersection. split; [|exact Hm].
      apply METRICS2TOOL_spec, Ht. }
    rewrite He in Hin. apply not_elem_of_empty in Hin. contradiction.
Qed.

Lemma hg_metrics_nonempty (metrics : gset string) :
  hg_metrics_of metrics ≠ ∅ <->
  exists m, m ∈ metrics /\ startswith m "hg_" = true.
Proof.
  split.
  - intros Hne. apply set_choose_L in Hne as [r Hr].
    apply elem_of_hg_metrics in Hr as (x & Hx & Hs & _). eauto.
  - intros (m & Hm & Hs) He.
    assert (Hin : slice_from 3 m ∈ hg_metrics_of metrics)
      by (apply elem_of_hg_metrics; eauto).
    rewrite He in Hin. apply not_elem_of_empty in Hin. contradiction.
Qed.

Lemma get_metrics_tool_blocks (metrics : gset string) (t : string) :
  t ∈ _get_metrics_tool metrics <->
  tool_requested t metrics = true \/
  (t = "huggingface" /\ hg_metrics_of metrics ≠ ∅).
Proof.
  rewrite elem_of_get_metrics_tool, tool_requested_true, hg_metrics_nonempty.
  unfold metric_tool. split.
  - intros (m & Hm & Ht). destruct (startswith m "hg_") eqn:Hs.
    + injection Ht as <-. right. eauto.
    + left. eauto.
  - intros [(m & Hm & Ht)|(-> & m & Hm & Hs)]; exists m; (split; [exact Hm|]).
    + rewrite supported_not_hg; [exact Ht|]. apply elem_of_dom. eauto.
    + rewrite Hs. reflexivity.
Qed.

Section ControllerRuns.

Variable self : translator.
Variable H : hooks.
Variable L : layout.
Variable model_ds : dataset.
Variable eval_ds : dataset.

(** X11.  The blocks of [score] and the tools of [_get_metrics_tool]: a
    tool is among the tools [parse_metrics] reads exactly when it has a
    requested metric in [TOOL2METRICS] or it is "huggingface" and a metric
    with the prefix "hg_" is requested.  [score] has no block for "beer":
    a request for "beer" passes the metric check and makes "beer" a tool
    to parse, and when no other tool is requested the body of [score] calls
    no scoring tool and leaves the world as it is. *)
Theorem score_blocks_match_tools (metrics : gset string) :
  (forall t, t ∈ _get_metrics_tool metrics <->
             tool_requested t metrics = true \/
             (t = "huggingface" /\ hg_metrics_of metrics ≠ ∅)) /\
  ("beer" ∈ metrics ->
   "beer" ∈ metrics_valid_of metrics (dom METRICS2TOOL) /\
   "beer" ∈ _get_metrics_tool metrics) /\
  (_get_metrics_tool metrics ⊆ {["beer"]} ->
   forall fo fn beam w,
     score_tools H L model_ds metrics fo fn beam w = (w, Ok tt)).
Proof.
  split; [intros t; apply get_metrics_tool_blocks|]. split.
  - intros Hb. split.
    + apply elem_of_metrics_valid. split; [exact Hb|]. left.
      apply (bool_decide_unpack _). vm_compute. exact I.
    + apply elem_of_get_metrics_tool. exists "beer". split; [exact Hb|].
      vm_compute. reflexivity.
  - intros Hsub fo fn beam w.
    assert (Hoff : forall t, t <> "beer" -> tool_requested t metrics = false).
    { intros t Hne. destruct (tool_requested t metrics) eqn:Hr; [|reflexivity].
      exfalso. apply Hne.
      assert (Hin : t ∈ _get_metrics_tool metrics)
        by (apply get_metrics_tool_blocks; auto).
      apply Hsub, elem_of_singleton in Hin. exact Hin. }
    assert (Hhg : bool_decide (hg_metrics_of metrics ≠ ∅) = false).
    { apply bool_decide_eq_false. intros Hne.
      assert (Hin : "huggingface" ∈ _get_metrics_tool metrics)
        by (apply get_metrics_tool_blocks; auto).
      apply Hsub, elem_of_singleton in Hin. discriminate. }
    unfold score_tools. cbv zeta.
    rewrite !Hoff, Hhg by discriminate. reflexivity.
Qed.

(** ** What a stage that returned has left behind *)

Hypothesis Hkeep : hooks_keep H.
Hypothesis Hmark : hooks_mark H.

Lemma decode_unit_texts (fo : bool) (i : nat) (fn : string)
    (filter : option filter_fn) (beam : Z) (w w' : world) :
  decode_unit H L model_ds eval_ds fo i fn filter beam w = (w', Ok tt) ->
  unit_texts_present L fn beam (wfs w') = true.
Proof.
  unfold decode_unit. cbv zeta. intros Hr.
  apply bind_inv_ok in Hr as (w1 & [] & _ & Hr).
  apply bind_inv_ok in Hr as (w2 & [] & Hstep & Hr).
  assert (Hsrc : path_exists (path_join (beam_path L fn beam) "src.txt")
                   (wfs w2) = true).
  { destruct filter as [f|].
    - apply bind_inv_ok in Hstep as (wa & [] & _ & Hstep).
      apply bind_inv_ok in Hstep as (wb & sl & _ & Hstep).
      apply bind_inv_ok in Hstep as (wc & tl & _ & Hstep).
      destruct (f sl tl) as [sl' tl'].
      apply bind_inv_ok in Hstep as (wd & [] & Hw1 & Hw2).
      unfold write_file_lines in Hw1, Hw2.
      injection Hw1 as <-. injection Hw2 as <-. simpl.
      apply write_file_grows, write_file_exists.
    - apply bind_inv_ok in Hstep as (wa & [] & Hc1 & Hc2).
      unfold copyfile in Hc1, Hc2.
      destruct (files (wfs w1) !! _) in Hc1; [|discriminate].
      injection Hc1 as <-. simpl in Hc2.
      destruct (_ !! _) in Hc2; [|discriminate].
      injection Hc2 as <-. simpl.
      apply write_file_grows, write_file_exists. }
  match type of Hr with
  | ?m w2 = _ =>
      assert (Hg : respects files_grow m) by (repeat respects_step; apply Hkeep)
  end.
  apply (Hg _ _ _ Hr) in Hsrc.
  apply bind_inv_ok in Hr as (w3 & [] & _ & Hr).
  apply bind_inv_ok in Hr as (w4 & [] & _ & Hr).
  apply check_line_counts_ok_inv in Hr as [-> (ref & hyp & Href & Hhyp & _)].
  unfold unit_texts_present. cbn [forallb].
  rewrite Hsrc. simpl.
  rewrite !andb_true_iff. repeat split; apply path_exists_true; eauto.
Qed.

Lemma translate_unit_texts (i : nat) (fn : string)
    (filter : option filter_fn) (beam : Z) (w w' : world) :
  translate_unit H L model_ds eval_ds true i fn filter beam w = (w', Ok tt) ->
  unit_texts_present L fn beam (wfs w') = true.
Proof. rewrite translate_unit_run. simpl. apply decode_unit_texts. Qed.

Lemma translate_units_texts (beams : list Z) (w w' : world) :
  translate_units self H L model_ds eval_ds beams true w = (w', Ok tt) ->
  forall fn f beam,
    (fn, f) ∈ filter_ts_data_fn self -> beam ∈ beams ->
    unit_texts_present L fn beam (wfs w') = true.
Proof.
  intros Hr fn f beam Hfn Hb.
  assert (Hin : exists i, (i, (fn, f)) ∈ enumerate (filter_ts_data_fn self)).
  { apply list_elem_of_lookup in Hfn as [i Hi]. exists i.
    unfold enumerate. apply list_elem_of_lookup. exists i.
    apply lookup_zip_with_Some. exists i, (fn, f).
    split; [reflexivity|]. split; [|exact Hi].
    apply lookup_seq. split; [reflexivity|].
    apply lookup_lt_Some in Hi. exact Hi. }
  destruct Hin as [i Hi].
  pose proof (for_each_post (enumerate (filter_ts_data_fn self))
                (fun '(i, (fn_name, filter)) =>
                   for_each beams
                     (fun beam =>
                        translate_unit H L model_ds eval_ds true i fn_name
                          filter beam))
                (fun a s => forall b, b ∈ beams ->
                              unit_texts_present L (fst (snd a)) b s = true))
    as Hpost.
  refine (Hpost _ _ _ w w' Hr (i, (fn, f)) Hi beam Hb).
  - intros [j [g h]]. apply respects_for_each;
      [exact files_grow_refl | exact files_grow_trans|].
    intros b _. apply grow_translate_unit, Hkeep.
  - intros a s s' Hg Hq b Hb'. eapply unit_texts_present_grows; eauto.
  - intros [j [g h]] u u' _ Hu. simpl.
    refine (for_each_post beams _
              (fun b s => unit_texts_present L g b s = true) _ _ _ u u' Hu).
    + intros b. apply grow_translate_unit, Hkeep.
    + intros b s s' Hg. apply unit_texts_present_grows, Hg.
    + intros b v v' _. apply translate_unit_texts.
Qed.

Hypothesis Hcompat : compatible model_ds eval_ds.

Lemma translate_ok_inv (beams : list Z) (fo : bool) (w w' : world) :
  translate self H L model_ds eval_ds beams fo w = (w', Ok tt) ->
  exists w1, grows (wfs w) (wfs w1) /\
             translate_units self H L model_ds eval_ds beams fo w1 = (w', Ok tt).
Proof.
  unfold translate. intros Hr.
  apply bind_inv_ok in Hr as (w1 & [] & Hs & Hu).
  exists w1. split; [|exact Hu].
  exact (grow_translate_stage H L model_ds eval_ds Hkeep fo _ _ _ Hs).
Qed.

(** X12.  With collaborators that delete no file and write their marker,
    a call of [translate] that returned leaves every file that was there
    and the marker "hyp.tok" of every unit (split, beam); with
    [force_overwrite=True] it also leaves the three text files
    "src.txt", "ref.txt" and "hyp.txt" of every unit, so that the
    existence check of [score] passes for each of them in the store it
    leaves. *)
Theorem translate_leaves_units_ready (beams : list Z) (fo : bool)
    (w w' : world) :
  translate self H L model_ds eval_ds beams fo w = (w', Ok tt) ->
  grows (wfs w) (wfs w') /\
  forall fn f beam,
    (fn, f) ∈ filter_ts_data_fn self -> beam ∈ beams ->
    unit_marked L fn beam (wfs w') /\
    (fo = true ->
     unit_texts_present L fn beam (wfs w') = true /\
     forall metrics fo' u,
       wfs u = wfs w' ->
       score_unit H L model_ds metrics fo' fn beam u
       = score_tools H L model_ds metrics fo' fn beam u).
Proof.
  intros Hr. apply translate_ok_inv in Hr as (w1 & Hg1 & Hu). split.
  - intros p Hp. apply Hg1 in Hp.
    exact (grow_translate_units self H L model_ds eval_ds Hkeep beams fo
             _ _ _ Hu p Hp).
  - intros fn f beam Hfn Hb. split.
    + exact (translate_units_mark self H L model_ds eval_ds Hkeep Hmark
               beams fo _ _ Hu fn f beam Hfn Hb).
    + intros ->.
      assert (Ht := translate_units_texts beams _ _ Hu fn f beam Hfn Hb).
      split; [exact Ht|].
      intros metrics fo' u Hu'. apply score_unit_present.
      rewrite Hu'. exact Ht.
Qed.

(** X13.  With the same collaborators, a call of [score] that returned
    leaves every file that was there; when no requested metric is valid it
    leaves the file store as it is, and otherwise every unit has its three
    text files and the score file of every tool for which [score] has a
    block and a metric was requested. *)
Theorem score_leaves_units_scored (beams : list Z) (metrics : gset string)
    (fo : bool) (w w' : world) :
  score self H L model_ds eval_ds beams metrics fo w = (w', Ok tt) ->
  grows (wfs w) (wfs w') /\
  (metrics_valid_of metrics (dom METRICS2TOOL) = ∅ -> wfs w' = wfs w) /\
  (metrics_valid_of metrics (dom METRICS2TOOL) ≠ ∅ ->
   forall fn f beam,
     (fn, f) ∈ filter_ts_data_fn self -> beam ∈ beams ->
     unit_scored L metrics fn beam (wfs w')).
Proof.
  rewrite (score_run self H L model_ds eval_ds beams metrics fo w Hcompat).
  cbv zeta. destruct (bool_decide _) eqn:Hv.
  - apply bool_decide_eq_true in Hv. intros [= <-]. simpl.
    split; [intros p Hp; exact Hp|]. split; [reflexivity|].
    intros Hne. contradiction.
  - apply bool_decide_eq_false in Hv. intros Hr. split; [|split].
    + exact (grow_score_units self H L model_ds Hkeep beams metrics fo
               _ _ _ Hr).
    + intros He. contradiction.
    + intros _.
      exact (score_units_scored self H L model_ds Hkeep Hmark beams metrics
               fo _ _ Hr).
Qed.


End ControllerRuns.

Lemma score_blocks_match_tools_witness :
  _get_metrics_tool {["beer"]} ⊆ {["beer"]} /\
  score_tools (Scenario.demo_hooks Scenario.good_hyp) Scenario.demo_layout
    Scenario.demo_ds {["beer"]} true "" 5 Scenario.translated_world
  = (Scenario.translated_world, Ok tt).
Proof.
  assert (Hs : _get_metrics_tool {["beer"]} ⊆@{gset string} {["beer"]})
    by (apply (bool_decide_unpack _); vm_compute; exact I).
  split; [exact Hs|].
  exact (proj2 (proj2 (score_blocks_match_tools
                        (Scenario.demo_hooks Scenario.good_hyp)
                        Scenario.demo_layout Scenario.demo_ds {["beer"]}))
               Hs true "" 5%Z
               Scenario.translated_world).
Defined.

Lemma compatible_demo : compatible Scenario.demo_ds Scenario.demo_ds.
Proof. repeat split. Qed.

Lemma translate_leaves_units_ready_witness :
  let w' := Scenario.world_of
              (translate Scenario.demo_self
                 (Scenario.demo_hooks Scenario.good_hyp) Scenario.demo_layout
                 Scenario.demo_ds Scenario.demo_ds [5%Z; 1%Z] true
                 Scenario.demo_world) in
  translate Scenario.demo_self (Scenario.demo_hooks Scenario.good_hyp)
    Scenario.demo_layout Scenario.demo_ds Scenario.demo_ds [5%Z; 1%Z] true
    Scenario.demo_world = (w', Ok tt) /\
  unit_marked Scenario.demo_layout "" 1 (wfs w') /\
  unit_texts_present Scenario.demo_layout "" 1 (wfs w') = true.
Proof.
  intros w'.
  assert (Hrun : translate Scenario.demo_self
                   (Scenario.demo_hooks Scenario.good_hyp) Scenario.demo_layout
                   Scenario.demo_ds Scenario.demo_ds [5%Z; 1%Z] true
                   Scenario.demo_world = (w', Ok tt))
    by (vm_compute; reflexivity).
  split; [exact Hrun|].
  destruct (proj2 (translate_leaves_units_ready Scenario.demo_self
                     (Scenario.demo_hooks Scenario.good_hyp)
                     Scenario.demo_layout Scenario.demo_ds Scenario.demo_ds
                     (demo_hooks_keep _) (demo_hooks_mark _)
                     [5%Z; 1%Z] true Scenario.demo_world w' Hrun)
                  "" None 1%Z) as [Hm Ht].
  - apply list_elem_of_here.
  - apply list_elem_of_further, list_elem_of_here.
  - split; [exact Hm|]. exact (proj1 (Ht eq_refl)).
Defined.

Lemma score_leaves_units_scored_witness :
  score Scenario.demo_self (Scenario.demo_hooks Scenario.good_hyp)
    Scenario.demo_layout Scenario.demo_ds Scenario.demo_ds [5%Z; 1%Z]
    {["bleu"]} false Scenario.translated_world
  = (Scenario.scored_world, Ok tt) /\
  grows (wfs Scenario.translated_world) (wfs Scenario.scored_world).
Proof.
  assert (Hrun : score Scenario.demo_self
                   (Scenario.demo_hooks Scenario.good_hyp)
                   Scenario.demo_layout Scenario.demo_ds Scenario.demo_ds
                   [5%Z; 1%Z] {["bleu"]} false Scenario.translated_world
                 = (Scenario.scored_world, Ok tt))
    by (vm_compute; reflexivity).
  split; [exact Hrun|].
  exact (proj1 (score_leaves_units_scored Scenario.demo_self
                  (Scenario.demo_hooks Scenario.good_hyp)
                  Scenario.demo_layout Scenario.demo_ds Scenario.demo_ds
                  (demo_hooks_keep _) (demo_hooks_mark _) compatible_demo
                  [5%Z; 1%Z] {["bleu"]} false _ _ Hrun)).
Defined.


(** ** The decoder calls of a forced run *)

Lemma filter_none (p : event -> bool) (evs : list event) :
  forallb (fun ev => negb (p ev)) evs = true -> List.filter p evs = [].
Proof.
  induction evs as [|ev evs IH]; simpl; [reflexivity|].
  intros [Hev Hr]%andb_true_iff. apply negb_true_iff in Hev.
  rewrite Hev. apply IH, Hr.
Qed.

Lemma calls_quiet {A} (p : event -> bool) (m : M A) :
  respects (adds_only (fun ev => negb (p ev))) m -> calls p [] m.
Proof.
  intros Hm w w' r Hr. destruct (Hm _ _ _ Hr) as (evs & Ht & Hall).
  exists evs, []. split; [exact Ht|]. split; [|reflexivity].
  rewrite (filter_none _ _ Hall). reflexivity.
Qed.

Lemma calls_call (p : event -> bool) (ev : event) (h : effect) :
  p ev = true -> calls p [ev] (call ev h).
Proof.
  intros Hev w w' r. unfold call. destruct (h (wfs w)) as [s' r'].
  intros [= <- <-]. exists [ev], []. simpl. rewrite Hev. auto.
Qed.

Lemma calls_ret {A} (p : event -> bool) (a : A) : calls p [] (mret a).
Proof.
  intros w w' r [= <- <-]. exists [], []. rewrite app_nil_r. auto.
Qed.

Lemma calls_raise {A} (p : event -> bool) (plan : list event) (e : exn) :
  calls p plan (raise e : M A).
Proof.
  intros w w' r [= <- <-]. exists [], plan. rewrite app_nil_r.
  split; [reflexivity|]. split; [reflexivity|discriminate].
Qed.

Lemma calls_bind_ok {A B} (p : event -> bool) (p1 p2 : list event) (m : M A)
    (f : A -> M B) :
  calls p p1 m ->
  (forall a, (exists w w1, m w = (w1, Ok a)) -> calls p p2 (f a)) ->
  calls p (p1 ++ p2) (m ≫= f).
Proof.
  intros Hm Hf w w' r Hr.
  apply bind_inv in Hr as [(w1 & a & H1 & H2)|(e & H1 & ->)].
  - destruct (Hm _ _ _ H1) as (evs1 & rest1 & Ht1 & Hp1 & Hok1).
    assert (Hfa : calls p p2 (f a)) by (apply Hf; eauto).
    destruct (Hfa _ _ _ H2) as (evs2 & rest2 & Ht2 & Hp2 & Hok2).
    rewrite (Hok1 eq_refl), app_nil_r in Hp1.
    exists (evs1 ++ evs2), rest2. split; [|split].
    + rewrite Ht2, Ht1, app_assoc. reflexivity.
    + rewrite List.filter_app, Hp1, Hp2, app_assoc. reflexivity.
    + exact Hok2.
  - destruct (Hm _ _ _ H1) as (evs1 & rest1 & Ht1 & Hp1 & _).
    exists evs1, (rest1 ++ p2). split; [exact Ht1|]. split.
    + rewrite Hp1, app_assoc. reflexivity.
    + discriminate.
Qed.

Lemma calls_bind {A B} (p : event -> bool) (p1 p2 : list event) (m : M A)
    (f : A -> M B) :
  calls p p1 m -> (forall a, calls p p2 (f a)) -> calls p (p1 ++ p2) (m ≫= f).
Proof. intros Hm Hf. apply calls_bind_ok; [exact Hm|]. intros a _. apply Hf. Qed.

Lemma calls_for_each {A} (p : event -> bool) (plan_of : A -> list event)
    (l : list A) (body : A -> M unit) :
  (forall a, calls p (plan_of a) (body a)) ->
  calls p (flat_map plan_of l) (for_each l body).
Proof.
  intros Hb. induction l as [|a l IH]; simpl.
  - apply calls_ret.
  - apply calls_bind; [apply Hb|]. intros _. exact IH.
Qed.

Lemma flat_map_singleton {A B} (g : A -> B) (l : list A) :
  flat_map (fun a => [g a]) l = map g l.
Proof. induction l as [|a l IH]; simpl; [|rewrite IH]; reflexivity. Qed.

Section CallOrder.

Variable self : translator.
Variable H : hooks.
Variable L : layout.
Variable model_ds : dataset.
Variable eval_ds : dataset.

Lemma calls_decode_unit (fo : bool) (i : nat) (fn : string)
    (filter : option filter_fn) (beam : Z) :
  calls is_decode_call [Call_translate (beam_path L fn beam) beam i]
        (decode_unit H L model_ds eval_ds fo i fn filter beam).
Proof.
  unfold decode_unit. cbv zeta.
  apply (calls_bind _ [_] []); [apply calls_call; reflexivity|].
  intros _. apply calls_quiet. repeat respects_step; reflexivity.
Qed.

Lemma calls_translate_unit (i : nat) (fn : string)
    (filter : option filter_fn) (beam : Z) :
  calls is_decode_call [Call_translate (beam_path L fn beam) beam i]
        (translate_unit H L model_ds eval_ds true i fn filter beam).
Proof.
  intros w w' r Hr. rewrite translate_unit_run in Hr. simpl in Hr.
  exact (calls_decode_unit _ _ _ _ _ _ _ _ Hr).
Qed.

(** X15.  With [force_overwrite=True], whatever the collaborators do,
    [translate] calls the decoder once per unit, splits in the order of
    [filter_ts_data_fn] and, within a split, beams in the order given, each
    call with the unit's output directory, its beam width and the index of
    its split: when [translate] returns the decoder calls it made are this
    list, and when it raises they are a prefix of it. *)
Theorem forced_translate_decodes_each_unit (beams : list Z) :
  calls is_decode_call (decode_plan self L beams)
        (translate self H L model_ds eval_ds beams true) /\
  List.length (decode_plan self L beams)
  = List.length (filter_ts_data_fn self) * List.length beams.
Proof.
  split.
  - unfold translate.
    apply (calls_bind _ [] (decode_plan self L beams)).
    + apply calls_quiet, translate_stage_no_decode.
    + intros _. unfold translate_units, decode_plan.
      apply (calls_for_each _
               (fun '(i, (fn_name, _)) =>
                  map (fun beam =>
                         Call_translate (beam_path L fn_name beam) beam i)
                      beams)).
      intros [i [fn filter]]. rewrite <- flat_map_singleton.
      apply (calls_for_each _
               (fun beam => [Call_translate (beam_path L fn beam) beam i])).
      intros beam. apply calls_translate_unit.
  - unfold decode_plan, enumerate.
    generalize (filter_ts_data_fn self). intros l. generalize 0.
    induction l as [|[fn f] l IH]; intros n; simpl; [reflexivity|].
    rewrite List.length_app, List.length_map, IH. reflexivity.
Qed.

Lemma calls_compute_step (requested : bool) (out : string) (ev : event)
    (h : effect) :
  is_score_call ev = true ->
  calls is_score_call (if requested then [ev] else [])
        (compute_step requested out true ev h).
Proof.
  intros Hev w w' r Hr. rewrite compute_step_run in Hr. simpl in Hr.
  rewrite andb_true_r in Hr. destruct requested.
  - exact (calls_call _ _ _ Hev _ _ _ Hr).
  - exact (calls_ret is_score_call tt _ _ _ Hr).
Qed.

Lemma calls_score_tools (metrics : gset string) (fn : string) (beam : Z) :
  calls is_score_call (score_plan_unit L model_ds metrics fn beam)
        (score_tools H L model_ds metrics true fn beam).
Proof.
  unfold score_tools, score_plan_unit. cbv zeta.
  repeat (apply calls_bind; [apply calls_compute_step; reflexivity|intros _]).
  apply calls_compute_step. reflexivity.
Qed.

Lemma calls_score_unit (metrics : gset string) (fn : string) (beam : Z) :
  calls is_score_call (score_plan_unit L model_ds metrics fn beam)
        (score_unit H L model_ds metrics true fn beam).
Proof.
  intros w w' r Hr.
  destruct (unit_texts_present L fn beam (wfs w)) eqn:Hp.
  - rewrite (score_unit_present _ _ _ _ _ _ _ _ Hp) in Hr.
    exact (calls_score_tools _ _ _ _ _ _ Hr).
  - rewrite (score_unit_missing _ _ _ _ _ _ _ _ Hp) in Hr.
    exact (calls_raise is_score_call _ IOError _ _ _ Hr).
Qed.

Lemma score_plan_unit_none (metrics : gset string) (fn : string) (beam : Z) :
  metrics_valid_of metrics (dom METRICS2TOOL) = ∅ ->
  score_plan_unit L model_ds metrics fn beam = [].
Proof.
  intros Hv.
  assert (Hoff : forall t, tool_requested t metrics = false).
  { intros t. destruct (tool_requested t metrics) eqn:Hr; [|reflexivity].
    apply tool_requested_nonempty_valid in Hr. contradiction. }
  assert (Hhg : bool_decide (hg_metrics_of metrics ≠ ∅) = false).
  { apply bool_decide_eq_false. intros Hne. apply Hne.
    rewrite <- (hg_metrics_valid metrics (dom METRICS2TOOL)), Hv.
    apply (bool_decide_unpack _). vm_compute. exact I. }
  unfold score_plan_unit. cbv zeta. rewrite !Hoff, Hhg. reflexivity.
Qed.

Lemma score_plan_none (beams : list Z) (metrics : gset string) :
  metrics_valid_of metrics (dom METRICS2TOOL) = ∅ ->
  score_plan self L model_ds beams metrics = [].
Proof.
  intros Hvalid. unfold score_plan.
  assert (Hin : forall fn,
             flat_map (score_plan_unit L model_ds metrics fn) beams = []).
  { intros fn. induction beams as [|b bs IHb]; [reflexivity|].
    simpl. rewrite IHb, app_nil_r. apply score_plan_unit_none, Hvalid. }
  induction (filter_ts_data_fn self) as [|[fn f] l IH]; [reflexivity|].
  simpl. rewrite IH, app_nil_r. apply Hin.
Qed.

(** X16.  With [force_overwrite=True], whatever the collaborators do,
    [score] calls, for each unit in the order of the loops, the scoring
    tools that are requested, once each and in the order sacrebleu,
    bertscore, comet, fairseq, huggingface; sacrebleu is handed the metrics
    as requested, huggingface the names without their "hg_" prefix.  When
    [score] returns the scoring calls it made are this list, and when it
    raises they are a prefix of it. *)
Theorem forced_score_calls_each_tool (beams : list Z)
    (metrics : gset string) :
  calls is_score_call (score_plan self L model_ds beams metrics)
        (score self H L model_ds eval_ds beams metrics true).
Proof.
  unfold score.
  apply (calls_bind _ [] _).
  { apply calls_quiet. unfold _check_datasets. repeat respects_step. }
  intros _. apply (calls_bind _ [] _).
  { apply calls_quiet. unfold assert_same_pair. repeat respects_step. }
  intros _. apply (calls_bind_ok _ [] _).
  { apply calls_quiet. intros w w' r Hr.
    rewrite check_supported_metrics_run in Hr. injection Hr as <- _.
    exists (check_prints metrics (dom METRICS2TOOL)). split; [reflexivity|].
    unfold check_prints.
    destruct (bool_decide _); [|reflexivity].
    destruct (bool_decide _); reflexivity. }
  intros valid (w & w1 & Hv).
  rewrite check_supported_metrics_run in Hv. injection Hv as _ <-.
  destruct (bool_decide _) eqn:Hvalid.
  - apply bool_decide_eq_true in Hvalid.
    pose proof (calls_ret is_score_call tt) as Hc.
    rewrite <- (score_plan_none beams metrics Hvalid) in Hc. exact Hc.
  - unfold score_units, score_plan.
    apply (calls_for_each _
             (fun '(fn_name, _) =>
                flat_map (score_plan_unit L model_ds metrics fn_name) beams)).
    intros [fn f]. apply calls_for_each. intros beam. apply calls_score_unit.
Qed.

End CallOrder.

(** The decoder calls of a forced run of the demo toolkit, evaluated. *)
Example forced_translate_demo_calls :
  List.filter is_decode_call
    (trace (Scenario.world_of
              (translate Scenario.demo_self
                 (Scenario.demo_hooks Scenario.good_hyp) Scenario.demo_layout
                 Scenario.demo_ds Scenario.demo_ds [5%Z; 1%Z] true
                 Scenario.demo_world)))
  = decode_plan Scenario.demo_self Scenario.demo_layout [5%Z; 1%Z].
Proof. vm_compute. reflexivity. Qed.

(** ** The loop over the tools of [parse_metrics] *)

Lemma respects_for_fold (R : world -> world -> Prop) :
  (forall w, R w w) ->
  (forall w1 w2 w3, R w1 w2 -> R w2 w3 -> R w1 w3) ->
  forall {A B} (l : list A) (body : A -> B -> M B) (b : B),
    (forall a b', a ∈ l -> respects R (body a b')) ->
    respects R (for_fold l body b).
Proof.
  intros Hrefl Htrans A B l body b Hb. revert b.
  induction l as [|a l IH]; intros b; simpl.
  - apply respects_ret, Hrefl.
  - apply respects_bind; [exact Htrans|apply Hb, list_elem_of_here|].
    intros b'. apply IH. intros a' b'' Hin.
    apply Hb, list_elem_of_further, Hin.
Qed.

Lemma check_prints_are_prints (metrics supported : gset string) :
  forallb is_print (check_prints metrics supported) = true.
Proof.
  unfold check_prints.
  destruct (bool_decide _); [|reflexivity].
  destruct (bool_decide _); reflexivity.
Qed.

Section ParseExtras.

Variable self : translator.
Variable L : layout.
Variable model_ds : dataset.
Variable eval_ds : dataset.
Variable value : Type.
Variable m_parser : string -> list string -> outcome (parsed value).

Local Abbreviation insert_all' := (insert_all value).
Local Abbreviation tool_entries' := (tool_entries value m_parser).
Local Abbreviation parse_tool' := (parse_tool value m_parser).

Lemma flat_entries_cons (t m : string) (vals : list (string * value))
    (rest : parsed value) :
  flat_entries value t ((m, Some vals) :: rest) =
  map (fun sv => (flat_key t m (fst sv), snd sv)) vals
  ++ flat_entries value t rest.
Proof.
  unfold flat_entries, pairs_of. simpl. rewrite map_app, map_map. reflexivity.
Qed.

Lemma flatten_scores_prefix (t : string) (ms : parsed value) d :
  fst (flatten_scores value t ms d) =
  insert_all' (flat_entries value t (known_prefix value ms)) d.
Proof.
  revert d. induction ms as [|[m [vals|]] ms IH]; intros d; simpl;
    [reflexivity| |reflexivity].
  rewrite IH, flat_entries_cons, insert_all_app, flatten_metric_entries.
  reflexivity.
Qed.

Lemma parse_tool_closed_form (sp t : string) d (w : world) :
  t ∈ dom TOOL_PARSERS ->
  exists evs,
    forallb is_print evs = true /\
    parse_tool' sp t d w =
      (World (wfs w) (trace w ++ evs),
       Ok (insert_all' (tool_entries' sp t (wfs w)) d)).
Proof.
  intros [[stem ext] Ht]%elem_of_dom. unfold tool_entries. rewrite Ht.
  destruct (files (wfs w) !! path_join sp (stem ++ "." ++ ext)%string)
    as [f|] eqn:Hf.
  - rewrite (parse_tool_present _ _ _ _ _ _ _ _ _ Ht Hf).
    destruct (m_parser t (lines f)) as [ms|e].
    + pose proof (flatten_scores_prefix t ms d) as Hp.
      destruct (flatten_scores value t ms d) as [d' [[]|e]]; simpl in Hp;
        rewrite <- Hp.
      * exists []. rewrite app_nil_r. destruct w. split; reflexivity.
      * eexists. split; [|reflexivity]. reflexivity.
    + eexists. split; [|reflexivity]. reflexivity.
  - rewrite (parse_tool_missing _ _ _ _ _ _ _ _ Ht Hf).
    eexists. split; [|reflexivity]. reflexivity.
Qed.

Lemma parse_tools_closed_form (sp : string) (ts : list string) d (w : world) :
  Forall (fun t => t ∈ dom TOOL_PARSERS) ts ->
  exists evs,
    forallb is_print evs = true /\
    for_fold ts (parse_tool' sp) d w =
      (World (wfs w) (trace w ++ evs),
       Ok (insert_all' (flat_map (fun t => tool_entries' sp t (wfs w)) ts) d)).
Proof.
  intros Hall. revert d w.
  induction Hall as [|t ts Ht Hall IH]; intros d w; simpl.
  - exists []. rewrite app_nil_r. destruct w. split; reflexivity.
  - destruct (parse_tool_closed_form sp t d w Ht) as (evs1 & Hp1 & H1).
    erewrite bind_ok by exact H1.
    destruct (IH (insert_all' (tool_entries' sp t (wfs w)) d)
                 (World (wfs w) (trace w ++ evs1))) as (evs2 & Hp2 & H2).
    simpl in H2. exists (evs1 ++ evs2). split.
    + rewrite forallb_app, Hp1, Hp2. reflexivity.
    + rewrite H2, insert_all_app, app_assoc. reflexivity.
Qed.

Lemma last_entry_snoc (k : string) (l : list (string * value))
    (kv : string * value) :
  last_entry value k (l ++ [kv]) =
  if String.eqb (fst kv) k then Some (snd kv) else last_entry value k l.
Proof.
  unfold last_entry. rewrite rev_unit. simpl.
  destruct (String.eqb (fst kv) k); reflexivity.
Qed.

Lemma insert_all_lookup (l : list (string * value)) d (k : string) :
  insert_all' l d !! k =
  match last_entry value k l with Some v => Some v | None => d !! k end.
Proof.
  induction l as [|kv l IH] using rev_ind; [reflexivity|].
  rewrite insert_all_app, last_entry_snoc. simpl.
  destruct (String.eqb (fst kv) k) eqn:Hk.
  - apply String.eqb_eq in Hk. subst k. apply lookup_insert_eq.
  - apply String.eqb_neq in Hk. rewrite lookup_insert_ne by exact Hk.
    exact IH.
Qed.

Lemma last_entry_some (k : string) (l : list (string * value)) (v : value) :
  last_entry value k l = Some v -> (k, v) ∈ l.
Proof.
  induction l as [|kv l IH] using rev_ind; [discriminate|].
  rewrite last_entry_snoc. destruct (String.eqb (fst kv) k) eqn:Hk.
  - apply String.eqb_eq in Hk. intros [= <-]. subst k.
    apply elem_of_app. right. destruct kv. apply list_elem_of_here.
  - intros Hl. apply elem_of_app. left. apply IH, Hl.
Qed.

Lemma tool_entries_keys (sp t : string) (s : fs) (k : string) (v : value) :
  (k, v) ∈ tool_entries' sp t s -> exists m sc, k = flat_key t m sc.
Proof.
  unfold tool_entries.
  destruct (TOOL_PARSERS !! t : option (string * string)) as [[stem ext]|];
    [|intros Hin; apply elem_of_nil in Hin; contradiction].
  destruct (files s !! _) as [f|];
    [|intros Hin; apply elem_of_nil in Hin; contradiction].
  destruct (m_parser t (lines f)) as [ms|e];
    [|intros Hin; apply elem_of_nil in Hin; contradiction].
  unfold flat_entries. intros Hin.
  apply list_elem_of_In, in_map_iff in Hin as ([[m sc] v'] & Heq & _).
  injection Heq as <- _. simpl. eauto.
Qed.

Lemma tool_updates_commute (sp t1 t2 : string) (s : fs) d :
  t1 ∈ dom TOOL_PARSERS -> t2 ∈ dom TOOL_PARSERS ->
  insert_all' (tool_entries' sp t1 s) (insert_all' (tool_entries' sp t2 s) d) =
  insert_all' (tool_entries' sp t2 s) (insert_all' (tool_entries' sp t1 s) d).
Proof.
  intros H1 H2. destruct (decide (t1 = t2)) as [->|Hne]; [reflexivity|].
  apply map_eq. intros k. rewrite !insert_all_lookup.
  destruct (last_entry value k (tool_entries' sp t1 s)) as [v1|] eqn:E1;
    destruct (last_entry value k (tool_entries' sp t2 s)) as [v2|] eqn:E2;
    try reflexivity.
  exfalso. apply Hne.
  apply last_entry_some, tool_entries_keys in E1 as (m1 & s1 & ->).
  apply last_entry_some, tool_entries_keys in E2 as (m2 & s2 & Heq).
  exact (flat_key_tool_inj _ _ _ _ _ _ H1 H2 Heq).
Qed.

Lemma tool_updates_permutation (sp : string) (s : fs) (ts ts' : list string) :
  ts ≡ₚ ts' ->
  Forall (fun t => t ∈ dom TOOL_PARSERS) ts ->
  forall d,
    insert_all' (flat_map (fun t => tool_entries' sp t s) ts) d =
    insert_all' (flat_map (fun t => tool_entries' sp t s) ts') d.
Proof.
  intros Hp. induction Hp as [|x l l' Hp IH|x y l|l l' l'' Hp1 IH1 Hp2 IH2];
    intros Hall d.
  - reflexivity.
  - simpl. rewrite !insert_all_app. apply IH.
    apply Forall_cons in Hall as [_ Hall]. exact Hall.
  - simpl. rewrite !insert_all_app.
    apply Forall_cons in Hall as [Hy Hall].
    apply Forall_cons in Hall as [Hx Hall].
    rewrite (tool_updates_commute sp x y s d Hx Hy). reflexivity.
  - rewrite IH1 by exact Hall. apply IH2. rewrite <- Hp1. exact Hall.
Qed.

(** X17.  The loop over the tools in closed form.  For tools of
    [TOOL_PARSERS] it never raises and never touches the file store, it
    only prints; the dictionary it returns is the one it was given with the
    flat entries of each tool written in order, so that under each key the
    last entry written wins and every other key keeps its value.  The
    entries of a tool are those of its score file up to the first metric
    whose value is not a mapping, and none when the file is missing or does
    not parse. *)
Theorem parse_tools_last_entry_wins (sp : string) (ts : list string)
    (d : gmap string value) (w : world) :
  Forall (fun t => t ∈ dom TOOL_PARSERS) ts ->
  exists evs d',
    for_fold ts (parse_tool value m_parser sp) d w =
      (World (wfs w) (trace w ++ evs), Ok d') /\
    forallb is_print evs = true /\
    forall k,
      d' !! k =
      match last_entry value k
              (flat_map (fun t => tool_entries value m_parser sp t (wfs w)) ts)
      with
      | Some v => Some v
      | None => d !! k
      end.
Proof.
  intros Hall.
  destruct (parse_tools_closed_form sp ts d w Hall) as (evs & Hp & Hr).
  exists evs, (insert_all' (flat_map (fun t => tool_entries' sp t (wfs w)) ts) d).
  split; [exact Hr|]. split; [exact Hp|].
  intros k. apply insert_all_lookup.
Qed.

(** X18.  The scores read for a unit do not depend on the order in which
    the set of tools is iterated: over the same store, two orders of the
    same tools return the same dictionary (the flat keys of two tools never
    coincide, so their writes commute). *)
Theorem beam_scores_order_independent (sp : string) (ts ts' : list string)
    (d d1 d2 : gmap string value) (w w1 w2 : world) :
  ts ≡ₚ ts' ->
  Forall (fun t => t ∈ dom TOOL_PARSERS) ts ->
  for_fold ts (parse_tool value m_parser sp) d w = (w1, Ok d1) ->
  for_fold ts' (parse_tool value m_parser sp) d w = (w2, Ok d2) ->
  d1 = d2.
Proof.
  intros Hp Hall H1 H2.
  assert (Hall' : Forall (fun t => t ∈ dom TOOL_PARSERS) ts')
    by (rewrite <- Hp; exact Hall).
  destruct (parse_tools_closed_form sp ts d w Hall) as (evs1 & _ & Hr1).
  destruct (parse_tools_closed_form sp ts' d w Hall') as (evs2 & _ & Hr2).
  rewrite Hr1 in H1. rewrite Hr2 in H2.
  injection H1 as _ <-. injection H2 as _ <-.
  apply tool_updates_permutation; assumption.
Qed.

Lemma prints_parse_tool (sp t : string) d :
  t ∈ dom TOOL_PARSERS ->
  respects (adds_only is_print) (parse_tool' sp t d).
Proof.
  intros Ht w w' r Hr.
  destruct (parse_tool_closed_form sp t d w Ht) as (evs & Hp & Hc).
  rewrite Hc in Hr. injection Hr as <- _. exists evs. auto.
Qed.

Lemma prints_parse_units (tools : gset string) (beams : list Z) :
  tools ⊆ dom TOOL_PARSERS ->
  respects (adds_only is_print)
           (parse_units self L value m_parser tools beams).
Proof.
  intros Hsub. unfold parse_units.
  apply respects_for_fold;
    [exact (adds_only_refl _) | exact (adds_only_trans _)|].
  intros [fn f] tr _.
  apply respects_for_fold;
    [exact (adds_only_refl _) | exact (adds_only_trans _)|].
  intros beam tr' _. unfold parse_unit. cbv zeta.
  apply respects_bind; [exact (adds_only_trans _)| |].
  - apply respects_for_fold;
      [exact (adds_only_refl _) | exact (adds_only_trans _)|].
    intros t d Ht. apply prints_parse_tool, Hsub, elem_of_elements, Ht.
  - intros d. destruct (String.eqb fn "");
      apply respects_ret, adds_only_refl.
Qed.

Hypothesis Hcompat : compatible model_ds eval_ds.

(** X19.  On compatible datasets [parse_metrics] always returns: it never
    raises, whatever the score files hold, it leaves the file store as it
    is and calls no collaborator, it only prints.  It returns [None]
    exactly when no requested metric is valid; otherwise the record it
    returns carries the engine given, the language pair, the names of the
    two datasets and the configuration of the translator. *)
Theorem parse_metrics_total (beams : list Z) (metrics : gset string)
    (kw : option string) (w : world) :
  exists evs r,
    parse_metrics self L model_ds eval_ds value m_parser beams metrics kw w
    = (World (wfs w) (trace w ++ evs), Ok r) /\
    forallb is_print evs = true /\
    (r = None <-> metrics_valid_of metrics (dom METRICS2TOOL) = ∅) /\
    forall rec, r = Some rec ->
      sr_engine value rec = kw /\
      sr_lang_pair value rec = dataset_lang_pair model_ds /\
      sr_train_dataset value rec = dataset_name model_ds /\
      sr_eval_dataset value rec = dataset_name eval_ds /\
      sr_config value rec = config self.
Proof.
  rewrite (parse_metrics_run self L model_ds eval_ds value m_parser beams
             metrics kw w Hcompat). cbv zeta.
  destruct (bool_decide _) eqn:Hv.
  - apply bool_decide_eq_true in Hv.
    exists (check_prints metrics (dom METRICS2TOOL)), None.
    split; [reflexivity|]. split; [apply check_prints_are_prints|].
    split; [tauto|]. discriminate.
  - apply bool_decide_eq_false in Hv.
    set (w0 := World (wfs w) (trace w ++ check_prints metrics (dom METRICS2TOOL))).
    pose proof (get_metrics_tool_in_table metrics) as Hsub.
    destruct (reads_only_parse_units self L value m_parser _ beams Hsub w0)
      as (evs & tr & Hr).
    destruct (prints_parse_units _ beams Hsub _ _ _ Hr) as (evs' & He & Hp).
    simpl in He. apply app_inv_head in He. subst evs'.
    exists (check_prints metrics (dom METRICS2TOOL) ++ evs),
           (Some (score_record self L model_ds eval_ds value kw tr)).
    split; [|split; [|split]].
    + erewrite bind_ok by exact Hr. simpl. rewrite app_assoc. reflexivity.
    + rewrite forallb_app, check_prints_are_prints, Hp. reflexivity.
    + split; [discriminate|]. intros He. contradiction.
    + intros rec [= <-]. simpl. auto.
Qed.

(** X20.  With the default split [[('', None)]], on compatible datasets and
    with a valid metric requested, the "translations" of the record
    [parse_metrics] returns hold one entry per beam of the request and no
    other: under "beam<b>" the flat entries of the score files of beam [b],
    tool after tool, written into an empty dictionary. *)
Theorem parse_metrics_default_split (f : option filter_fn) (beams : list Z)
    (metrics : gset string) (kw : option string) (w w' : world)
    (rec : ScoreRecord value) :
  filter_ts_data_fn self = [("", f)] ->
  parse_metrics self L model_ds eval_ds value m_parser beams metrics kw w
  = (w', Ok (Some rec)) ->
  (forall b, b ∈ beams ->
     translations value rec !! beam_key b =
     Some (Beam_scores value
             (insert_all value
                (flat_map (fun t => tool_entries value m_parser
                                      (scores_path L "" b) t (wfs w))
                          (elements (_get_metrics_tool metrics)))
                ∅))) /\
  (forall k, (forall b, b ∈ beams -> k <> beam_key b) ->
     translations value rec !! k = None).
Proof.
  intros Hsplit.
  rewrite (parse_metrics_run self L model_ds eval_ds value m_parser beams
             metrics kw w Hcompat). cbv zeta.
  destruct (bool_decide _); [discriminate|]. intros Hr.
  apply bind_inv_ok in Hr as (w1 & tr & Hu & Hret).
  injection Hret as _ <-. simpl.
  pose proof (get_metrics_tool_in_table metrics) as Hsub.
  destruct (parse_units_top_level self L value m_parser _ beams f tr _ _
              Hsplit Hsub Hu) as [Hb Hk].
  split; [|exact Hk].
  intros b Hin. destruct (Hb b Hin) as (d & (wb & wb' & Hs & Hd) & Hl).
  rewrite Hl. do 2 f_equal.
  assert (Hall : Forall (fun t => t ∈ dom TOOL_PARSERS)
                        (elements (_get_metrics_tool metrics))).
  { apply List.Forall_forall. intros t Ht.
    apply Hsub, elem_of_elements, list_elem_of_In, Ht. }
  destruct (parse_tools_closed_form (scores_path L "" b) _ ∅ wb Hall)
    as (evs & _ & Hc).
  rewrite Hc in Hd. injection Hd as _ <-. rewrite Hs. reflexivity.
Qed.

End ParseExtras.

Lemma tools_of_table (ts : list string) :
  forallb (fun t => bool_decide (t ∈ dom TOOL_PARSERS)) ts = true ->
  Forall (fun t => t ∈ dom TOOL_PARSERS) ts.
Proof.
  intros Hall. apply List.Forall_forall. intros t Ht.
  rewrite forallb_forall in Hall. specialize (Hall t Ht).
  apply bool_decide_eq_true in Hall. exact Hall.
Qed.

Lemma parse_tools_last_entry_wins_witness :
  Forall (fun t => t ∈ dom TOOL_PARSERS) ["sacrebleu"; "bertscore"] /\
  exists evs d',
    for_fold ["sacrebleu"; "bertscore"]
      (parse_tool string Scenario.demo_parser
         (scores_path Scenario.demo_layout "" 5)) ∅ Scenario.scores_world
    = (World (wfs Scenario.scores_world)
         (trace Scenario.scores_world ++ evs), Ok d') /\
    d' !! "sacrebleu_bleu_score" = Some "34.1".
Proof.
  assert (Hall : Forall (fun t => t ∈ dom TOOL_PARSERS)
                        ["sacrebleu"; "bertscore"])
    by (apply tools_of_table; vm_compute; reflexivity).
  split; [exact Hall|].
  destruct (parse_tools_last_entry_wins string Scenario.demo_parser
              (scores_path Scenario.demo_layout "" 5)
              ["sacrebleu"; "bertscore"] ∅ Scenario.scores_world Hall)
    as (evs & d' & Hr & _ & Hk).
  exists evs, d'. split; [exact Hr|].
  rewrite Hk. vm_compute. reflexivity.
Defined.

Lemma beam_scores_order_independent_witness :
  let sp := scores_path Scenario.demo_layout "" 5 in
  ["sacrebleu"; "bertscore"] ≡ₚ ["bertscore"; "sacrebleu"] /\
  Forall (fun t => t ∈ dom TOOL_PARSERS) ["sacrebleu"; "bertscore"] /\
  forall w1 w2 d1 d2,
    for_fold ["sacrebleu"; "bertscore"]
      (parse_tool string Scenario.demo_parser sp) ∅ Scenario.scores_world
    = (w1, Ok d1) ->
    for_fold ["bertscore"; "sacrebleu"]
      (parse_tool string Scenario.demo_parser sp) ∅ Scenario.scores_world
    = (w2, Ok d2) ->
    d1 = d2.
Proof.
  intros sp.
  assert (Hp : ["sacrebleu"; "bertscore"] ≡ₚ ["bertscore"; "sacrebleu"])
    by apply perm_swap.
  assert (Hall : Forall (fun t => t ∈ dom TOOL_PARSERS)
                        ["sacrebleu"; "bertscore"])
    by (apply tools_of_table; vm_compute; reflexivity).
  split; [exact Hp|]. split; [exact Hall|].
  intros w1 w2 d1 d2.
  exact (beam_scores_order_independent string Scenario.demo_parser sp _ _ ∅
           d1 d2 Scenario.scores_world w1 w2 Hp Hall).
Defined.

Lemma parse_metrics_default_split_witness :
  match Scenario.result_of
          (parse_metrics Scenario.demo_self Scenario.demo_layout
             Scenario.demo_ds Scenario.demo_ds string Scenario.demo_parser
             [5%Z; 1%Z] {["bleu"]} None Scenario.scores_world)
  with
  | Ok (Some rec) => translations string rec !! "beam3" = None
  | _ => False
  end.
Proof.
  destruct (parse_metrics Scenario.demo_self Scenario.demo_layout
              Scenario.demo_ds Scenario.demo_ds string Scenario.demo_parser
              [5%Z; 1%Z] {["bleu"]} None Scenario.scores_world)
    as [w' [[rec|]|e]] eqn:Hr; simpl.
  - apply (proj2 (parse_metrics_default_split Scenario.demo_self
                    Scenario.demo_layout Scenario.demo_ds Scenario.demo_ds
                    string Scenario.demo_parser compatible_demo None
                    [5%Z; 1%Z] {["bleu"]} None _ _ rec eq_refl Hr)).
    intros b Hb Heq. change "beam3"%string with (beam_key 3) in Heq.
    apply beam_key_inj in Heq. subst b.
    rewrite !elem_of_cons, elem_of_nil in Hb.
    destruct Hb as [Hb|[Hb|[]]]; discriminate.
  - vm_compute in Hr. discriminate.
  - vm_compute in Hr. discriminate.
Defined.

Lemma parse_metrics_total_witness :
  exists evs r,
    parse_metrics Scenario.demo_self Scenario.demo_layout Scenario.demo_ds
      Scenario.demo_ds string Scenario.demo_parser [5%Z; 1%Z] {["bleu"]} None
      Scenario.demo_world
    = (World (wfs Scenario.demo_world) (trace Scenario.demo_world ++ evs),
       Ok r) /\
    forallb is_print evs = true.
Proof.
  destruct (parse_metrics_total Scenario.demo_self Scenario.demo_layout
              Scenario.demo_ds Scenario.demo_ds string Scenario.demo_parser
              compatible_demo [5%Z; 1%Z] {["bleu"]} None Scenario.demo_world)
    as (evs & r & Hr & Hp & _).
  exists evs, r. auto.
Defined.

End ControllerExtras.

(** * Part VIII: properties of [predict]'s set-up and of the configuration *)

Module PredictExtras.
Import BaseTranslator BaseTranslatorFacts PredictSetup.

Lemma flip_le_total : Total (flip Z.le).
Proof. intros a b. unfold flip. lia. Qed.

Lemma strictly_sorted (l : list Z) :
  StronglySorted (flip Z.le) l -> NoDup l -> StronglySorted Z.gt l.
Proof.
  induction 1 as [|a l Hs IH Hall]; intros Hnd; constructor.
  - apply IH. apply NoDup_cons in Hnd as [_ Hnd]. exact Hnd.
  - apply NoDup_cons in Hnd as [Hnin _].
    rewrite List.Forall_forall in Hall |- *. intros b Hb.
    specialize (Hall b Hb). unfold flip in Hall.
    assert (a <> b) by (intros ->; apply Hnin, list_elem_of_In, Hb). lia.
Qed.

Lemma strictly_sorted_inv (l : list Z) :
  StronglySorted Z.gt l -> StronglySorted (flip Z.le) l /\ NoDup l.
Proof.
  induction 1 as [|a l Hs [IH1 IH2] Hall]; split; try constructor; auto.
  - rewrite List.Forall_forall in Hall |- *. intros b Hb.
    specialize (Hall b Hb). unfold flip. lia.
  - intros Hin. rewrite List.Forall_forall in Hall.
    apply list_elem_of_In, Hall in Hin. lia.
Qed.

Lemma elem_of_predict_beams (bs : list Z) (b : Z) :
  b ∈ predict_beams (Some bs) <-> b ∈ bs.
Proof.
  unfold predict_beams. cbv zeta.
  rewrite merge_sort_Permutation, elem_of_elements, elem_of_list_to_set.
  reflexivity.
Qed.

Lemma predict_beams_sorted (bs : list Z) :
  StronglySorted Z.gt (predict_beams (Some bs)).
Proof.
  unfold predict_beams. cbv zeta. apply strictly_sorted.
  - apply StronglySorted_merge_sort; [apply _|apply flip_le_total].
  - rewrite merge_sort_Permutation. apply NoDup_elements.
Qed.

Lemma predict_beams_unique (bs l : list Z) :
  StronglySorted Z.gt l -> (forall b, b ∈ l <-> b ∈ bs) ->
  predict_beams (Some bs) = l.
Proof.
  intros Hs Hel.
  destruct (strictly_sorted_inv _ Hs) as [Hl Hnd].
  destruct (strictly_sorted_inv _ (predict_beams_sorted bs)) as [Hp Hnp].
  apply (StronglySorted_unique_strong (flip Z.le)); [|exact Hp|exact Hl|].
  - intros a b _ _ Hab Hba. unfold flip in *. lia.
  - apply NoDup_Permutation; [exact Hnp|exact Hnd|].
    intros b. rewrite elem_of_predict_beams. symmetry. apply Hel.
Qed.

Lemma sorted_last_least (l : list Z) (b : Z) :
  StronglySorted Z.gt l -> last l = Some b ->
  forall x, x ∈ l -> (b <= x)%Z.
Proof.
  induction 1 as [|a l Hs IH Hall]; [discriminate|].
  intros Hlast x Hx. destruct l as [|c l].
  - injection Hlast as <-. apply list_elem_of_singleton in Hx. lia.
  - change (last (c :: l) = Some b) in Hlast.
    apply elem_of_cons in Hx as [->|Hx]; [|exact (IH Hlast x Hx)].
    rewrite List.Forall_forall in Hall.
    assert (Hb : b ∈ c :: l).
    { apply last_Some in Hlast as [l' ->]. apply elem_of_app. right.
      apply list_elem_of_here. }
    apply list_elem_of_In, Hall in Hb. lia.
Qed.

(** X21.  The beams [predict] works with: when beams are given they are the
    distinct beams of the request in strictly descending order, whatever
    order and repetitions the request has, so that two requests with the
    same beams give the same list and a request already in that form is
    left as it is; when none are given the list is [[5]]. *)
Theorem predict_beams_descending (bs : list Z) :
  StronglySorted Z.gt (predict_beams (Some bs)) /\
  (forall b, b ∈ predict_beams (Some bs) <-> b ∈ bs) /\
  (forall l, StronglySorted Z.gt l -> (forall b, b ∈ l <-> b ∈ bs) ->
             predict_beams (Some bs) = l) /\
  predict_beams (Some (predict_beams (Some bs))) = predict_beams (Some bs) /\
  predict_beams None = [5%Z].
Proof.
  split; [apply predict_beams_sorted|].
  split; [apply elem_of_predict_beams|].
  split; [apply predict_beams_unique|].
  split; [|reflexivity].
  apply predict_beams_unique; [apply predict_beams_sorted|]. reflexivity.
Qed.

Example predict_beams_demo :
  predict_beams (Some [1; 5; 3; 5; 1]%Z) = [5; 3; 1]%Z.
Proof. vm_compute. reflexivity. Qed.

Section NamedSplit.

Variable self : translator.
Variable L : layout.
Variable value : Type.
Variable m_parser : string -> list string -> outcome (parsed value).

(** X22.  With one named split, the record built from the beams of
    [predict] keeps the scores of one beam only, and it is the smallest
    beam of the request: the beams are visited in descending order and each
    one replaces the entry of the split. *)
Theorem named_split_keeps_smallest_beam (tools : gset string) (fn : string)
    (f : option filter_fn) (bs : list Z) (tr : gmap string (entry value))
    (w w' : world) :
  filter_ts_data_fn self = [(fn, f)] ->
  fn <> "" ->
  bs <> [] ->
  parse_units self L value m_parser tools (predict_beams (Some bs)) w
  = (w', Ok tr) ->
  exists b d,
    b ∈ bs /\ (forall x, x ∈ bs -> (b <= x)%Z) /\
    tr = {[fn := Split_beams value {[beam_key b := d]}]}.
Proof.
  intros Hsplit Hfn Hne Hr.
  destruct (last (predict_beams (Some bs))) as [b|] eqn:Hlast.
  - pose proof Hlast as Hl. apply last_Some in Hl as [init Hinit].
    rewrite Hinit in Hr.
    destruct (parse_units_named_split self L value m_parser tools fn f init b
                tr w w' Hsplit Hfn Hr) as [d Hd].
    exists b, d. split; [|split].
    + apply elem_of_predict_beams. rewrite Hinit. apply elem_of_app. right.
      apply list_elem_of_here.
    + intros x Hx.
      apply (sorted_last_least _ _ (predict_beams_sorted bs) Hlast).
      apply elem_of_predict_beams, Hx.
    + exact Hd.
  - exfalso. apply last_None in Hlast. destruct bs as [|b0 bs]; [auto|].
    assert (Hin : b0 ∈ predict_beams (Some (b0 :: bs)))
      by (apply elem_of_predict_beams, list_elem_of_here).
    rewrite Hlast in Hin. apply elem_of_nil in Hin. exact Hin.
Qed.

End NamedSplit.

Lemma named_split_keeps_smallest_beam_witness :
  exists w' tr b d,
    parse_units Scenario.split_self Scenario.demo_layout string
      Scenario.demo_parser {["sacrebleu"]} (predict_beams (Some [1; 5]%Z))
      Scenario.scores_world = (w', Ok tr) /\
    b ∈ [1; 5]%Z /\
    tr = {[ "short" := Split_beams string {[beam_key b := d]} ]}.
Proof.
  destruct (parse_units Scenario.split_self Scenario.demo_layout string
              Scenario.demo_parser {["sacrebleu"]}
              (predict_beams (Some [1; 5]%Z)) Scenario.scores_world)
    as [w' [tr|e]] eqn:Hr.
  - destruct (named_split_keeps_smallest_beam Scenario.split_self
                Scenario.demo_layout string Scenario.demo_parser
                {["sacrebleu"]} "short" _ [1; 5]%Z tr Scenario.scores_world w'
                eq_refl ltac:(discriminate) ltac:(discriminate) Hr)
      as (b & d & Hb & _ & Htr).
    exists w', tr, b, d. auto.
  - vm_compute in Hr. discriminate.
Defined.

(** X23.  The model dataset of [predict]: the dataset given to the
    constructor is not remembered, so on a new translator [predict] without
    [model_ds] raises ValueError; after [fit] it uses the training dataset;
    and a [model_ds] argument is used, and remembered, whatever the
    translator remembered before. *)
Theorem predict_model_ds_selection (engine : string)
    (ctor_ds : option dataset)
    (fns : option (list (string * option filter_fn)))
    (self : instance) (train_ds ds : dataset) :
  predict_model_ds (__init__ engine ctor_ds fns) None = Raise ValueError /\
  predict_model_ds (fit_model_ds self train_ds) None
  = Ok (fit_model_ds self train_ds, train_ds) /\
  (exists self', predict_model_ds self (Some ds) = Ok (self', ds) /\
                 base self' = base self /\
                 predict_model_ds self' None = Ok (self', ds)) /\
  filter_ts_data_fn (base (__init__ engine ctor_ds fns)) <> [].
Proof.
  split; [reflexivity|]. split; [reflexivity|]. split.
  - eexists. split; [reflexivity|]. split; reflexivity.
  - destruct fns as [[|fn fns]|]; discriminate.
Qed.

End PredictExtras.

Module ConfigExtras.
Import BaseTranslator BaseTranslatorFacts ConfigRecord.

Section AddConfigFacts.

Variable pyval : Type.
Variable is_primitive : pyval -> bool.
Variable items : pyval -> option (list pyval).
Variable py_str : pyval -> string.

Local Abbreviation is_valid' := (is_valid pyval is_primitive).
Local Abbreviation parse_value' := (parse_value pyval items py_str).
Local Abbreviation valid_updates' :=
  (valid_updates pyval is_primitive items py_str).
Local Abbreviation add_config' :=
  (_add_config pyval is_primitive items py_str).
Local Abbreviation last_valid' := (last_valid pyval is_primitive).

Lemma valid_updates_snoc (values : list (string * pyval))
    (kv : string * pyval) :
  valid_updates' (values ++ [kv]) =
  if is_valid' (fst kv) (snd kv)
  then <[fst kv := parse_value' (snd kv)]> (valid_updates' values)
  else valid_updates' values.
Proof. unfold valid_updates. rewrite fold_left_app. reflexivity. Qed.

Lemma valid_updates_lookup (values : list (string * pyval)) (k : string) :
  valid_updates' values !! k = parse_value' <$> last_valid' values k.
Proof.
  induction values as [|kv values IH] using rev_ind; [reflexivity|].
  rewrite valid_updates_snoc. unfold last_valid. rewrite rev_unit. simpl.
  destruct (String.eqb (fst kv) k) eqn:Hk; simpl.
  - apply String.eqb_eq in Hk. subst k.
    destruct (is_valid' (fst kv) (snd kv)); simpl.
    + apply lookup_insert_eq.
    + exact IH.
  - apply String.eqb_neq in Hk.
    destruct (is_valid' (fst kv) (snd kv)).
    + rewrite lookup_insert_ne by exact Hk. exact IH.
    + exact IH.
Qed.

Lemma add_config_entry (config : gmap string (gmap string cfg)) (key : string)
    (values : list (string * pyval)) (reset : bool) :
  add_config' config key values reset =
  <[key := valid_updates' values ∪ old_entry config key reset]> config.
Proof.
  unfold _add_config, old_entry. cbv zeta. destruct reset; simpl.
  - rewrite lookup_insert_eq. simpl. apply insert_insert_eq.
  - destruct (bool_decide (key ∈ dom config)) eqn:Hd; simpl; [reflexivity|].
    apply bool_decide_eq_false in Hd. apply not_elem_of_dom in Hd.
    rewrite lookup_insert_eq, Hd. simpl. apply insert_insert_eq.
Qed.



Lemma last_valid_some (values : list (string * pyval)) (k : string)
    (v : pyval) :
  last_valid' values k = Some v ->
  (k, v) ∈ values /\ is_valid' k v = true.
Proof.
  unfold last_valid. intros Hf.
  destruct (find _ (rev values)) as [[k' v']|] eqn:Hfind; [|discriminate].
  injection Hf as ->. apply find_some in Hfind as [Hin Hok].
  simpl in Hok. apply andb_true_iff in Hok as [Hk Hv].
  apply String.eqb_eq in Hk. subst k'. split; [|exact Hv].
  apply list_elem_of_In, in_rev, Hin.
Qed.

(** X24.  What [_add_config] stores.  The entries of other keys of the
    configuration are untouched.  Under [key], each name of [values] whose
    value is accepted (a primitive value or [None], under a name that
    neither starts with "_" nor is "kwargs") holds its parsed value: the
    list of the strings of the elements for a list or a set, the string of
    the value otherwise.  Every other name keeps what the entry held, or
    nothing after a reset or when the key is new; in particular a name
    that starts with "_" or is "kwargs" is never written. *)
Theorem add_config_lookup (config : gmap string (gmap string cfg))
    (key : string) (values : list (string * pyval)) (reset : bool) :
  let config' := _add_config pyval is_primitive items py_str config key
                   values reset in
  (forall key', key' <> key -> config' !! key' = config !! key') /\
  exists entry,
    config' !! key = Some entry /\
    (forall k,
       entry !! k =
       match last_valid pyval is_primitive values k with
       | Some v => Some (parse_value pyval items py_str v)
       | None => old_entry config key reset !! k
       end) /\
    (forall k, startswith k "_" = true \/ k = "kwargs" ->
               entry !! k = old_entry config key reset !! k).
Proof.
  cbv zeta. rewrite add_config_entry. split.
  - intros key' Hne. apply lookup_insert_ne. congruence.
  - eexists. split; [apply lookup_insert_eq|].
    assert (Hl : forall k,
               (valid_updates' values ∪ old_entry config key reset) !! k =
               match last_valid' values k with
               | Some v => Some (parse_value' v)
               | None => old_entry config key reset !! k
               end).
    { intros k. rewrite lookup_union, valid_updates_lookup.
      destruct (last_valid' values k); simpl.
      - destruct (old_entry config key reset !! k); reflexivity.
      - destruct (old_entry config key reset !! k); reflexivity. }
    split; [exact Hl|].
    intros k Hk. rewrite Hl.
    destruct (last_valid' values k) as [v|] eqn:Hv; [|reflexivity].
    exfalso. apply last_valid_some in Hv as [_ Hv].
    unfold is_valid in Hv. apply andb_true_iff in Hv as [Hv _].
    apply negb_true_iff, orb_false_iff in Hv as [Hs Hkw].
    destruct Hk as [Hk| ->]; [congruence|].
    rewrite String.eqb_refl in Hkw. discriminate.
Qed.


End AddConfigFacts.

End ConfigExtras.
